(** * Document Picture-in-Picture wrapper: a shallow embedding

    The development follows the core package of the repository:

    - [utils.ts]: the capability probe [isDocumentPipSupported] and the
      style replicator [copyDocumentStylesToWindow];
    - [PictureInPictureWindow.ts]: the window lifecycle controller.

    The browser is not part of the code.  Every call the code makes to it
    is recorded in a trace of [Effect]s, and what the browser does in
    return (settling the window request, firing [pagehide] or [enter])
    is an input of the model.  Calls on DOM objects ([close], [resizeTo],
    [appendChild], [addEventListener], ...) are taken to return normally;
    the only exceptions are a rejected request and a callback that
    throws.

    Callbacks are user code.  A callback is a function value with a
    body, a list of calls on the controller it closes over, so that a
    listener can unsubscribe, subscribe, dispose or throw while the
    controller is in the middle of a method. *)

From Stdlib Require Import ZArith.
From stdpp Require Import base option list strings gmap.

(* ===================================================================== *)
(** * utils.ts                                                            *)
(* ===================================================================== *)

(** ** The part of the DOM the style replicator touches *)

Record CSSRule := { cssText : string }.

(** [cssRules] is [None] when reading the rule list throws (the
    cross-origin case); [href] is [None] for JavaScript's [null]. *)
Record StyleSheet := {
  cssRules : option (list CSSRule);
  href : option string;
  mediaText : string
}.

(** The two kinds of element the replicator creates.  [link_media] is
    [None] while the [media] property has never been assigned. *)
Inductive Element :=
  | StyleElement (textContent : string)
  | LinkElement (link_rel : string) (link_href : string)
                (link_media : option string).

Record Document := { styleSheets : list StyleSheet }.

(** JavaScript truthiness of a string: only the empty string is falsy. *)
Definition truthy (s : string) : bool :=
  match s with
  | EmptyString => false
  | String _ _ => true
  end.

(** [Array.prototype.join]. *)
Definition join (sep : string) (parts : list string) : string :=
  String.concat sep parts.

(** The separator ['\n']. *)
Definition newline : string := String (Ascii.ascii_of_nat 10) EmptyString.

(** [head.appendChild(el)]: the new child becomes the last one. *)
Definition appendChild (head : list Element) (el : Element) : list Element :=
  head ++ [el].

(** The body of the [for ... of styleSheets] loop: the [try] branch when
    the rule list can be read, the [catch] branch otherwise. *)
Definition copy_sheet (head : list Element) (styleSheet : StyleSheet)
  : list Element :=
  match cssRules styleSheet with
  | Some rules =>
      let text := join newline (map cssText rules) in
      let styleElement := StyleElement text in
      appendChild head styleElement
  | None =>
      match href styleSheet with
      | Some h =>
          if truthy h then
            let media :=
              if truthy (mediaText styleSheet)
              then Some (mediaText styleSheet) else None in
            let linkElement := LinkElement "stylesheet" h media in
            appendChild head linkElement
          else head
      | None => head
      end
  end.

(** [copyDocumentStylesToWindow(targetWindow)], as a function of the
    current document and of the children of the target's head. *)
Definition copyDocumentStylesToWindow (document : Document)
  (head : list Element) : list Element :=
  fold_left copy_sheet (styleSheets document) head.

(** ** What the specification asks of the replicator

    This relation is written from the specification's words, to be
    compared with the loop above: a readable sheet gives one inline style
    element, an unreadable sheet with a location gives one link element,
    an unreadable sheet without one gives nothing. *)
Inductive replicated : StyleSheet -> list Element -> Prop :=
  | replicated_inline s rules :
      cssRules s = Some rules ->
      replicated s [StyleElement (join newline (map cssText rules))]
  | replicated_link_media s h :
      cssRules s = None -> href s = Some h -> h <> EmptyString ->
      mediaText s <> EmptyString ->
      replicated s [LinkElement "stylesheet" h (Some (mediaText s))]
  | replicated_link_plain s h :
      cssRules s = None -> href s = Some h -> h <> EmptyString ->
      mediaText s = EmptyString ->
      replicated s [LinkElement "stylesheet" h None]
  | replicated_skip s :
      cssRules s = None -> (href s = None \/ href s = Some EmptyString) ->
      replicated s [].


(* ===================================================================== *)
(** * types.ts                                                            *)
(* ===================================================================== *)

(** A window handle, and a JavaScript function value.  Two function
    values are the same listener exactly when they are the same object,
    which the numbers stand for. *)
Definition Window := nat.
Definition Callback := nat.

(** ['open' | 'close' | 'statechange']. *)
Inductive PictureInPictureWindowEventType :=
  | ev_open
  | ev_close
  | ev_statechange.

Global Instance EventType_eq_dec : EqDecision PictureInPictureWindowEventType.
Proof. solve_decision. Defined.

Global Instance EventType_countable : Countable PictureInPictureWindowEventType.
Proof.
  refine (inj_countable'
            (fun t => match t with
                      | ev_open => 0 | ev_close => 1 | ev_statechange => 2
                      end)
            (fun n => match n with
                      | 0 => ev_open | 1 => ev_close | _ => ev_statechange
                      end) _).
  by intros [].
Defined.

(** [PictureInPictureWindowOptions] as the controller reads it: [None]
    is [undefined], whether the key is missing or holds [undefined]. *)
Record PictureInPictureWindowOptions := {
  opt_width : option Z;
  opt_height : option Z;
  opt_disallowReturnToOpener : option bool;
  opt_copyStyles : option bool;
  opt_onOpen : option Callback;
  opt_onClose : option Callback
}.

(** An options object as a caller writes it.  The outer [None] is a key
    that is not there; [Some None] is a key holding [undefined], which an
    object spread does copy. *)
Record OptionsLiteral := {
  lit_width : option (option Z);
  lit_height : option (option Z);
  lit_disallowReturnToOpener : option (option bool);
  lit_copyStyles : option (option bool);
  lit_onOpen : option (option Callback);
  lit_onClose : option (option Callback)
}.

Definition spread_key {A} (base : option A) (over : option (option A))
  : option A :=
  match over with
  | Some v => v
  | None => base
  end.

(** [{ ...base, ...over }]. *)
Definition spread (base : PictureInPictureWindowOptions) (over : OptionsLiteral)
  : PictureInPictureWindowOptions :=
  {| opt_width := spread_key (opt_width base) (lit_width over);
     opt_height := spread_key (opt_height base) (lit_height over);
     opt_disallowReturnToOpener :=
       spread_key (opt_disallowReturnToOpener base)
                  (lit_disallowReturnToOpener over);
     opt_copyStyles := spread_key (opt_copyStyles base) (lit_copyStyles over);
     opt_onOpen := spread_key (opt_onOpen base) (lit_onOpen over);
     opt_onClose := spread_key (opt_onClose base) (lit_onClose over) |}.

(** [DocumentPictureInPictureOptions] as passed to [requestWindow]:
    [req_width] and [req_height] are [None] when the key was not added. *)
Record DocumentPictureInPictureOptions := {
  req_disallowReturnToOpener : option bool;
  req_width : option Z;
  req_height : option Z
}.

(** [PictureInPictureWindowState], the snapshot handed to listeners. *)
Record PictureInPictureWindowState := {
  st_isSupported : bool;
  st_isOpen : bool;
  st_pipWindow : option Window
}.

(* ===================================================================== *)
(** * The environment of the controller                                   *)
(* ===================================================================== *)

(** What a callback (a listener, [onOpen], [onClose]) may do: call the
    public synchronous methods of the controller it closes over, start
    an [open()], or throw.  [call_off] is also the function returned by
    [on]. *)
Inductive Action :=
  | call_on (type : PictureInPictureWindowEventType) (listener : Callback)
  | call_off (type : PictureInPictureWindowEventType) (listener : Callback)
  | call_open
  | call_close
  | call_resize (width height : Z)
  | call_resizeBy (deltaWidth deltaHeight : Z)
  | call_focusOpener
  | call_copyStylesToWindow (targetWindow : Window)
  | call_updateOptions (options : OptionsLiteral)
  | call_dispose
  | throw_error.

(** The property [documentPictureInPicture] of the global [window]. *)
Inductive Slot :=
  | slot_missing      (* not [in window] *)
  | slot_falsy        (* [in window], but [undefined] or [null] *)
  | slot_capability.  (* the platform object *)

(** [window] is [None] when [typeof window === 'undefined'].  [code]
    gives the body of every function value.  The document is taken to
    exist. *)
Record Env := {
  window : option Slot;
  document : Document;
  code : Callback -> list Action
}.

(** Every call the code makes to the platform, to a window, to the
    console or to a callback, in the order it is made. *)
Inductive Effect :=
  | requestWindow (requestOptions : DocumentPictureInPictureOptions)
  | addEventListener_enter
  | removeEventListener_enter
  | addEventListener_pagehide_once (w : Window)
  | removeEventListener_pagehide (w : Window)
  | window_close (w : Window)
  | window_resizeTo (w : Window) (width height : Z)
  | window_resizeBy (w : Window) (deltaWidth deltaHeight : Z)
  | window_focus
  | head_appendChild (w : Window) (el : Element)
  | console_error
  | call_onOpen (f : Callback) (w : Window)
  | call_onClose (f : Callback)
  | call_listener (f : Callback) (type : PictureInPictureWindowEventType)
                  (state : PictureInPictureWindowState).

(** [isDocumentPipSupported()]. *)
Definition isDocumentPipSupported (env : Env) : bool :=
  match window env with
  | None => false
  | Some slot_missing => false
  | Some _ => true
  end.

(** Truthiness of [window.documentPictureInPicture], read once [window]
    is known to exist. *)
Definition documentPictureInPicture (env : Env) : bool :=
  match window env with
  | Some slot_capability => true
  | _ => false
  end.

(** The calls [copyDocumentStylesToWindow(w)] makes on the head of a
    window [w]. *)
Definition copyDocumentStylesToWindow_calls (env : Env) (w : Window)
  : list Effect :=
  map (head_appendChild w) (copyDocumentStylesToWindow (document env) []).

(* ===================================================================== *)
(** * JavaScript [Set], as ECMAScript defines it                          *)
(* ===================================================================== *)

(** The data of a [Set] is a list of entries in insertion order; a
    deleted entry is replaced by the marker [None] and keeps its place,
    so that an iterator, which is an index into the list, stays valid
    while the set is modified. *)
Definition SetData := list (option Callback).

Definition set_has (s : SetData) (v : Callback) : bool :=
  bool_decide (Some v ∈ s).

Definition set_add (s : SetData) (v : Callback) : SetData :=
  if set_has s v then s else s ++ [Some v].

Fixpoint set_delete (s : SetData) (v : Callback) : SetData :=
  match s with
  | [] => []
  | e :: rest =>
      if decide (e = Some v) then None :: rest else e :: set_delete rest v
  end.

(** The values an iterator started now would yield if nobody touched
    the set. *)
Definition set_values (s : SetData) : list Callback := omap id s.

(* ===================================================================== *)
(** * PictureInPictureWindow.ts: the controller                           *)
(* ===================================================================== *)

(** The private fields.  [_listeners] maps an event type to a reference
    to a [Set] object; the objects live in [heap], so that a loop which
    holds a reference to a set keeps it after [_listeners.clear()]. *)
Record Controller := {
  _options : PictureInPictureWindowOptions;
  _pipWindow : option Window;
  _isOpen : bool;
  _listeners : gmap PictureInPictureWindowEventType nat;
  heap : list SetData
}.

Definition with_options (o : PictureInPictureWindowOptions) (c : Controller) :=
  {| _options := o; _pipWindow := _pipWindow c; _isOpen := _isOpen c;
     _listeners := _listeners c; heap := heap c |}.

Definition with_pipWindow (w : option Window) (c : Controller) :=
  {| _options := _options c; _pipWindow := w; _isOpen := _isOpen c;
     _listeners := _listeners c; heap := heap c |}.

Definition with_isOpen (b : bool) (c : Controller) :=
  {| _options := _options c; _pipWindow := _pipWindow c; _isOpen := b;
     _listeners := _listeners c; heap := heap c |}.

Definition with_listeners (m : gmap PictureInPictureWindowEventType nat)
  (c : Controller) :=
  {| _options := _options c; _pipWindow := _pipWindow c; _isOpen := _isOpen c;
     _listeners := m; heap := heap c |}.

Definition with_heap (h : list SetData) (c : Controller) :=
  {| _options := _options c; _pipWindow := _pipWindow c; _isOpen := _isOpen c;
     _listeners := _listeners c; heap := h |}.

(** ** Running a method

    A method runs on the controller, leaves a trace, and either
    completes normally with a value or throws.  [None] is a run that is
    not over when the fuel of the only loop, the one of [_emit], is
    spent. *)
Inductive Completion (A : Type) :=
  | Normal (a : A)
  | Thrown.
Arguments Normal {A} a.
Arguments Thrown {A}.

Definition Exec (A : Type) : Type :=
  Controller -> option (Completion A * Controller * list Effect).

Definition ret {A} (a : A) : Exec A :=
  fun c => Some (Normal a, c, []).

Definition bind {A B} (m : Exec A) (k : A -> Exec B) : Exec B :=
  fun c =>
    match m c with
    | None => None
    | Some (Thrown, c1, t1) => Some (Thrown, c1, t1)
    | Some (Normal a, c1, t1) =>
        match k a c1 with
        | None => None
        | Some (r, c2, t2) => Some (r, c2, t1 ++ t2)
        end
    end.

Definition throw {A} : Exec A :=
  fun c => Some (Thrown, c, []).

(** [try { m } catch { handler }]. *)
Definition try_catch {A} (m : Exec A) (handler : Exec A) : Exec A :=
  fun c =>
    match m c with
    | None => None
    | Some (Thrown, c1, t1) =>
        match handler c1 with
        | None => None
        | Some (r, c2, t2) => Some (r, c2, t1 ++ t2)
        end
    | Some (Normal a, c1, t1) => Some (Normal a, c1, t1)
    end.

Definition perform (e : Effect) : Exec unit :=
  fun c => Some (Normal tt, c, [e]).

Definition perform_all (es : list Effect) : Exec unit :=
  fun c => Some (Normal tt, c, es).

Definition read {A} (field : Controller -> A) : Exec A :=
  fun c => Some (Normal (field c), c, []).

Definition write (update : Controller -> Controller) : Exec unit :=
  fun c => Some (Normal tt, update c, []).

Definition out_of_fuel {A} : Exec A :=
  fun _ => None.

Declare Scope exec_scope.
Delimit Scope exec_scope with exec.
Bind Scope exec_scope with Exec.
Notation "'let*' x ':=' m 'in' k" :=
  (bind m (fun x => k))
  (at level 10, x name, m at level 100, k at level 200) : exec_scope.
Notation "m ';;' k" :=
  (bind m (fun _ => k))
  (at level 100, k at level 200, right associativity) : exec_scope.
Local Open Scope exec_scope.

(** ** Getters *)

Definition isSupported (env : Env) : bool := isDocumentPipSupported env.

Definition state (env : Env) (c : Controller) : PictureInPictureWindowState :=
  {| st_isSupported := isSupported env;
     st_isOpen := _isOpen c;
     st_pipWindow := _pipWindow c |}.

(** ** The constructor

    It returns the new object and the calls made while building it. *)
Definition constructor (env : Env) (options : OptionsLiteral)
  : Controller * list Effect :=
  let defaults :=
    {| opt_width := None; opt_height := None;
       opt_disallowReturnToOpener := Some false;
       opt_copyStyles := Some true;
       opt_onOpen := None; opt_onClose := None |} in
  ({| _options := spread defaults options;
      _pipWindow := None;
      _isOpen := false;
      _listeners := ∅;
      heap := [] |},
   if isSupported env && documentPictureInPicture env
   then [addEventListener_enter] else []).

(** ** Subscribing and unsubscribing *)

(** [on(type, listener)].  The function it returns is
    [off type listener]. *)
Definition on (type : PictureInPictureWindowEventType) (listener : Callback)
  : Exec unit :=
  let* m := read _listeners in
  (match m !! type with
   | Some _ => ret tt
   | None =>
       let* h := read heap in
       write (with_heap (h ++ [[]]));;
       write (with_listeners (<[type := length h]> m))
   end);;
  let* m := read _listeners in
  match m !! type with
  | Some r =>
      let* h := read heap in
      match h !! r with
      | Some s => write (with_heap (<[r := set_add s listener]> h))
      | None => ret tt
      end
  | None => ret tt
  end.

(** [off(type, listener)]. *)
Definition off (type : PictureInPictureWindowEventType) (listener : Callback)
  : Exec unit :=
  let* m := read _listeners in
  match m !! type with
  | Some r =>
      let* h := read heap in
      match h !! r with
      | Some s => write (with_heap (<[r := set_delete s listener]> h))
      | None => ret tt
      end
  | None => ret tt
  end.

(** ** The synchronous public methods *)

Definition close : Exec unit :=
  let* w := read _pipWindow in
  match w with
  | Some w => perform (window_close w)
  | None => ret tt
  end.

Definition resize (width height : Z) : Exec unit :=
  let* w := read _pipWindow in
  match w with
  | Some w => perform (window_resizeTo w width height)
  | None => ret tt
  end.

Definition resizeBy (deltaWidth deltaHeight : Z) : Exec unit :=
  let* w := read _pipWindow in
  match w with
  | Some w => perform (window_resizeBy w deltaWidth deltaHeight)
  | None => ret tt
  end.

Definition focusOpener (env : Env) : Exec unit :=
  match window env with
  | Some _ => perform window_focus
  | None => ret tt
  end.

Definition copyStylesToWindow (env : Env) (targetWindow : Window) : Exec unit :=
  perform_all (copyDocumentStylesToWindow_calls env targetWindow).

Definition updateOptions (options : OptionsLiteral) : Exec unit :=
  let* o := read _options in
  write (with_options (spread o options)).

Definition dispose (env : Env) : Exec unit :=
  let* w := read _pipWindow in
  (match w with
   | Some w =>
       perform (removeEventListener_pagehide w);;
       perform (window_close w)
   | None => ret tt
   end);;
  (if isSupported env && documentPictureInPicture env
   then perform removeEventListener_enter
   else ret tt);;
  write (with_pipWindow None);;
  write (with_isOpen false);;
  write (with_listeners ∅).

(** ** [open()], up to its [await]

    [open] is the only asynchronous method.  [open_begin] is what runs
    when it is called: it either returns at once or issues the request
    and suspends. *)
Inductive Suspension :=
  | returned (result : option Window)
  | awaiting.

Definition open_begin (env : Env) : Exec Suspension :=
  if negb (isSupported env) || negb (documentPictureInPicture env)
  then ret (returned None)
  else
    let* w := read _pipWindow in
    match w with
    | Some w => ret (returned (Some w))
    | None =>
        let* o := read _options in
        let requestOptions :=
          {| req_disallowReturnToOpener := opt_disallowReturnToOpener o;
             req_width := opt_width o;
             req_height := opt_height o |} in
        perform (requestWindow requestOptions);;
        ret awaiting
    end.

(** ** Callbacks *)

Definition run_action (env : Env) (a : Action) : Exec unit :=
  match a with
  | call_on type listener => on type listener
  | call_off type listener => off type listener
  | call_open => (open_begin env;; ret tt)
  | call_close => close
  | call_resize width height => resize width height
  | call_resizeBy deltaWidth deltaHeight => resizeBy deltaWidth deltaHeight
  | call_focusOpener => focusOpener env
  | call_copyStylesToWindow targetWindow => copyStylesToWindow env targetWindow
  | call_updateOptions options => updateOptions options
  | call_dispose => dispose env
  | throw_error => throw
  end.

Fixpoint run_actions (env : Env) (body : list Action) : Exec unit :=
  match body with
  | [] => ret tt
  | a :: rest => run_action env a;; run_actions env rest
  end.

(** Calling the function value [f]. *)
Definition invoke (env : Env) (f : Callback) : Exec unit :=
  run_actions env (code env f).

(** ** The event emitter *)

(** [for (const listener of listeners) listener(state)], with the
    iterator of [SetData] written out: [r] is the set the loop holds,
    [index] the position of the iterator.  The entry is read again from
    the heap at every turn, after the previous listener has run. *)
Fixpoint emit_loop (fuel : nat) (env : Env)
  (type : PictureInPictureWindowEventType)
  (state : PictureInPictureWindowState) (r : nat) (index : nat)
  : Exec unit :=
  let* h := read heap in
  match h !! r with
  | None => ret tt
  | Some entries =>
      match entries !! index with
      | None => ret tt
      | Some entry =>
          match fuel with
          | 0 => out_of_fuel
          | S fuel' =>
              (match entry with
               | Some listener =>
                   perform (call_listener listener type state);;
                   invoke env listener
               | None => ret tt
               end);;
              emit_loop fuel' env type state r (S index)
          end
      end
  end.

Definition _emit (fuel : nat) (env : Env)
  (type : PictureInPictureWindowEventType) : Exec unit :=
  let* m := read _listeners in
  match m !! type with
  | Some r =>
      let* state := read (state env) in
      emit_loop fuel env type state r 0
  | None => ret tt
  end.

(** ** The two observers *)

Definition _handlePageHide (fuel : nat) (env : Env) : Exec unit :=
  write (with_isOpen false);;
  write (with_pipWindow None);;
  let* o := read _options in
  (match opt_onClose o with
   | Some f => perform (call_onClose f);; invoke env f
   | None => ret tt
   end);;
  _emit fuel env ev_close;;
  _emit fuel env ev_statechange.

Definition _handleEnter (fuel : nat) (env : Env) (event_window : Window)
  : Exec unit :=
  write (with_pipWindow (Some event_window));;
  write (with_isOpen true);;
  _emit fuel env ev_open;;
  _emit fuel env ev_statechange.

(** ** [open()], from its [await] on *)

(** How the platform settles the promise of [requestWindow]. *)
Inductive Settlement :=
  | resolved (newWindow : Window)
  | rejected.

Definition open_resume (fuel : nat) (env : Env) (settlement : Settlement)
  : Exec (option Window) :=
  try_catch
    (let* newWindow :=
       match settlement with
       | resolved w => ret w
       | rejected => throw
       end in
     perform (addEventListener_pagehide_once newWindow);;
     let* o := read _options in
     (match opt_copyStyles o with
      | Some true => perform_all (copyDocumentStylesToWindow_calls env newWindow)
      | _ => ret tt
      end);;
     write (with_pipWindow (Some newWindow));;
     write (with_isOpen true);;
     let* o := read _options in
     (match opt_onOpen o with
      | Some f => perform (call_onOpen f newWindow);; invoke env f
      | None => ret tt
      end);;
     _emit fuel env ev_open;;
     _emit fuel env ev_statechange;;
     ret (Some newWindow))
    (perform console_error;;
     ret None).

(** [open()] run in one piece: nothing else happens between the request
    and its settlement. *)
Definition open (fuel : nat) (env : Env) (settlement : Settlement)
  : Exec (option Window) :=
  let* s := open_begin env in
  match s with
  | returned result => ret result
  | awaiting => open_resume fuel env settlement
  end.

(* ===================================================================== *)
(** * The platform around the controller                                  *)
(* ===================================================================== *)

(** What the platform remembers of the calls of one controller: whether
    its [enter] handler is registered on the capability object, on which
    windows its [pagehide] handler is registered, and how many window
    requests are not settled yet.  Registering the same function twice
    on the same target registers it once. *)
Record Platform := {
  enter_listener : bool;
  pagehide_listeners : gset Window;
  in_flight : nat
}.

Definition absorb (p : Platform) (e : Effect) : Platform :=
  match e with
  | requestWindow _ =>
      {| enter_listener := enter_listener p;
         pagehide_listeners := pagehide_listeners p;
         in_flight := S (in_flight p) |}
  | addEventListener_enter =>
      {| enter_listener := true;
         pagehide_listeners := pagehide_listeners p;
         in_flight := in_flight p |}
  | removeEventListener_enter =>
      {| enter_listener := false;
         pagehide_listeners := pagehide_listeners p;
         in_flight := in_flight p |}
  | addEventListener_pagehide_once w =>
      {| enter_listener := enter_listener p;
         pagehide_listeners := {[w]} ∪ pagehide_listeners p;
         in_flight := in_flight p |}
  | removeEventListener_pagehide w =>
      {| enter_listener := enter_listener p;
         pagehide_listeners := pagehide_listeners p ∖ {[w]};
         in_flight := in_flight p |}
  | _ => p
  end.

Definition absorb_all (p : Platform) (t : list Effect) : Platform :=
  fold_left absorb t p.

Record System := {
  controller : Controller;
  platform : Platform
}.

(** What can happen to a controller: its user calls a method, or the
    platform settles a request, closes a window, or announces a window. *)
Inductive Event :=
  | user_calls (a : Action)
  | request_settles (settlement : Settlement)
  | pagehide_fires (w : Window)
  | enter_fires (w : Window).

Definition run {A} (m : Exec A) (p : Platform) (c : Controller)
  : option System :=
  match m c with
  | Some (_, c', t) => Some {| controller := c'; platform := absorb_all p t |}
  | None => None
  end.

(** An event the controller has no handler for reaches no code of the
    controller.  A [pagehide] handler is registered with [once: true]:
    the platform removes it before calling it. *)
Definition deliver (fuel : nat) (env : Env) (ev : Event) (s : System)
  : option System :=
  let p := platform s in
  match ev with
  | user_calls a => run (run_action env a) p (controller s)
  | request_settles settlement =>
      match in_flight p with
      | 0 => Some s
      | S n =>
          run (open_resume fuel env settlement)
              {| enter_listener := enter_listener p;
                 pagehide_listeners := pagehide_listeners p;
                 in_flight := n |}
              (controller s)
      end
  | pagehide_fires w =>
      if decide (w ∈ pagehide_listeners p) then
        run (_handlePageHide fuel env)
            {| enter_listener := enter_listener p;
               pagehide_listeners := pagehide_listeners p ∖ {[w]};
               in_flight := in_flight p |}
            (controller s)
      else Some s
  | enter_fires w =>
      if enter_listener p
      then run (_handleEnter fuel env w) p (controller s)
      else Some s
  end.

(** [new PictureInPictureWindow(options)] on a platform that knows
    nothing of the controller yet. *)
Definition boot (env : Env) (options : OptionsLiteral) : System :=
  let '(c, t) := constructor env options in
  {| controller := c;
     platform := absorb_all {| enter_listener := false;
                               pagehide_listeners := ∅;
                               in_flight := 0 |} t |}.

Inductive reachable (env : Env) : System -> Prop :=
  | reachable_boot options : reachable env (boot env options)
  | reachable_step s fuel ev s' :
      reachable env s ->
      deliver fuel env ev s = Some s' ->
      reachable env s'.

(** ** Some concrete data for examples *)

Definition no_options : OptionsLiteral :=
  {| lit_width := None; lit_height := None;
     lit_disallowReturnToOpener := None; lit_copyStyles := None;
     lit_onOpen := None; lit_onClose := None |}.

(** A browser with the capability, an empty document, and callbacks
    that do nothing. *)
Definition browser : Env :=
  {| window := Some slot_capability;
     document := {| styleSheets := [] |};
     code := fun _ => [] |}.

(* ===================================================================== *)
(** * Vocabulary of the properties                                        *)
(* ===================================================================== *)

(** The guard of [open], of the constructor and of [dispose]:
    [this.isSupported && window.documentPictureInPicture]. *)
Definition capability_present (env : Env) : bool :=
  isSupported env && documentPictureInPicture env.

(** The invariant of the data model: a window is held exactly when the
    controller says it is open. *)
Definition window_iff_open (c : Controller) : Prop :=
  is_Some (_pipWindow c) <-> _isOpen c = true.

(** [{I} m {I}], with every call of the trace in [phi]: whenever [m]
    is over, normally or by a throw. *)
Definition keeps {A} (I : Controller -> Prop) (phi : Effect -> Prop)
  (m : Exec A) : Prop :=
  forall c r c' t, I c -> m c = Some (r, c', t) -> I c' /\ Forall phi t.

(** The listeners registered for an event type, in insertion order. *)
Definition listeners_of (c : Controller)
  (type : PictureInPictureWindowEventType) : list Callback :=
  match _listeners c !! type with
  | Some r =>
      match heap c !! r with
      | Some s => set_values s
      | None => []
      end
  | None => []
  end.

(** The number of entries, deleted ones included, of the largest set:
    the turns the loop of [_emit] makes at most when no listener adds
    one. *)
Definition registry_size (c : Controller) : nat :=
  max_list (map length (heap c)).

Definition is_listener_call (e : Effect) : bool :=
  match e with
  | call_listener _ _ _ => true
  | _ => false
  end.

(** The listener invocations of a trace, in order. *)
Definition listener_calls (t : list Effect) : list Effect :=
  List.filter is_listener_call t.

(** An action that neither touches the listener registry nor throws. *)
Definition quiet (a : Action) : bool :=
  match a with
  | call_on _ _ | call_off _ _ | call_dispose | throw_error => false
  | _ => true
  end.

(** What the callback [f] is allowed in a pass where listeners at most
    unsubscribe themselves. *)
Definition quiet_or_unsubscribes (f : Callback) (a : Action) : bool :=
  match a with
  | call_off _ g => bool_decide (g = f)
  | _ => quiet a
  end.

(** Every callback the controller may call is quiet. *)
Definition callbacks_quiet (env : Env) (c : Controller) : Prop :=
  (forall r (s : SetData) f, heap c !! r = Some s -> Some f ∈ s ->
                 forallb quiet (code env f) = true) /\
  (forall f, opt_onOpen (_options c) = Some f ->
             forallb quiet (code env f) = true) /\
  (forall f, opt_onClose (_options c) = Some f ->
             forallb quiet (code env f) = true).

(** No value is twice in a set. *)
Definition sets_wf (c : Controller) : Prop :=
  Forall (fun s => NoDup (set_values s)) (heap c).

(** The state [dispose] leaves. *)
Definition disposed (c : Controller) : Controller :=
  with_listeners ∅ (with_isOpen false (with_pipWindow None c)).

(** The calls a callback can cause by itself: those of the synchronous
    methods and of the first half of [open]. *)
Definition action_effect (env : Env) (e : Effect) : bool :=
  match e with
  | requestWindow _ | removeEventListener_enter => capability_present env
  | removeEventListener_pagehide _ | window_close _
  | window_resizeTo _ _ _ | window_resizeBy _ _ _
  | window_focus | head_appendChild _ _ => true
  | _ => false
  end.

(** The calls of an [_emit] pass: listeners, and what they cause. *)
Definition emit_effect (env : Env) (e : Effect) : bool :=
  action_effect env e || is_listener_call e.

(** The calls of the [pagehide] handler. *)
Definition pagehide_effect (env : Env) (e : Effect) : bool :=
  emit_effect env e || match e with call_onClose _ => true | _ => false end.

(** The calls of [open] after its [await]. *)
Definition resume_effect (env : Env) (e : Effect) : bool :=
  emit_effect env e ||
  match e with
  | addEventListener_pagehide_once _ | call_onOpen _ _ | console_error => true
  | _ => false
  end.

(** [m] keeps [I], whatever it calls. *)
Definition preserves {A} (I : Controller -> Prop) (m : Exec A) : Prop :=
  forall c r c' t, I c -> m c = Some (r, c', t) -> I c'.

(** Events delivered one after the other. *)
Fixpoint deliver_all (fuel : nat) (env : Env) (evs : list Event) (s : System)
  : option System :=
  match evs with
  | [] => Some s
  | ev :: rest =>
      match deliver fuel env ev s with
      | Some s' => deliver_all fuel env rest s'
      | None => None
      end
  end.

(** The controller built by [new PictureInPictureWindow()] in [browser]. *)
Definition fresh : Controller := fst (constructor browser no_options).

(** The request [open] issues with the options of [c]. *)
Definition request_of (c : Controller) : Effect :=
  requestWindow
    {| req_disallowReturnToOpener := opt_disallowReturnToOpener (_options c);
       req_width := opt_width (_options c);
       req_height := opt_height (_options c) |}.

(** The platform knows nothing of the controller. *)
Definition untouched (p : Platform) : Prop :=
  enter_listener p = false /\ pagehide_listeners p = ∅ /\ in_flight p = 0.

(** Every listener in a set of the controller is quiet. *)
Definition listeners_quiet (env : Env) (c : Controller) : Prop :=
  forall r (s : SetData) f, heap c !! r = Some s -> Some f ∈ s ->
                forallb quiet (code env f) = true.

(** The snapshots listeners receive on the two transitions. *)
Definition opened_state (env : Env) (w : Window) : PictureInPictureWindowState :=
  {| st_isSupported := isSupported env;
     st_isOpen := true;
     st_pipWindow := Some w |}.

Definition closed_state (env : Env) : PictureInPictureWindowState :=
  {| st_isSupported := isSupported env;
     st_isOpen := false;
     st_pipWindow := None |}.

(** One call of each listener registered for [type], in order. *)
Definition one_call_each (c : Controller)
  (type : PictureInPictureWindowEventType)
  (state : PictureInPictureWindowState) : list Effect :=
  map (fun f => call_listener f type state) (listeners_of c type).

(** [c'] differs from [c] at most by its options and by entries [f]
    that were deleted from sets: what a callback that only unsubscribes
    [f] can do. *)
Definition only_unsubscribed (f : Callback) (c c' : Controller) : Prop :=
  _pipWindow c' = _pipWindow c /\
  _isOpen c' = _isOpen c /\
  forall r (s : SetData), heap c !! r = Some s ->
    exists s' : SetData,
      heap c' !! r = Some s' /\
      length s' = length s /\
      forall j, s !! j <> Some (Some f) -> s' !! j = s !! j.

(** A browser in which every listener unsubscribes itself from 'open'
    when called. *)
Definition unsubscribing : Env :=
  {| window := Some slot_capability;
     document := {| styleSheets := [] |};
     code := fun f => [call_off ev_open f] |}.

(** [fresh] after [on('open', 1)], [on('open', 2)], [on('open', 3)]. *)
Definition three_listeners : Controller :=
  {| _options := _options fresh;
     _pipWindow := None;
     _isOpen := false;
     _listeners := {[ ev_open := 0 ]};
     heap := [[Some 1; Some 2; Some 3]] |}.

(** The controller holds no window and says so. *)
Definition closed (c : Controller) : Prop :=
  _isOpen c = false /\ _pipWindow c = None.

(** [fresh] holding the window 7. *)
Definition holding_7 : Controller :=
  with_isOpen true (with_pipWindow (Some 7) fresh).

(** What an observer of the two fields sees after a run of events. *)
Definition observe (s : option System) : option (bool * option Window) :=
  match s with
  | Some s => Some (_isOpen (controller s), _pipWindow (controller s))
  | None => None
  end.

(* ===================================================================== *)
(** * Further vocabulary                                                  *)
(* ===================================================================== *)

(** The literal that has the keys of [first] and of [second], with the
    value of [second] where both have the key: what two object spreads
    in a row amount to. *)
Definition literal_over (first second : OptionsLiteral) : OptionsLiteral :=
  let key {A} (a b : option (option A)) : option (option A) :=
    match b with
    | Some v => Some v
    | None => a
    end in
  {| lit_width := key (lit_width first) (lit_width second);
     lit_height := key (lit_height first) (lit_height second);
     lit_disallowReturnToOpener :=
       key (lit_disallowReturnToOpener first)
           (lit_disallowReturnToOpener second);
     lit_copyStyles := key (lit_copyStyles first) (lit_copyStyles second);
     lit_onOpen := key (lit_onOpen first) (lit_onOpen second);
     lit_onClose := key (lit_onClose first) (lit_onClose second) |}.

(** The request [open] issues with the options [o]. *)
Definition request_with (o : PictureInPictureWindowOptions) : Effect :=
  requestWindow
    {| req_disallowReturnToOpener := opt_disallowReturnToOpener o;
       req_width := opt_width o;
       req_height := opt_height o |}.

(** References of [_listeners] point into the heap, and two event types
    never share a set. *)
Definition registry_ok (c : Controller) : Prop :=
  (forall type r, _listeners c !! type = Some r -> r < length (heap c)) /\
  (forall type1 type2 r,
     _listeners c !! type1 = Some r -> _listeners c !! type2 = Some r ->
     type1 = type2).

(** What the callback [f] is allowed in a pass where listeners at most
    unsubscribe themselves or dispose the controller. *)
Definition unsubscribes_or_disposes (f : Callback) (a : Action) : bool :=
  match a with
  | call_dispose => true
  | _ => quiet_or_unsubscribes f a
  end.

(** The sets of [c'] are those of [c], from which entries [f] may have
    been deleted. *)
Definition sets_only_lose (f : Callback) (c c' : Controller) : Prop :=
  forall r (s : SetData), heap c !! r = Some s ->
    exists s' : SetData,
      heap c' !! r = Some s' /\
      length s' = length s /\
      forall j, s !! j <> Some (Some f) -> s' !! j = s !! j.

(** The three fields [dispose] clears are clear. *)
Definition cleared (c : Controller) : Prop :=
  _listeners c = ∅ /\ _isOpen c = false /\ _pipWindow c = None.

(** A browser in which the listener 1 disposes the controller when it
    is called, and the others do nothing. *)
Definition disposing : Env :=
  {| window := Some slot_capability;
     document := {| styleSheets := [] |};
     code := fun f => match f with 1 => [call_dispose] | _ => [] end |}.

(** [three_listeners] holding the window 7. *)
Definition three_listeners_open : Controller :=
  with_isOpen true (with_pipWindow (Some 7) three_listeners).

(** A browser in which the listener 1 throws when it is called, and
    the others do nothing. *)
Definition throwing : Env :=
  {| window := Some slot_capability;
     document := {| styleSheets := [] |};
     code := fun f => match f with 1 => [throw_error] | _ => [] end |}.

(** [fresh] after [on('open', 2)], [on('open', 1)], [on('open', 3)]. *)
Definition thrower_second : Controller :=
  {| _options := _options fresh;
     _pipWindow := None;
     _isOpen := false;
     _listeners := {[ ev_open := 0 ]};
     heap := [[Some 2; Some 1; Some 3]] |}.

(** A browser in which the listener 1 subscribes the listener 9 to
    'open' when it is called, and the others do nothing. *)
Definition subscribing : Env :=
  {| window := Some slot_capability;
     document := {| styleSheets := [] |};
     code := fun f => match f with 1 => [call_on ev_open 9] | _ => [] end |}.

(** A browser in which the listener 1 unsubscribes from 'open' and
    subscribes again when it is called, and the others do nothing. *)
Definition resubscribing : Env :=
  {| window := Some slot_capability;
     document := {| styleSheets := [] |};
     code := fun f =>
       match f with
       | 1 => [call_off ev_open 1; call_on ev_open 1]
       | _ => []
       end |}.

(** [fresh] with the options [onOpen: 1]. *)
Definition with_onOpen_1 : Controller :=
  with_options
    {| opt_width := None; opt_height := None;
       opt_disallowReturnToOpener := Some false;
       opt_copyStyles := Some true;
       opt_onOpen := Some 1; opt_onClose := None |} fresh.

(** A browser in which [documentPictureInPicture] is a property of
    [window] but holds no object: [isSupported] is true, the capability
    is not there. *)
Definition half_supported : Env :=
  {| window := Some slot_falsy;
     document := {| styleSheets := [] |};
     code := fun _ => [] |}.

(** The system in which the controller opened the window 7 itself and
    then adopted the window 8 announced by the platform. *)
Definition holding_8_observing_7 : System :=
  default (boot browser no_options)
    (deliver_all 0 browser
       [user_calls call_open; request_settles (resolved 7); enter_fires 8]
       (boot browser no_options)).


(** [holding_8_observing_7] after [dispose()]. *)
Definition after_dispose_of_8 : System :=
  default holding_8_observing_7
    (deliver 0 browser (user_calls call_dispose) holding_8_observing_7).

(** A controller built where the capability is missing, after an
    [open()] and an [on]. *)
Definition half_supported_system : System :=
  default (boot half_supported no_options)
    (deliver_all 0 half_supported
       [user_calls call_open; user_calls (call_on ev_open 1)]
       (boot half_supported no_options)).

(* ===================================================================== *)
(** * usePictureInPictureWindow.ts (vue): [open]                          *)
(* ===================================================================== *)

(** The literal [{ width: widthValue, height: heightValue }]: both keys
    are there, whatever they hold. *)
Definition dimensions (widthValue heightValue : option Z) : OptionsLiteral :=
  {| lit_width := Some widthValue; lit_height := Some heightValue;
     lit_disallowReturnToOpener := None; lit_copyStyles := None;
     lit_onOpen := None; lit_onClose := None |}.

(** The first lines of the composable's [open]: [widthValue] and
    [heightValue] are [toValue(width)] and [toValue(height)] when it is
    called. *)
Definition vue_update_dimensions (widthValue heightValue : option Z)
  : Exec unit :=
  match widthValue, heightValue with
  | None, None => ret tt
  | _, _ => updateOptions (dimensions widthValue heightValue)
  end.

(** The composable's [open], up to the [await] of the core's. *)
Definition vue_open_begin (env : Env) (widthValue heightValue : option Z)
  : Exec Suspension :=
  vue_update_dimensions widthValue heightValue;;
  open_begin env.

(** Whether a controller built with the literal copies styles:
    [copyStyles] is true by default, and a key that holds [undefined]
    or [false] turns it off. *)
Definition copies_styles (options : OptionsLiteral) : bool :=
  match lit_copyStyles options with
  | None => true
  | Some (Some true) => true
  | Some _ => false
  end.

(** The [onOpen] of a literal. *)
Definition literal_onOpen (options : OptionsLiteral) : option Callback :=
  match lit_onOpen options with
  | Some (Some f) => Some f
  | _ => None
  end.

(* ===================================================================== *)
(** * The callback wiring of the two adapters                             *)
(* ===================================================================== *)

(** Both [usePictureInPictureWindow] (vue and react) keep a copy of
    [isOpen] and [pipWindow] (refs in one, state in the other) and
    update it in three functions only: the [onOpen] and the [onClose]
    they hand to the controller, and the listener they register for
    'statechange'. *)
Record Mirror := {
  mirror_isOpen : bool;
  mirror_pipWindow : option Window
}.

(** The three function values of an adapter.  In the environment, the
    body of [wired_onOpen] and of [wired_onClose] is what follows the
    update of the copy: the call of the user's own callback. *)
Record Wiring := {
  wired_onOpen : Callback;
  wired_onClose : Callback;
  wired_sync : Callback
}.

(** What a call does to the copy: [onOpen] stores the window and true,
    [onClose] stores null and false, the listener stores what the
    snapshot says.  The adapters write the copy nowhere else.  In the
    vue adapter the copy is a pair of refs, written at once; in the
    react adapter it is what was last handed to the two state
    setters. *)
Definition track (k : Wiring) (m : Mirror) (e : Effect) : Mirror :=
  match e with
  | call_onOpen f w =>
      if decide (f = wired_onOpen k)
      then {| mirror_isOpen := true; mirror_pipWindow := Some w |}
      else m
  | call_onClose f =>
      if decide (f = wired_onClose k)
      then {| mirror_isOpen := false; mirror_pipWindow := None |}
      else m
  | call_listener f _ st =>
      if decide (f = wired_sync k)
      then {| mirror_isOpen := st_isOpen st;
              mirror_pipWindow := st_pipWindow st |}
      else m
  | _ => m
  end.

Definition track_all (k : Wiring) (m : Mirror) (t : list Effect) : Mirror :=
  fold_left (track k) t m.

Definition mirrors (m : Mirror) (c : Controller) : Prop :=
  mirror_isOpen m = _isOpen c /\ mirror_pipWindow m = _pipWindow c.

(** Both adapters take their options apart with
    [const { width, height, disallowReturnToOpener = false,
    copyStyles = true, onOpen, onClose } = options]: a variable holds
    the value of its key, [undefined] when the key is missing ... *)
Definition destructured {A} (key : option (option A)) : option A :=
  match key with
  | Some value => value
  | None => None
  end.

(** ... and a default stands in for a missing key as well as for a key
    that holds [undefined]. *)
Definition destructured_or {A} (d : A) (key : option (option A)) : A :=
  default d (destructured key).

(** The options literal an adapter hands to the constructor,
    [{ width, height, disallowReturnToOpener, copyStyles, onOpen,
    onClose }]: all six keys are there; width and height hold the
    user's value or [undefined], the two flags the user's value or the
    default, the callbacks the adapter's own. *)
Definition wire (k : Wiring) (options : OptionsLiteral) : OptionsLiteral :=
  {| lit_width := Some (destructured (lit_width options));
     lit_height := Some (destructured (lit_height options));
     lit_disallowReturnToOpener :=
       Some (Some (destructured_or false (lit_disallowReturnToOpener options)));
     lit_copyStyles :=
       Some (Some (destructured_or true (lit_copyStyles options)));
     lit_onOpen := Some (Some (wired_onOpen k));
     lit_onClose := Some (Some (wired_onClose k)) |}.

(** A controller as an adapter set it up and uses it: its two
    callbacks in the options, its listener alone in the registry. *)
Definition wired (k : Wiring) (c : Controller) : Prop :=
  opt_onOpen (_options c) = Some (wired_onOpen k) /\
  opt_onClose (_options c) = Some (wired_onClose k) /\
  _listeners c = {[ ev_statechange := 0 ]} /\
  heap c = [[Some (wired_sync k)]].

(** What the user of an adapter can make the controller do, from a
    callback or from outside: the methods the adapter returns, and the
    update of the dimensions.  The controller itself is not handed out,
    so [on], [off] and [dispose] are out of reach; a callback may
    throw. *)
Definition adapter_action (a : Action) : bool :=
  match a with
  | call_on _ _ | call_off _ _ | call_dispose => false
  | call_updateOptions options =>
      match lit_onOpen options, lit_onClose options with
      | None, None => true
      | _, _ => false
      end
  | _ => true
  end.

Definition adapter_code (k : Wiring) (env : Env) : Prop :=
  code env (wired_sync k) = [] /\
  forallb adapter_action (code env (wired_onOpen k)) = true /\
  forallb adapter_action (code env (wired_onClose k)) = true.

(** A call that reaches no function value of the user or of an
    adapter. *)
Definition silent (e : Effect) : bool :=
  match e with
  | call_onOpen _ _ | call_onClose _ | call_listener _ _ _ => false
  | _ => true
  end.

(** The code of the controller an event reaches when the controller
    has a handler for it. *)
Definition reaction (fuel : nat) (env : Env) (ev : Event) : Exec unit :=
  match ev with
  | user_calls a => run_action env a
  | request_settles settlement => open_resume fuel env settlement;; ret tt
  | pagehide_fires _ => _handlePageHide fuel env
  | enter_fires w => _handleEnter fuel env w
  end.

Definition adapter_event (ev : Event) : bool :=
  match ev with
  | user_calls a => adapter_action a
  | _ => true
  end.

(** The events on which the controller calls a function of the adapter:
    a request resolved, a window closed, a window announced. *)
Definition transition (ev : Event) : bool :=
  match ev with
  | request_settles (resolved _) | pagehide_fires _ | enter_fires _ => true
  | _ => false
  end.

(** The teardown of an adapter.  The react adapter unsubscribes its
    listener and then disposes ([unsubscribe(); pip.dispose()]); the
    vue adapter only disposes. *)
Definition teardown (env : Env) (k : Wiring) (unsubscribes : bool)
  : Exec unit :=
  (if unsubscribes then off ev_statechange (wired_sync k) else ret tt);;
  dispose env.

(** Function values for the examples, and a browser in which the
    user's [onOpen] resizes the window and then throws. *)
Definition wiring_123 : Wiring :=
  {| wired_onOpen := 1; wired_onClose := 2; wired_sync := 3 |}.

Definition adapter_browser : Env :=
  {| window := Some slot_capability;
     document := {| styleSheets := [] |};
     code := fun f =>
       match f with
       | 1 => [call_resize 500 400; throw_error]
       | _ => []
       end |}.

Definition adapter_controller : Controller :=
  {| _options :=
       {| opt_width := None; opt_height := None;
          opt_disallowReturnToOpener := Some false;
          opt_copyStyles := Some true;
          opt_onOpen := Some 1; opt_onClose := Some 2 |};
     _pipWindow := None;
     _isOpen := false;
     _listeners := {[ ev_statechange := 0 ]};
     heap := [[Some 3]] |}.

Definition adapter_controller_open : Controller :=
  with_isOpen true (with_pipWindow (Some 7) adapter_controller).

(* ===================================================================== *)
(** * Who removes the pagehide observer                                   *)
(* ===================================================================== *)

Definition not_dispose (a : Action) : bool :=
  match a with
  | call_dispose => false
  | _ => true
  end.

(** A call that removes no pagehide observer. *)
Definition keeps_observers (e : Effect) : bool :=
  match e with
  | removeEventListener_pagehide _ => false
  | _ => true
  end.

(** The system in which [open()] was called twice before the platform
    resolved the first request with the window 7; the second request is
    still pending. *)
Definition holding_7_one_pending : System :=
  default (boot browser no_options)
    (deliver_all 0 browser
       [user_calls call_open; user_calls call_open;
        request_settles (resolved 7)]
       (boot browser no_options)).

(** [holding_8_observing_7] after [close()]. *)
Definition after_close_of_8 : System :=
  default holding_8_observing_7
    (deliver 0 browser (user_calls call_close) holding_8_observing_7).

(* ===================================================================== *)
(** * Listeners and transitions: two runs                                 *)
(* ===================================================================== *)

(** In [browser], after [on('open', 1)], [on('statechange', 2)] and
    [open()]: the request is pending. *)
Definition listening_requested : System :=
  default (boot browser no_options)
    (deliver_all 0 browser
       [user_calls (call_on ev_open 1); user_calls (call_on ev_statechange 2);
        user_calls call_open]
       (boot browser no_options)).

(** ... and after the platform has announced the window 7. *)
Definition listening_announced : System :=
  default listening_requested
    (deliver 1 browser (enter_fires 7) listening_requested).

(** In [throwing], where the listener 1 throws, after [on('open', 1)],
    [on('open', 2)], [on('statechange', 3)] and [open()]. *)
Definition listening_thrower : System :=
  default (boot throwing no_options)
    (deliver_all 0 throwing
       [user_calls (call_on ev_open 1); user_calls (call_on ev_open 2);
        user_calls (call_on ev_statechange 3); user_calls call_open]
       (boot throwing no_options)).

(* ===================================================================== *)
(** * Properties                                                          *)
(* ===================================================================== *)

(** ** The style replicator *)

Lemma truthy_false (s : string) : truthy s = false <-> s = EmptyString.
Proof. destruct s; simpl; split; congruence. Qed.

Lemma truthy_true (s : string) : truthy s = true <-> s <> EmptyString.
Proof. destruct s; simpl; split; congruence. Qed.

Lemma copy_sheet_replicated (s : StyleSheet) :
  exists els, replicated s els /\ forall head, copy_sheet head s = head ++ els.
Proof.
  unfold copy_sheet, appendChild.
  destruct (cssRules s) as [rules|] eqn:Hrules.
  - eexists; split; [by apply replicated_inline | done].
  - destruct (href s) as [h|] eqn:Hh.
    + destruct (truthy h) eqn:Ht.
      * apply truthy_true in Ht.
        destruct (truthy (mediaText s)) eqn:Hm.
        -- apply truthy_true in Hm. eexists; split; [|done].
           by apply replicated_link_media.
        -- apply truthy_false in Hm. eexists; split; [|done].
           by apply replicated_link_plain.
      * apply truthy_false in Ht. subst h. exists []; split.
        -- apply replicated_skip; auto.
        -- intros head. by rewrite app_nil_r.
    + exists []; split.
      * apply replicated_skip; auto.
      * intros head. by rewrite app_nil_r.
Qed.

(** C8. For every stylesheet list and every target head, the replicator
    returns the old head followed, in document order, by the elements the
    specification prescribes for each sheet: one inline style element per
    readable sheet (rule texts joined by a newline), one link element
    (rel "stylesheet", the sheet's location, the media only when
    non-empty) per unreadable sheet with a location, nothing for an
    unreadable sheet without one.  The old children stay in place. *)
Theorem copyDocumentStylesToWindow_replicates (document : Document)
  (head : list Element) :
  exists per_sheet : list (list Element),
    Forall2 replicated (styleSheets document) per_sheet /\
    copyDocumentStylesToWindow document head = head ++ concat per_sheet.
Proof.
  unfold copyDocumentStylesToWindow.
  generalize dependent head.
  induction (styleSheets document) as [|s sheets IH]; intros head.
  - exists []. split; [constructor | by rewrite app_nil_r].
  - destruct (copy_sheet_replicated s) as (els & Hrep & Hcopy).
    destruct (IH (head ++ els)) as (per & Hall & Heq).
    exists (els :: per). split; [by constructor |].
    simpl. rewrite Hcopy, Heq. by rewrite <- app_assoc.
Qed.

(** The scenario of the specification: a readable sheet with two rules,
    then a cross-origin sheet with a location and the media "print". *)
Example copyDocumentStylesToWindow_scenario :
  copyDocumentStylesToWindow
    {| styleSheets :=
         [ {| cssRules := Some [ {| cssText := ".a{color:red}" |};
                                 {| cssText := ".b{color:blue}" |} ];
              href := None; mediaText := EmptyString |};
           {| cssRules := None;
              href := Some "https://cdn.example/x.css";
              mediaText := "print" |} ] |} []
  = [ StyleElement (".a{color:red}" ++ newline ++ ".b{color:blue}");
      LinkElement "stylesheet" "https://cdn.example/x.css" (Some "print") ].
Proof. reflexivity. Qed.

(** ** Reasoning about [Exec] *)

Lemma bind_Some {A B} (m : Exec A) (k : A -> Exec B) c r c' t :
  bind m k c = Some (r, c', t) ->
  (exists c1, m c = Some (Thrown, c1, t) /\ r = Thrown /\ c' = c1) \/
  (exists a c1 t1 t2, m c = Some (Normal a, c1, t1) /\
                      k a c1 = Some (r, c', t2) /\ t = t1 ++ t2).
Proof.
  unfold bind. destruct (m c) as [[[[a|] c1] t1]|]; [| |done].
  - destruct (k a c1) as [[[r2 c2] t2]|] eqn:Hk; [|done].
    intros [= <- <- <-]. right. by exists a, c1, t1, t2.
  - intros [= <- <- <-]. left. by exists c1.
Qed.

Lemma bind_Normal {A B} (m : Exec A) (k : A -> Exec B) c a c1 t1 :
  m c = Some (Normal a, c1, t1) ->
  bind m k c =
    match k a c1 with
    | Some (r, c2, t2) => Some (r, c2, t1 ++ t2)
    | None => None
    end.
Proof. unfold bind. by intros ->. Qed.

Section keeps_rules.
Context {A B : Type} (I : Controller -> Prop) (phi : Effect -> Prop).

Lemma keeps_ret (a : A) : keeps I phi (ret a).
Proof. intros c r c' t HI [= <- <- <-]. by split. Qed.

Lemma keeps_throw : keeps I phi (@throw A).
Proof. intros c r c' t HI [= <- <- <-]. by split. Qed.

Lemma keeps_out_of_fuel : keeps I phi (@out_of_fuel A).
Proof. by intros c r c' t HI. Qed.

Lemma keeps_read (field : Controller -> A) : keeps I phi (read field).
Proof. intros c r c' t HI [= <- <- <-]. by split. Qed.

Lemma keeps_perform (e : Effect) : phi e -> keeps I phi (perform e).
Proof. intros He c r c' t HI [= <- <- <-]. split; [done | by constructor]. Qed.

Lemma keeps_perform_all (es : list Effect) :
  Forall phi es -> keeps I phi (perform_all es).
Proof. intros He c r c' t HI [= <- <- <-]. by split. Qed.

Lemma keeps_write (update : Controller -> Controller) :
  (forall c, I c -> I (update c)) -> keeps I phi (write update).
Proof. intros Hu c r c' t HI [= <- <- <-]. split; [by apply Hu | done]. Qed.

Lemma keeps_bind (m : Exec A) (k : A -> Exec B) :
  keeps I phi m -> (forall a, keeps I phi (k a)) -> keeps I phi (bind m k).
Proof.
  intros Hm Hk c r c' t HI Hrun.
  apply bind_Some in Hrun as [(c1 & Hm1 & -> & ->)|(a & c1 & t1 & t2 & Hm1 & Hk1 & ->)].
  - by apply (Hm c Thrown).
  - destruct (Hm _ _ _ _ HI Hm1) as [HI1 Ht1].
    destruct (Hk a _ _ _ _ HI1 Hk1) as [HI2 Ht2].
    split; [done | by apply Forall_app].
Qed.

Lemma keeps_try_catch (m handler : Exec A) :
  keeps I phi m -> keeps I phi handler -> keeps I phi (try_catch m handler).
Proof.
  intros Hm Hh c r c' t HI. unfold try_catch.
  destruct (m c) as [[[[a|] c1] t1]|] eqn:Hm1; [| |done].
  - intros [= <- <- <-]. by apply (Hm c (Normal a)).
  - destruct (Hm _ _ _ _ HI Hm1) as [HI1 Ht1].
    destruct (handler c1) as [[[r2 c2] t2]|] eqn:Hh1; [|done].
    intros [= <- <- <-].
    destruct (Hh _ _ _ _ HI1 Hh1) as [HI2 Ht2].
    split; [done | by apply Forall_app].
Qed.
End keeps_rules.

(** Takes a method apart along its binds and case distinctions. *)
Ltac keeps_step :=
  lazymatch goal with
  | |- keeps _ _ (ret _) => apply keeps_ret
  | |- keeps _ _ throw => apply keeps_throw
  | |- keeps _ _ out_of_fuel => apply keeps_out_of_fuel
  | |- keeps _ _ (read _) => apply keeps_read
  | |- keeps _ _ (bind _ _) => apply keeps_bind; [|intros ?]
  | |- keeps _ _ (try_catch _ _) => apply keeps_try_catch
  | |- keeps _ _ (perform _) => apply keeps_perform
  | |- keeps _ _ (perform_all _) => apply keeps_perform_all
  | |- keeps _ _ (write _) => apply keeps_write
  | |- keeps _ _ (match ?x with _ => _ end) => destruct x eqn:?
  | |- keeps _ _ (if ?x then _ else _) => destruct x eqn:?
  end.

Lemma keeps_weaken {A} (I : Controller -> Prop) (phi psi : Effect -> Prop)
  (m : Exec A) :
  (forall e, phi e -> psi e) -> keeps I phi m -> keeps I psi m.
Proof.
  intros Himp Hm c r c' t HI Hrun.
  destruct (Hm _ _ _ _ HI Hrun) as [HI' Ht]. split; [done|].
  eapply Forall_impl; eauto.
Qed.

(** ** The synchronous methods, as equations *)

Lemma close_eq (c : Controller) :
  close c = Some (Normal tt, c,
                  match _pipWindow c with
                  | Some w => [window_close w]
                  | None => []
                  end).
Proof. unfold close, bind, read. simpl. by destruct (_pipWindow c). Qed.

Lemma resize_eq (width height : Z) (c : Controller) :
  resize width height c =
    Some (Normal tt, c,
          match _pipWindow c with
          | Some w => [window_resizeTo w width height]
          | None => []
          end).
Proof. unfold resize, bind, read. simpl. by destruct (_pipWindow c). Qed.

Lemma resizeBy_eq (deltaWidth deltaHeight : Z) (c : Controller) :
  resizeBy deltaWidth deltaHeight c =
    Some (Normal tt, c,
          match _pipWindow c with
          | Some w => [window_resizeBy w deltaWidth deltaHeight]
          | None => []
          end).
Proof. unfold resizeBy, bind, read. simpl. by destruct (_pipWindow c). Qed.

Lemma focusOpener_eq (env : Env) (c : Controller) :
  focusOpener env c =
    Some (Normal tt, c,
          match window env with
          | Some _ => [window_focus]
          | None => []
          end).
Proof. unfold focusOpener. by destruct (window env). Qed.

Lemma updateOptions_eq (options : OptionsLiteral) (c : Controller) :
  updateOptions options c =
    Some (Normal tt, with_options (spread (_options c) options) c, []).
Proof. reflexivity. Qed.

Lemma copyStylesToWindow_eq (env : Env) (w : Window) (c : Controller) :
  copyStylesToWindow env w c =
    Some (Normal tt, c, copyDocumentStylesToWindow_calls env w).
Proof. reflexivity. Qed.

Lemma dispose_eq (env : Env) (c : Controller) :
  dispose env c =
    Some (Normal tt, disposed c,
          match _pipWindow c with
          | Some w => [removeEventListener_pagehide w; window_close w]
          | None => []
          end ++
          if capability_present env then [removeEventListener_enter] else []).
Proof.
  unfold dispose, capability_present, bind, read. simpl.
  destruct (_pipWindow c); simpl;
    by destruct (isSupported env && documentPictureInPicture env).
Qed.

Lemma open_begin_eq (env : Env) (c : Controller) :
  open_begin env c =
    if capability_present env then
      match _pipWindow c with
      | Some w => Some (Normal (returned (Some w)), c, [])
      | None =>
          Some (Normal awaiting, c,
                [requestWindow
                   {| req_disallowReturnToOpener :=
                        opt_disallowReturnToOpener (_options c);
                      req_width := opt_width (_options c);
                      req_height := opt_height (_options c) |}])
      end
    else Some (Normal (returned None), c, []).
Proof.
  unfold open_begin, capability_present.
  destruct (isSupported env), (documentPictureInPicture env); simpl; try done.
  unfold bind, read. by destruct (_pipWindow c).
Qed.

(** ** What every method keeps

    The rules are stated once, for an invariant [I] that the two
    registry methods keep, that does not depend on the options, and that
    holds of the state [dispose] leaves. *)

Lemma write_write_bind {A} (f g : Controller -> Controller) (k : Exec A) c :
  bind (write f) (fun _ => bind (write g) (fun _ => k)) c = k (g (f c)).
Proof.
  unfold bind, write. by destruct (k (g (f c))) as [[[r c2] t2]|].
Qed.

Lemma write_bind {A} (f : Controller -> Controller) (k : Exec A) c :
  bind (write f) (fun _ => k) c = k (f c).
Proof. unfold bind, write. by destruct (k (f c)) as [[[r c2] t2]|]. Qed.

Lemma keeps_write_write_bind {A} I phi (f g : Controller -> Controller)
  (k : Exec A) :
  (forall c, I c -> I (g (f c))) -> keeps I phi k ->
  keeps I phi (bind (write f) (fun _ => bind (write g) (fun _ => k))).
Proof.
  intros Hfg Hk c r c' t HI. rewrite write_write_bind. apply Hk, Hfg, HI.
Qed.

Lemma keeps_on_frame I phi type listener :
  (forall h c, I c -> I (with_heap h c)) ->
  (forall m c, I c -> I (with_listeners m c)) ->
  keeps I phi (on type listener).
Proof. intros Hh Hm. unfold on. repeat keeps_step; auto. Qed.

Lemma keeps_off_frame I phi type listener :
  (forall h c, I c -> I (with_heap h c)) ->
  keeps I phi (off type listener).
Proof. intros Hh. unfold off. repeat keeps_step; auto. Qed.

Section keeps_methods.
Context (env : Env) (I : Controller -> Prop).
Hypothesis I_on : forall type listener,
  keeps I (fun e => action_effect env e = true) (on type listener).
Hypothesis I_off : forall type listener,
  keeps I (fun e => action_effect env e = true) (off type listener).
Hypothesis I_options : forall o c, I c -> I (with_options o c).
Hypothesis I_disposed : forall c, I c -> I (disposed c).

Lemma keeps_of_eq {A} (phi : Effect -> Prop) (m : Exec A) :
  (forall c, exists r t, m c = Some (r, c, t) /\ Forall phi t) ->
  keeps I phi m.
Proof.
  intros Heq c r c' t HI Hrun.
  destruct (Heq c) as (r0 & t0 & Hm & Ht). rewrite Hm in Hrun.
  by injection Hrun as <- <- <-.
Qed.

Lemma keeps_open_begin :
  keeps I (fun e => action_effect env e = true) (open_begin env).
Proof.
  apply keeps_of_eq. intros c. rewrite open_begin_eq.
  destruct (capability_present env) eqn:Hcap; [|by eauto].
  destruct (_pipWindow c); [by eauto|].
  eexists _, _. split; [done|]. constructor; [|done]. by simpl.
Qed.

Lemma keeps_dispose :
  keeps I (fun e => action_effect env e = true) (dispose env).
Proof.
  intros c r c' t HI. rewrite dispose_eq. intros [= <- <- <-].
  split; [by apply I_disposed|].
  apply Forall_app. split.
  - destruct (_pipWindow c); repeat constructor.
  - destruct (capability_present env) eqn:Hcap; repeat constructor.
    by simpl.
Qed.

Lemma keeps_run_action (a : Action) :
  keeps I (fun e => action_effect env e = true) (run_action env a).
Proof.
  destruct a; simpl.
  - apply I_on.
  - apply I_off.
  - apply keeps_bind; [apply keeps_open_begin | intros; apply keeps_ret].
  - apply keeps_of_eq. intros c. rewrite close_eq. eexists _, _.
    split; [done|]. destruct (_pipWindow c); repeat constructor.
  - apply keeps_of_eq. intros c. rewrite resize_eq. eexists _, _.
    split; [done|]. destruct (_pipWindow c); repeat constructor.
  - apply keeps_of_eq. intros c. rewrite resizeBy_eq. eexists _, _.
    split; [done|]. destruct (_pipWindow c); repeat constructor.
  - apply keeps_of_eq. intros c. rewrite focusOpener_eq. eexists _, _.
    split; [done|]. destruct (window env); repeat constructor.
  - apply keeps_of_eq. intros c. rewrite copyStylesToWindow_eq.
    eexists _, _. split; [done|].
    unfold copyDocumentStylesToWindow_calls. apply Forall_forall.
    intros e He. apply list_elem_of_In, in_map_iff in He as (el & <- & _).
    done.
  - unfold updateOptions. repeat keeps_step. auto.
  - apply keeps_dispose.
  - apply keeps_throw.
Qed.

Lemma keeps_run_actions (body : list Action) :
  keeps I (fun e => action_effect env e = true) (run_actions env body).
Proof.
  induction body as [|a body IH]; simpl.
  - apply keeps_ret.
  - apply keeps_bind; [apply keeps_run_action | intros _; apply IH].
Qed.

Lemma keeps_invoke (f : Callback) :
  keeps I (fun e => emit_effect env e = true) (invoke env f).
Proof.
  eapply keeps_weaken; [|apply keeps_run_actions].
  intros e He. unfold emit_effect. by rewrite He.
Qed.

Lemma keeps_emit_loop fuel type st r index :
  keeps I (fun e => emit_effect env e = true)
        (emit_loop fuel env type st r index).
Proof.
  revert index. induction fuel as [|fuel IH]; intros index; simpl;
    repeat keeps_step; try done;
    first [apply IH | apply keeps_invoke].
Qed.

Lemma keeps_emit fuel type :
  keeps I (fun e => emit_effect env e = true) (_emit fuel env type).
Proof. unfold _emit. repeat keeps_step. apply keeps_emit_loop. Qed.

Lemma keeps_handlePageHide fuel :
  (forall c, I c -> I (with_pipWindow None (with_isOpen false c))) ->
  keeps I (fun e => pagehide_effect env e = true) (_handlePageHide fuel env).
Proof.
  intros Hclosed. unfold _handlePageHide.
  apply keeps_write_write_bind; [done|].
  assert (Hemit : forall type,
    keeps I (fun e => pagehide_effect env e = true) (_emit fuel env type)).
  { intros type. eapply keeps_weaken; [|apply keeps_emit].
    intros e He. unfold pagehide_effect. by rewrite He. }
  repeat keeps_step; try done; try apply Hemit.
  eapply keeps_weaken; [|apply keeps_invoke].
  intros e He. unfold pagehide_effect. by rewrite He.
Qed.

Lemma keeps_handleEnter fuel w :
  (forall c, I c -> I (with_isOpen true (with_pipWindow (Some w) c))) ->
  keeps I (fun e => emit_effect env e = true) (_handleEnter fuel env w).
Proof.
  intros Hopened. unfold _handleEnter.
  apply keeps_write_write_bind; [done|].
  repeat keeps_step; apply keeps_emit.
Qed.

Lemma keeps_open_resume fuel settlement :
  (forall w c, I c -> I (with_isOpen true (with_pipWindow (Some w) c))) ->
  keeps I (fun e => resume_effect env e = true)
        (open_resume fuel env settlement).
Proof.
  intros Hopened. unfold open_resume.
  assert (Hemit : forall type,
    keeps I (fun e => resume_effect env e = true) (_emit fuel env type)).
  { intros type. eapply keeps_weaken; [|apply keeps_emit].
    intros e He. unfold resume_effect. by rewrite He. }
  assert (Hinvoke : forall f,
    keeps I (fun e => resume_effect env e = true) (invoke env f)).
  { intros f. eapply keeps_weaken; [|apply keeps_invoke].
    intros e He. unfold resume_effect. by rewrite He. }
  apply keeps_try_catch; [|repeat keeps_step; by rewrite ?orb_true_r].
  apply keeps_bind; [destruct settlement; repeat keeps_step|].
  intros newWindow.
  apply keeps_bind;
    [apply keeps_perform; unfold resume_effect; simpl; by rewrite ?orb_true_r|].
  intros _. apply keeps_bind; [apply keeps_read|]. intros o.
  apply keeps_bind.
  { repeat keeps_step.
    unfold copyDocumentStylesToWindow_calls. apply Forall_forall.
    intros e He. apply list_elem_of_In, in_map_iff in He as (el & <- & _).
    done. }
  intros _. apply keeps_write_write_bind; [by apply Hopened|].
  repeat keeps_step; try done; try apply Hemit; try apply Hinvoke.
Qed.

Lemma keeps_open fuel settlement :
  (forall w c, I c -> I (with_isOpen true (with_pipWindow (Some w) c))) ->
  keeps I (fun e => resume_effect env e = true) (open fuel env settlement).
Proof.
  intros Hopened. unfold open. apply keeps_bind.
  - eapply keeps_weaken; [|apply keeps_open_begin].
    intros e He. unfold resume_effect, emit_effect. by rewrite He.
  - intros [result|]; [apply keeps_ret | by apply keeps_open_resume].
Qed.
End keeps_methods.

Lemma keeps_preserves {A} I phi (m : Exec A) : keeps I phi m -> preserves I m.
Proof. intros Hm c r c' t HI Hrun. by destruct (Hm _ _ _ _ HI Hrun). Qed.

Section keeps_system.
Context (env : Env) (I : Controller -> Prop).
Hypothesis I_on : forall type listener,
  keeps I (fun e => action_effect env e = true) (on type listener).
Hypothesis I_off : forall type listener,
  keeps I (fun e => action_effect env e = true) (off type listener).
Hypothesis I_options : forall o c, I c -> I (with_options o c).
Hypothesis I_disposed : forall c, I c -> I (disposed c).
Hypothesis I_closed :
  forall c, I c -> I (with_pipWindow None (with_isOpen false c)).
Hypothesis I_opened :
  forall w c, I c -> I (with_isOpen true (with_pipWindow (Some w) c)).

Lemma run_preserves {A} (m : Exec A) p c s' :
  preserves I m -> I c -> run m p c = Some s' -> I (controller s').
Proof.
  intros Hm HI. unfold run.
  destruct (m c) as [[[r c'] t]|] eqn:Hrun; [|done].
  intros [= <-]. simpl. eapply Hm; eauto.
Qed.

Lemma deliver_preserves fuel ev s s' :
  I (controller s) -> deliver fuel env ev s = Some s' -> I (controller s').
Proof.
  intros HI. destruct ev as [a|settlement|w|w]; simpl.
  - apply run_preserves; [|done].
    eapply keeps_preserves, keeps_run_action; eauto.
  - destruct (in_flight (platform s)); [by intros [= <-]|].
    apply run_preserves; [|done].
    eapply keeps_preserves, keeps_open_resume; eauto.
  - case_decide; [|by intros [= <-]].
    apply run_preserves; [|done].
    eapply keeps_preserves, keeps_handlePageHide; eauto.
  - destruct (enter_listener (platform s)); [|by intros [= <-]].
    apply run_preserves; [|done].
    eapply keeps_preserves, keeps_handleEnter; eauto.
Qed.

Lemma reachable_invariant s :
  (forall options, I (fst (constructor env options))) ->
  reachable env s -> I (controller s).
Proof.
  intros Hinit. induction 1 as [options|s fuel ev s' _ IH Hstep].
  - apply Hinit.
  - eapply deliver_preserves; eauto.
Qed.
End keeps_system.

Lemma reachable_deliver_all fuel env evs s s' :
  reachable env s -> deliver_all fuel env evs s = Some s' -> reachable env s'.
Proof.
  revert s. induction evs as [|ev evs IH]; intros s Hs; simpl.
  - by intros [= <-].
  - destruct (deliver fuel env ev s) as [s1|] eqn:Hstep; [|done].
    apply IH. by eapply reachable_step.
Qed.

(** ** The invariant of the data model *)

Section window_iff_open_rules.
Context (env : Env).

Let phi := fun e => action_effect env e = true.

Lemma window_iff_open_on type listener :
  keeps window_iff_open phi (on type listener).
Proof. by apply keeps_on_frame. Qed.

Lemma window_iff_open_off type listener :
  keeps window_iff_open phi (off type listener).
Proof. by apply keeps_off_frame. Qed.

Lemma window_iff_open_options o c :
  window_iff_open c -> window_iff_open (with_options o c).
Proof. done. Qed.

Lemma window_iff_open_closed c :
  window_iff_open (with_pipWindow None (with_isOpen false c)).
Proof.
  unfold window_iff_open. simpl. split; [by intros [? ?] | done].
Qed.

Lemma window_iff_open_disposed c : window_iff_open (disposed c).
Proof.
  unfold window_iff_open. simpl. split; [by intros [? ?] | done].
Qed.

Lemma window_iff_open_opened w c :
  window_iff_open (with_isOpen true (with_pipWindow (Some w) c)).
Proof. unfold window_iff_open. simpl. by split. Qed.

Lemma window_iff_open_constructor options :
  window_iff_open (fst (constructor env options)).
Proof.
  unfold window_iff_open. simpl. split; [by intros [? ?] | done].
Qed.
End window_iff_open_rules.

Create HintDb pip.

#[local] Hint Resolve window_iff_open_on window_iff_open_off
  window_iff_open_options window_iff_open_closed window_iff_open_disposed
  window_iff_open_opened window_iff_open_constructor : pip.

(** C3. In every reachable state the controller holds a window exactly
    when [isOpen] is true, and each operation (open, close, the pagehide
    handler, the enter handler, dispose, updateOptions, resize, resizeBy,
    focusOpener, on, off) takes a state with this property to a state
    with this property. *)
Theorem pipWindow_iff_isOpen (env : Env) :
  (forall s, reachable env s -> window_iff_open (controller s)) /\
  (forall fuel settlement,
     preserves window_iff_open (open fuel env settlement)) /\
  preserves window_iff_open close /\
  (forall fuel, preserves window_iff_open (_handlePageHide fuel env)) /\
  (forall fuel w, preserves window_iff_open (_handleEnter fuel env w)) /\
  preserves window_iff_open (dispose env) /\
  (forall options, preserves window_iff_open (updateOptions options)) /\
  (forall width height, preserves window_iff_open (resize width height)) /\
  (forall deltaWidth deltaHeight,
     preserves window_iff_open (resizeBy deltaWidth deltaHeight)) /\
  preserves window_iff_open (focusOpener env) /\
  (forall type listener, preserves window_iff_open (on type listener)) /\
  (forall type listener, preserves window_iff_open (off type listener)).
Proof.
  assert (Haction : forall a, preserves window_iff_open (run_action env a)).
  { intros a. eapply keeps_preserves, keeps_run_action; eauto with pip. }
  repeat apply conj.
  - intros s. apply reachable_invariant; eauto with pip.
  - intros fuel settlement.
    eapply keeps_preserves, keeps_open; eauto with pip.
  - apply (Haction call_close).
  - intros fuel.
    eapply keeps_preserves, keeps_handlePageHide; eauto with pip.
  - intros fuel w.
    eapply keeps_preserves, keeps_handleEnter; eauto with pip.
  - apply (Haction call_dispose).
  - intros options. apply (Haction (call_updateOptions options)).
  - intros width height. apply (Haction (call_resize width height)).
  - intros dw dh. apply (Haction (call_resizeBy dw dh)).
  - apply (Haction call_focusOpener).
  - intros type listener. apply (Haction (call_on type listener)).
  - intros type listener. apply (Haction (call_off type listener)).
Qed.

(** The invariant on a window opened by [open()] and then closed by the
    platform. *)
Lemma pipWindow_iff_isOpen_witness :
  exists s,
    deliver_all 0 browser
      [user_calls call_open; request_settles (resolved 7); pagehide_fires 7]
      (boot browser no_options) = Some s /\
    window_iff_open (controller s).
Proof.
  eexists. split; [reflexivity|].
  apply (proj1 (pipWindow_iff_isOpen browser)).
  apply (reachable_deliver_all 0 browser
           [user_calls call_open; request_settles (resolved 7);
            pagehide_fires 7] (boot browser no_options));
    [apply reachable_boot | reflexivity].
Defined.

(** ** A rejected request *)

Lemma open_resume_rejected fuel env c :
  open_resume fuel env rejected c = Some (Normal None, c, [console_error]).
Proof. reflexivity. Qed.

(** C4. When the request issued by [open()] is rejected, [open()]
    resolves to an absent result, nothing is thrown, and the controller
    is the one it was: [pipWindow] is still null and [isOpen], which
    the invariant makes false before the call, is still false.  The
    calls made are the request and the diagnostic. *)
Theorem open_rejected_is_atomic (fuel : nat) (env : Env) (c : Controller)
  (t : list Effect) :
  open_begin env c = Some (Normal awaiting, c, t) ->
  open fuel env rejected c = Some (Normal None, c, t ++ [console_error]) /\
  t = [request_of c] /\
  _pipWindow c = None /\
  (window_iff_open c -> _isOpen c = false).
Proof.
  intros Hbegin. unfold open.
  rewrite (bind_Normal _ _ _ _ _ _ Hbegin), open_resume_rejected.
  split; [done|].
  rewrite open_begin_eq in Hbegin.
  destruct (capability_present env); [|done].
  destruct (_pipWindow c) eqn:Hw; [done|].
  injection Hbegin as <-. repeat split.
  intros Hinv. destruct (_isOpen c) eqn:Ho; [|done].
  destruct (proj2 Hinv Ho) as [w' Hw']. congruence.
Qed.

Lemma open_rejected_is_atomic_witness :
  open 0 browser rejected fresh =
    Some (Normal None, fresh, [request_of fresh] ++ [console_error]) /\
  [request_of fresh] = [request_of fresh] /\
  _pipWindow fresh = None /\
  (window_iff_open fresh -> _isOpen fresh = false).
Proof.
  apply (open_rejected_is_atomic 0 browser fresh [request_of fresh]).
  reflexivity.
Defined.

(** ** After [dispose] *)

(** C1, as stated, fails: the controller keeps no record of having been
    disposed.  In a browser with the capability, [open()] after
    [dispose()] issues a request and, once it is resolved, holds the new
    window with [isOpen] true; [focusOpener()] still asks the platform
    for the focus. *)
Lemma open_after_dispose_reopens :
  dispose browser fresh =
    Some (Normal tt, disposed fresh, [removeEventListener_enter]) /\
  open 0 browser (resolved 7) (disposed fresh) =
    Some (Normal (Some 7),
          with_isOpen true (with_pipWindow (Some 7) (disposed fresh)),
          [request_of (disposed fresh); addEventListener_pagehide_once 7]) /\
  focusOpener browser (disposed fresh) =
    Some (Normal tt, disposed fresh, [window_focus]) /\
  ~ (exists c', open 0 browser (resolved 7) (disposed fresh) =
                  Some (Normal None, c', []) /\
                _isOpen c' = _isOpen (disposed fresh)).
Proof.
  repeat apply conj; try reflexivity.
  intros (c' & Hopen & _). vm_compute in Hopen. discriminate.
Qed.

(** C1, amended.  In the state [dispose()] leaves, [close()],
    [resize()] and [resizeBy()] complete normally, change nothing and
    call nothing; [focusOpener()] completes normally and changes
    nothing, and calls [window.focus()] exactly when there is a
    [window]; [open()] returns an absent result at once, with no call
    and no change, where the capability is missing, and where it is
    present it issues a window request. *)
Theorem after_dispose (env : Env) (c : Controller) :
  (exists t, dispose env c = Some (Normal tt, disposed c, t)) /\
  close (disposed c) = Some (Normal tt, disposed c, []) /\
  (forall width height,
     resize width height (disposed c) = Some (Normal tt, disposed c, [])) /\
  (forall deltaWidth deltaHeight,
     resizeBy deltaWidth deltaHeight (disposed c) =
       Some (Normal tt, disposed c, [])) /\
  focusOpener env (disposed c) =
    Some (Normal tt, disposed c,
          if window env is Some _ then [window_focus] else []) /\
  (forall fuel settlement,
     if capability_present env then
       open_begin env (disposed c) =
         Some (Normal awaiting, disposed c, [request_of (disposed c)])
     else
       open fuel env settlement (disposed c) =
         Some (Normal None, disposed c, [])).
Proof.
  repeat apply conj.
  - rewrite dispose_eq. eauto.
  - by rewrite close_eq.
  - intros. by rewrite resize_eq.
  - intros. by rewrite resizeBy_eq.
  - by rewrite focusOpener_eq.
  - intros fuel settlement.
    destruct (capability_present env) eqn:Hcap.
    + by rewrite open_begin_eq, Hcap.
    + unfold open.
      assert (Hbegin : open_begin env (disposed c) =
                Some (Normal (returned None), disposed c, [])).
      { by rewrite open_begin_eq, Hcap. }
      by rewrite (bind_Normal _ _ _ _ _ _ Hbegin).
Qed.

(** C6, as stated, fails: where the capability is present the second
    [dispose()] calls [removeEventListener('enter', ...)] on the
    platform again. *)
Lemma second_dispose_calls_platform :
  dispose browser (disposed fresh) =
    Some (Normal tt, disposed fresh, [removeEventListener_enter]) /\
  ~ (exists c', dispose browser (disposed fresh) = Some (Normal tt, c', [])).
Proof.
  split; [reflexivity|].
  intros (c' & Hdispose). vm_compute in Hdispose. discriminate.
Qed.

(** C6, amended.  [dispose()] always completes and leaves [pipWindow]
    null, [isOpen] false and the listener registry empty; a second
    [dispose()] leaves exactly that state, closes no window and removes
    no [pagehide] handler, and its only call is
    [removeEventListener('enter', ...)] again, made exactly when the
    capability is present. *)
Theorem dispose_twice (env : Env) (c : Controller) :
  (exists t, dispose env c = Some (Normal tt, disposed c, t)) /\
  _pipWindow (disposed c) = None /\
  _isOpen (disposed c) = false /\
  _listeners (disposed c) = ∅ /\
  dispose env (disposed c) =
    Some (Normal tt, disposed c,
          if capability_present env then [removeEventListener_enter] else []).
Proof.
  repeat apply conj; try done.
  - rewrite dispose_eq. eauto.
  - by rewrite dispose_eq.
Qed.

(** ** Without the capability nothing ever opens *)

Section without_capability.
Context (env : Env).
Hypothesis missing : capability_present env = false.

Let no_window := fun c : Controller => _pipWindow c = None.

Lemma absorb_action_effect p e :
  action_effect env e = true -> untouched p -> untouched (absorb p e).
Proof using missing.
  intros He (Henter & Hpagehide & Hflight).
  destruct e; simpl in *; try done; try congruence.
  repeat split; try done. simpl. rewrite Hpagehide.
  apply subseteq_empty_difference_L, empty_subseteq.
Qed.

Lemma absorb_all_action_effect t p :
  Forall (fun e => action_effect env e = true) t ->
  untouched p -> untouched (absorb_all p t).
Proof using missing.
  revert p. induction t as [|e t IH]; intros p Ht Hp; simpl; [done|].
  inversion Ht; subst. apply IH; [done|]. by apply absorb_action_effect.
Qed.

Lemma reachable_without_capability s :
  reachable env s ->
  _pipWindow (controller s) = None /\ untouched (platform s).
Proof using missing.
  induction 1 as [options|s fuel ev s' _ [IHc IHp] Hstep].
  - unfold boot, constructor. fold (capability_present env).
    rewrite missing. simpl. repeat split.
  - destruct IHp as (Henter & Hpagehide & Hflight).
    destruct ev as [a|settlement|w|w]; simpl in Hstep.
    + unfold run in Hstep.
      destruct (run_action env a (controller s)) as [[[r c'] t]|] eqn:Hrun;
        [|done].
      injection Hstep as <-. simpl.
      assert (Hkeeps : keeps no_window
                (fun e => action_effect env e = true) (run_action env a)).
      { apply keeps_run_action; try done.
        - intros. by apply keeps_on_frame.
        - intros. by apply keeps_off_frame. }
      destruct (Hkeeps _ _ _ _ IHc Hrun) as [Hc' Ht].
      split; [done|]. by apply absorb_all_action_effect.
    + rewrite Hflight in Hstep. by injection Hstep as <-.
    + rewrite decide_False in Hstep by (rewrite Hpagehide; set_solver).
      by injection Hstep as <-.
    + rewrite Henter in Hstep. by injection Hstep as <-.
Qed.
End without_capability.

Lemma open_when_open_eq fuel env settlement c w :
  capability_present env = true -> _pipWindow c = Some w ->
  open fuel env settlement c = Some (Normal (Some w), c, []).
Proof.
  intros Hcap Hw. unfold open.
  assert (Hbegin : open_begin env c = Some (Normal (returned (Some w)), c, [])).
  { by rewrite open_begin_eq, Hcap, Hw. }
  by rewrite (bind_Normal _ _ _ _ _ _ Hbegin).
Qed.

(** C7. On a controller that holds a window, [open()] returns that
    same window, whatever the platform would have answered; it makes no
    call at all (no request, no style copy, no [onOpen]) and leaves the
    controller as it was. *)
Theorem open_when_open (fuel : nat) (env : Env) (settlement : Settlement)
  (s : System) (w : Window) :
  reachable env s ->
  _pipWindow (controller s) = Some w ->
  open fuel env settlement (controller s) =
    Some (Normal (Some w), controller s, []).
Proof.
  intros Hreach Hw.
  apply open_when_open_eq; [|done].
  destruct (capability_present env) eqn:Hcap; [done|].
  destruct (reachable_without_capability env Hcap s Hreach) as [Hnone _].
  congruence.
Qed.

Lemma open_when_open_witness :
  exists s,
    deliver_all 0 browser
      [user_calls call_open; request_settles (resolved 7)]
      (boot browser no_options) = Some s /\
    _pipWindow (controller s) = Some 7 /\
    open 0 browser (resolved 8) (controller s) =
      Some (Normal (Some 7), controller s, []).
Proof.
  eexists. split; [reflexivity|]. split; [reflexivity|].
  apply (open_when_open 0 browser (resolved 8)).
  - apply (reachable_deliver_all 0 browser
             [user_calls call_open; request_settles (resolved 7)]
             (boot browser no_options));
      [apply reachable_boot | reflexivity].
  - reflexivity.
Defined.

(** ** Running a method step by step *)

Lemma ret_bind {A B} (a : A) (k : A -> Exec B) c : bind (ret a) k c = k a c.
Proof. unfold bind, ret. by destruct (k a c) as [[[r c2] t2]|]. Qed.

Lemma read_bind {A B} (field : Controller -> A) (k : A -> Exec B) c :
  bind (read field) k c = k (field c) c.
Proof. unfold bind, read. by destruct (k (field c) c) as [[[r c2] t2]|]. Qed.

Lemma with_options_same c : with_options (_options c) c = c.
Proof. by destruct c. Qed.

Lemma emit_loop_unfold fuel env type st r index c :
  emit_loop fuel env type st r index c =
    match heap c !! r with
    | None => Some (Normal tt, c, [])
    | Some entries =>
        match entries !! index with
        | None => Some (Normal tt, c, [])
        | Some entry =>
            match fuel with
            | 0 => None
            | S fuel' =>
                bind (match entry with
                      | Some listener =>
                          bind (perform (call_listener listener type st))
                               (fun _ => invoke env listener)
                      | None => ret tt
                      end)
                     (fun _ => emit_loop fuel' env type st r (S index)) c
            end
        end
    end.
Proof.
  destruct fuel; simpl; rewrite read_bind;
    destruct (heap c !! r) as [entries|]; try done;
    by destruct (entries !! index).
Qed.

Lemma emit_unfold fuel env type c :
  _emit fuel env type c =
    match _listeners c !! type with
    | Some r => emit_loop fuel env type (state env c) r 0 c
    | None => Some (Normal tt, c, [])
    end.
Proof.
  unfold _emit. rewrite read_bind.
  destruct (_listeners c !! type); [|done]. by rewrite read_bind.
Qed.

(** ** Sets *)

Lemma set_values_app s1 s2 :
  set_values (s1 ++ s2) = set_values s1 ++ set_values s2.
Proof. apply omap_app. Qed.

Lemma elem_of_set_values f s : f ∈ set_values s <-> Some f ∈ s.
Proof.
  unfold set_values. rewrite list_elem_of_omap. split.
  - by intros ([g|] & Hin & [= ->]).
  - intros Hin. by exists (Some f).
Qed.

Lemma set_add_values s f :
  set_values (set_add s f) =
    if set_has s f then set_values s else set_values s ++ [f].
Proof.
  unfold set_add. destruct (set_has s f); [done|]. by rewrite set_values_app.
Qed.

Lemma set_add_NoDup s f :
  NoDup (set_values s) -> NoDup (set_values (set_add s f)).
Proof.
  intros Hs. rewrite set_add_values. unfold set_has. case_bool_decide; [done|].
  apply NoDup_app. split; [done|]. split; [|apply NoDup_singleton].
  intros g Hg ->%list_elem_of_singleton. by apply elem_of_set_values in Hg.
Qed.

Lemma set_delete_length s f : length (set_delete s f) = length s.
Proof.
  induction s as [|e s IH]; simpl; [done|]. case_decide; simpl; by rewrite ?IH.
Qed.

Lemma set_delete_lookup_ne s f j :
  s !! j <> Some (Some f) -> set_delete s f !! j = s !! j.
Proof.
  revert j. induction s as [|e s IH]; intros j Hj; simpl; [done|].
  case_decide as He.
  - destruct j; [|done]. simpl in Hj. congruence.
  - destruct j; [done|]. simpl. by apply IH.
Qed.

Lemma set_delete_values_subseteq s f g :
  g ∈ set_values (set_delete s f) -> g ∈ set_values s.
Proof.
  induction s as [|e s IH]; simpl; [done|]. case_decide as He.
  - subst e. simpl. unfold set_values. simpl.
    intros Hg. by apply list_elem_of_further.
  - destruct e as [h|]; unfold set_values in *; simpl; [|done].
    intros [->|Hg]%elem_of_cons; apply elem_of_cons;
      [by left | right; by apply IH].
Qed.

Lemma set_delete_NoDup s f :
  NoDup (set_values s) -> NoDup (set_values (set_delete s f)).
Proof.
  induction s as [|e s IH]; simpl; [done|]. case_decide as He.
  - subst e. unfold set_values. simpl. by intros ?%NoDup_cons_1_2.
  - destruct e as [h|]; unfold set_values in *; simpl; [|done].
    intros [Hh Hs]%NoDup_cons. apply NoDup_cons. split; [|by apply IH].
    intros Hin. by apply Hh, (set_delete_values_subseteq s f).
Qed.

Lemma set_values_lookup_inj s i j f :
  NoDup (set_values s) ->
  s !! i = Some (Some f) -> s !! j = Some (Some f) -> i = j.
Proof.
  revert i j. induction s as [|e s IH]; intros i j Hs Hi Hj; [done|].
  assert (Htail : NoDup (set_values s)).
  { destruct e; unfold set_values in *; simpl in Hs; [|done].
    by apply NoDup_cons in Hs as [_ ?]. }
  assert (Hhead : e = Some f -> forall k, s !! k = Some (Some f) -> False).
  { intros -> k Hk. unfold set_values in Hs. simpl in Hs.
    apply NoDup_cons in Hs as [Hnotin _]. apply Hnotin.
    apply elem_of_set_values, list_elem_of_lookup. eauto. }
  destruct i as [|i], j as [|j]; simpl in *; try done.
  - exfalso. injection Hi as ->. by eapply Hhead.
  - exfalso. injection Hj as ->. by eapply Hhead.
  - f_equal. by apply IH.
Qed.

(** ** [on] and [off], case by case *)

Lemma on_cases type listener c :
  exists c',
    on type listener c = Some (Normal tt, c', []) /\
    _options c' = _options c /\
    _pipWindow c' = _pipWindow c /\
    _isOpen c' = _isOpen c /\
    ((exists r s, _listeners c !! type = Some r /\ heap c !! r = Some s /\
                  _listeners c' = _listeners c /\
                  heap c' = <[r := set_add s listener]> (heap c)) \/
     (exists r, _listeners c !! type = Some r /\ heap c !! r = None /\
                c' = c) \/
     (_listeners c !! type = None /\
      _listeners c' = <[type := length (heap c)]> (_listeners c) /\
      heap c' = heap c ++ [[Some listener]])).
Proof.
  unfold on. rewrite read_bind.
  destruct (_listeners c !! type) as [r|] eqn:Hm.
  - cbv beta iota.
    rewrite ret_bind, (read_bind _listeners), Hm. cbv beta iota.
    rewrite (read_bind heap).
    destruct (heap c !! r) as [s|] eqn:Hs.
    + eexists. split; [reflexivity|]. repeat split. left. by exists r, s.
    + eexists. split; [reflexivity|]. repeat split. right. left. by exists r.
  - cbv beta iota.
    rewrite (bind_Normal _ _ _ tt
               (with_listeners (<[type := length (heap c)]> (_listeners c))
                  (with_heap (heap c ++ [[]]) c)) []) by reflexivity.
    rewrite (read_bind _listeners). simpl.
    rewrite lookup_insert_eq, (read_bind heap). simpl.
    rewrite lookup_app_r by done. rewrite Nat.sub_diag. simpl.
    eexists. split; [reflexivity|]. repeat split. right. right.
    repeat split. simpl.
    rewrite insert_app_r_alt by done. by rewrite Nat.sub_diag.
Qed.

Lemma off_cases type listener c :
  exists c',
    off type listener c = Some (Normal tt, c', []) /\
    _options c' = _options c /\
    _pipWindow c' = _pipWindow c /\
    _isOpen c' = _isOpen c /\
    _listeners c' = _listeners c /\
    ((exists r s, heap c !! r = Some s /\
                  heap c' = <[r := set_delete s listener]> (heap c)) \/
     c' = c).
Proof.
  unfold off. rewrite read_bind.
  destruct (_listeners c !! type) as [r|] eqn:Hm.
  - rewrite read_bind. destruct (heap c !! r) as [s|] eqn:Hs.
    + eexists. split; [reflexivity|]. repeat split. left. by exists r, s.
    + eexists. split; [reflexivity|]. repeat split. by right.
  - eexists. split; [reflexivity|]. repeat split. by right.
Qed.

(** ** Callbacks that leave the registry alone *)

Lemma listener_calls_app t1 t2 :
  listener_calls (t1 ++ t2) = listener_calls t1 ++ listener_calls t2.
Proof. apply List.filter_app. Qed.

Lemma action_effect_no_listener_call env t :
  Forall (fun e => action_effect env e = true) t -> listener_calls t = [].
Proof.
  induction 1 as [|e t He _ IH]; [done|].
  simpl. by destruct e.
Qed.

Lemma run_actions_trace env body c r c' t :
  run_actions env body c = Some (r, c', t) ->
  Forall (fun e => action_effect env e = true) t.
Proof.
  intros Hrun.
  assert (Hkeeps : keeps (fun _ => True)
            (fun e => action_effect env e = true) (run_actions env body)).
  { apply keeps_run_actions; try done.
    - intros. by apply keeps_on_frame.
    - intros. by apply keeps_off_frame. }
  by destruct (Hkeeps _ _ _ _ I Hrun).
Qed.

Lemma run_action_quiet env a c :
  quiet a = true ->
  exists o t, run_action env a c = Some (Normal tt, with_options o c, t).
Proof.
  destruct a; simpl; try done; intros _.
  - exists (_options c). rewrite with_options_same.
    pose proof (open_begin_eq env c) as Hbegin.
    destruct (capability_present env), (_pipWindow c);
      rewrite (bind_Normal _ _ _ _ _ _ Hbegin); eauto.
  - exists (_options c). rewrite with_options_same, close_eq. eauto.
  - exists (_options c). rewrite with_options_same, resize_eq. eauto.
  - exists (_options c). rewrite with_options_same, resizeBy_eq. eauto.
  - exists (_options c). rewrite with_options_same, focusOpener_eq. eauto.
  - exists (_options c). rewrite with_options_same, copyStylesToWindow_eq.
    eauto.
  - rewrite updateOptions_eq. eauto.
Qed.

Lemma run_actions_quiet env body c :
  forallb quiet body = true ->
  exists o t,
    run_actions env body c = Some (Normal tt, with_options o c, t) /\
    listener_calls t = [].
Proof.
  intros Hq.
  assert (Hrun : exists o t,
            run_actions env body c = Some (Normal tt, with_options o c, t)).
  { revert c. induction body as [|a body IH]; intros c; simpl.
    - exists (_options c), []. by rewrite with_options_same.
    - simpl in Hq. apply andb_true_iff in Hq as [Ha Hbody].
      destruct (run_action_quiet env a c Ha) as (o1 & t1 & H1).
      destruct (IH Hbody (with_options o1 c)) as (o2 & t2 & H2).
      rewrite (bind_Normal _ _ _ _ _ _ H1), H2. by exists o2, (t1 ++ t2). }
  destruct Hrun as (o & t & Hrun). exists o, t. split; [done|].
  eapply action_effect_no_listener_call, run_actions_trace, Hrun.
Qed.

Lemma emit_loop_quiet fuel env type st r index c (entries : SetData) :
  heap c !! r = Some entries ->
  (forall f, Some f ∈ entries -> forallb quiet (code env f) = true) ->
  length entries <= index + fuel ->
  exists o t,
    emit_loop fuel env type st r index c =
      Some (Normal tt, with_options o c, t) /\
    listener_calls t =
      map (fun f => call_listener f type st) (set_values (drop index entries)).
Proof.
  intros Hheap Hquiet. revert index c Hheap.
  induction fuel as [|fuel IH]; intros index c Hheap Hlen;
    rewrite emit_loop_unfold, Hheap;
    destruct (entries !! index) as [entry|] eqn:Hentry.
  - apply lookup_lt_Some in Hentry. lia.
  - exists (_options c), []. rewrite with_options_same. split; [done|].
    apply lookup_ge_None in Hentry. by rewrite drop_ge.
  - rewrite (drop_S _ _ _ Hentry).
    destruct entry as [f|].
    + assert (Hf : forallb quiet (code env f) = true).
      { apply Hquiet, list_elem_of_lookup. eauto. }
      destruct (run_actions_quiet env (code env f) c Hf) as (o1 & t1 & H1 & Hc1).
      assert (Hcall : bind (perform (call_listener f type st))
                           (fun _ => invoke env f) c =
                Some (Normal tt, with_options o1 c,
                      [call_listener f type st] ++ t1)).
      { unfold bind, perform, invoke. by rewrite H1. }
      destruct (IH (S index) (with_options o1 c)) as (o2 & t2 & H2 & Hc2);
        [done | lia |].
      rewrite (bind_Normal _ _ _ _ _ _ Hcall), H2.
      exists o2, (([call_listener f type st] ++ t1) ++ t2). split; [done|].
      rewrite !listener_calls_app, Hc1, Hc2. done.
    + destruct (IH (S index) c) as (o2 & t2 & H2 & Hc2); [done | lia |].
      rewrite ret_bind, H2. by exists o2, t2.
  - exists (_options c), []. rewrite with_options_same. split; [done|].
    apply lookup_ge_None in Hentry. by rewrite drop_ge.
Qed.

Lemma length_le_registry_size c r (s : SetData) :
  heap c !! r = Some s -> length s <= registry_size c.
Proof.
  intros Hs. unfold registry_size. apply max_list_elem_of_le.
  apply list_elem_of_fmap. exists s. split; [done|].
  apply list_elem_of_lookup. eauto.
Qed.

Lemma emit_quiet fuel env type c :
  listeners_quiet env c ->
  registry_size c <= fuel ->
  exists o t,
    _emit fuel env type c = Some (Normal tt, with_options o c, t) /\
    listener_calls t = one_call_each c type (state env c).
Proof.
  intros Hquiet Hfuel. rewrite emit_unfold. unfold one_call_each, listeners_of.
  destruct (_listeners c !! type) as [r|].
  - destruct (heap c !! r) as [s|] eqn:Hs.
    + destruct (emit_loop_quiet fuel env type (state env c) r 0 c s)
        as (o & t & Hrun & Hcalls); [done | intros f Hf; by eapply Hquiet | |].
      { apply length_le_registry_size in Hs. lia. }
      exists o, t. by rewrite drop_0 in Hcalls.
    + rewrite emit_loop_unfold, Hs. exists (_options c), [].
      by rewrite with_options_same.
  - exists (_options c), []. by rewrite with_options_same.
Qed.

(** Two passes in a row, as in the three transitions. *)
Lemma emit_emit_quiet fuel env type1 type2 c :
  listeners_quiet env c ->
  registry_size c <= fuel ->
  exists o t,
    bind (_emit fuel env type1) (fun _ => _emit fuel env type2) c =
      Some (Normal tt, with_options o c, t) /\
    listener_calls t =
      one_call_each c type1 (state env c) ++
      one_call_each c type2 (state env c).
Proof.
  intros Hquiet Hfuel.
  destruct (emit_quiet fuel env type1 c) as (o1 & t1 & H1 & Hc1); [done..|].
  destruct (emit_quiet fuel env type2 (with_options o1 c))
    as (o2 & t2 & H2 & Hc2); [done..|].
  rewrite (bind_Normal _ _ _ _ _ _ H1), H2.
  exists o2, (t1 ++ t2). split; [done|].
  by rewrite listener_calls_app, Hc1, Hc2.
Qed.

Lemma handleEnter_quiet fuel env w c :
  listeners_quiet env c ->
  registry_size c <= fuel ->
  exists o t,
    _handleEnter fuel env w c =
      Some (Normal tt,
            with_options o (with_isOpen true (with_pipWindow (Some w) c)), t) /\
    listener_calls t =
      one_call_each c ev_open (opened_state env w) ++
      one_call_each c ev_statechange (opened_state env w).
Proof.
  intros Hquiet Hfuel. unfold _handleEnter. rewrite write_write_bind.
  by apply (emit_emit_quiet fuel env ev_open ev_statechange
              (with_isOpen true (with_pipWindow (Some w) c))).
Qed.

Lemma handlePageHide_quiet fuel env c :
  callbacks_quiet env c ->
  registry_size c <= fuel ->
  exists o t,
    _handlePageHide fuel env c =
      Some (Normal tt,
            with_options o (with_pipWindow None (with_isOpen false c)), t) /\
    listener_calls t =
      one_call_each c ev_close (closed_state env) ++
      one_call_each c ev_statechange (closed_state env).
Proof.
  intros (Hquiet & _ & HonClose) Hfuel. unfold _handlePageHide.
  rewrite write_write_bind.
  set (c1 := with_pipWindow None (with_isOpen false c)).
  rewrite (read_bind _options).
  assert (Hcb : exists o1 t1,
    (match opt_onClose (_options c1) with
     | Some f => bind (perform (call_onClose f)) (fun _ => invoke env f)
     | None => ret tt
     end) c1 = Some (Normal tt, with_options o1 c1, t1) /\
    listener_calls t1 = []).
  { destruct (opt_onClose (_options c1)) as [f|] eqn:Hf.
    - destruct (run_actions_quiet env (code env f) c1) as (o1 & t1 & H1 & Hc1);
        [by apply HonClose|].
      exists o1, ([call_onClose f] ++ t1). split; [|done].
      unfold bind, perform, invoke. by rewrite H1.
    - exists (_options c1), []. by rewrite with_options_same. }
  destruct Hcb as (o1 & t1 & H1 & Hc1).
  destruct (emit_emit_quiet fuel env ev_close ev_statechange
              (with_options o1 c1)) as (o2 & t2 & H2 & Hc2); [done..|].
  rewrite (bind_Normal _ _ _ _ _ _ H1), H2.
  exists o2, (t1 ++ t2). split; [done|].
  by rewrite listener_calls_app, Hc1, Hc2.
Qed.

Lemma bind_assoc {A B C} (m : Exec A) (k1 : A -> Exec B) (k2 : B -> Exec C) c :
  bind (bind m k1) k2 c = bind m (fun a => bind (k1 a) k2) c.
Proof.
  unfold bind. destruct (m c) as [[[[a|] c1] t1]|]; [|done..].
  destruct (k1 a c1) as [[[[b|] c2] t2]|]; [|done..].
  destruct (k2 b c2) as [[[r c3] t3]|]; [|done].
  by rewrite app_assoc.
Qed.

Lemma perform_bind {B} (e : Effect) (k : unit -> Exec B) c :
  bind (perform e) k c =
    match k tt c with
    | Some (r, c2, t2) => Some (r, c2, e :: t2)
    | None => None
    end.
Proof. reflexivity. Qed.

Lemma try_catch_Normal {A} (m handler : Exec A) c a c1 t :
  m c = Some (Normal a, c1, t) ->
  try_catch m handler c = Some (Normal a, c1, t).
Proof. unfold try_catch. by intros ->. Qed.

Lemma open_resume_quiet fuel env w c :
  callbacks_quiet env c ->
  registry_size c <= fuel ->
  exists o t,
    open_resume fuel env (resolved w) c =
      Some (Normal (Some w),
            with_options o (with_isOpen true (with_pipWindow (Some w) c)),
            addEventListener_pagehide_once w :: t) /\
    listener_calls t =
      one_call_each c ev_open (opened_state env w) ++
      one_call_each c ev_statechange (opened_state env w).
Proof.
  intros (Hquiet & HonOpen & _) Hfuel. unfold open_resume.
  set (c1 := with_isOpen true (with_pipWindow (Some w) c)).
  assert (Hstyles : exists t0,
    (match opt_copyStyles (_options c) with
     | Some true => perform_all (copyDocumentStylesToWindow_calls env w)
     | _ => ret tt
     end) c = Some (Normal tt, c, t0) /\ listener_calls t0 = []).
  { assert (Hcopy : listener_calls (copyDocumentStylesToWindow_calls env w) = []).
    { unfold copyDocumentStylesToWindow_calls.
      induction (copyDocumentStylesToWindow (document env) []); simpl; done. }
    destruct (opt_copyStyles (_options c)) as [[|]|]; eauto. }
  destruct Hstyles as (t0 & H0 & Hc0).
  assert (Hcb : exists o1 t1,
    (match opt_onOpen (_options c1) with
     | Some f => bind (perform (call_onOpen f w)) (fun _ => invoke env f)
     | None => ret tt
     end) c1 = Some (Normal tt, with_options o1 c1, t1) /\
    listener_calls t1 = []).
  { destruct (opt_onOpen (_options c1)) as [f|] eqn:Hf.
    - destruct (run_actions_quiet env (code env f) c1) as (o1 & t1 & H1 & Hc1);
        [by apply HonOpen|].
      exists o1, ([call_onOpen f w] ++ t1). split; [|done].
      unfold bind, perform, invoke. by rewrite H1.
    - exists (_options c1), []. by rewrite with_options_same. }
  destruct Hcb as (o1 & t1 & H1 & Hc1).
  destruct (emit_emit_quiet fuel env ev_open ev_statechange
              (with_options o1 c1)) as (o2 & t2 & H2 & Hc2); [done..|].
  exists o2, (t0 ++ t1 ++ t2 ++ []). split.
  - apply try_catch_Normal.
    rewrite ret_bind, perform_bind, (read_bind _options).
    rewrite (bind_Normal _ _ _ _ _ _ H0), write_write_bind.
    fold c1. rewrite (read_bind _options).
    rewrite (bind_Normal _ _ _ _ _ _ H1).
    rewrite <- bind_assoc, (bind_Normal _ _ _ _ _ _ H2). done.
  - rewrite !listener_calls_app, Hc0, Hc1, Hc2. simpl. by rewrite app_nil_r.
Qed.

Lemma open_quiet fuel env w c :
  capability_present env = true ->
  _pipWindow c = None ->
  callbacks_quiet env c ->
  registry_size c <= fuel ->
  exists o t,
    open fuel env (resolved w) c =
      Some (Normal (Some w),
            with_options o (with_isOpen true (with_pipWindow (Some w) c)),
            request_of c :: addEventListener_pagehide_once w :: t) /\
    listener_calls t =
      one_call_each c ev_open (opened_state env w) ++
      one_call_each c ev_statechange (opened_state env w).
Proof.
  intros Hcap Hnone Hquiet Hfuel.
  destruct (open_resume_quiet fuel env w c) as (o & t & Hresume & Hcalls);
    [done..|].
  exists o, t. split; [|done]. unfold open.
  assert (Hbegin : open_begin env c =
            Some (Normal awaiting, c, [request_of c])).
  { by rewrite open_begin_eq, Hcap, Hnone. }
  by rewrite (bind_Normal _ _ _ _ _ _ Hbegin), Hresume.
Qed.

(** ** No value is twice in a set *)

Lemma sets_wf_on phi type listener : keeps sets_wf phi (on type listener).
Proof.
  intros c r c' t Hwf Hrun.
  destruct (on_cases type listener c) as (c1 & Heq & _ & _ & _ & Hcases).
  rewrite Heq in Hrun. injection Hrun as _ <- <-. split; [|done].
  unfold sets_wf in *.
  destruct Hcases as [(r0 & s & _ & Hs & _ & ->)|[(r0 & _ & _ & ->)|(_ & _ & ->)]].
  - apply Forall_insert; [done|]. apply set_add_NoDup.
    by apply (Forall_lookup_1 _ _ _ _ Hwf Hs).
  - done.
  - apply Forall_app. split; [done|].
    apply Forall_singleton. unfold set_values. simpl. apply NoDup_singleton.
Qed.

Lemma sets_wf_off phi type listener : keeps sets_wf phi (off type listener).
Proof.
  intros c r c' t Hwf Hrun.
  destruct (off_cases type listener c) as (c1 & Heq & _ & _ & _ & _ & Hcases).
  rewrite Heq in Hrun. injection Hrun as _ <- <-. split; [|done].
  unfold sets_wf in *.
  destruct Hcases as [(r0 & s & Hs & ->)| ->]; [|done].
  apply Forall_insert; [done|]. apply set_delete_NoDup.
  by apply (Forall_lookup_1 _ _ _ _ Hwf Hs).
Qed.

Lemma reachable_sets_wf env s : reachable env s -> sets_wf (controller s).
Proof.
  apply reachable_invariant; try done.
  - intros. apply sets_wf_on.
  - intros. apply sets_wf_off.
  - intros options. unfold sets_wf. simpl. constructor.
Qed.

Lemma sets_wf_listeners_of c type : sets_wf c -> NoDup (listeners_of c type).
Proof.
  intros Hwf. unfold listeners_of.
  destruct (_listeners c !! type) as [r|]; [|apply NoDup_nil_2].
  destruct (heap c !! r) as [s|] eqn:Hs; [|apply NoDup_nil_2].
  by apply (Forall_lookup_1 _ _ _ _ Hwf Hs).
Qed.

(** C2, as stated, fails, in two ways.  The controller emits once per
    run of a handler, not once per window: when the platform announces
    through 'enter' the window that [open()] requested and then resolves
    the request, the enter handler and [open()] both emit, and the
    listener of 'open' and that of 'statechange' are each called twice
    for one [open()].  And [_emit] does not catch what a listener throws:
    when the first listener of 'open' throws, [open()] resolves to an
    absent result with the window held and [isOpen] true, and neither
    the second listener of 'open' nor the listener of 'statechange' is
    called. *)
Lemma listeners_called_twice_or_never :
  _handleEnter 1 browser 7 (controller listening_requested) =
    Some (Normal tt, controller listening_announced,
          [call_listener 1 ev_open (opened_state browser 7);
           call_listener 2 ev_statechange (opened_state browser 7)]) /\
  open_resume 1 browser (resolved 7) (controller listening_announced) =
    Some (Normal (Some 7), controller listening_announced,
          [addEventListener_pagehide_once 7;
           call_listener 1 ev_open (opened_state browser 7);
           call_listener 2 ev_statechange (opened_state browser 7)]) /\
  observe (deliver_all 1 browser
             [enter_fires 7; request_settles (resolved 7)]
             listening_requested) = Some (true, Some 7) /\
  listeners_of (controller listening_thrower) ev_open = [1; 2] /\
  listeners_of (controller listening_thrower) ev_statechange = [3] /\
  open_resume 2 throwing (resolved 7) (controller listening_thrower) =
    Some (Normal None,
          with_isOpen true
            (with_pipWindow (Some 7) (controller listening_thrower)),
          [addEventListener_pagehide_once 7;
           call_listener 1 ev_open (opened_state throwing 7);
           console_error]) /\
  ~ (exists c' t,
       open_resume 2 throwing (resolved 7) (controller listening_thrower) =
         Some (Normal (Some 7), c', t) /\
       listener_calls t =
         one_call_each (controller listening_thrower) ev_open
                       (opened_state throwing 7) ++
         one_call_each (controller listening_thrower) ev_statechange
                       (opened_state throwing 7)).
Proof.
  repeat apply conj; try reflexivity.
  intros (c' & t & Hopen & _). vm_compute in Hopen. discriminate.
Qed.

(** C2, amended.  On a reachable controller whose callbacks neither
    touch the listener registry nor throw, each run of a handler
    completes and calls every listener exactly once per event, in this
    order: a successful [open()], and likewise the enter handler, calls
    the listeners of 'open', then those of 'statechange'; the pagehide
    handler calls the listeners of 'close', then those of
    'statechange'.  No listener is twice in a list, so none is called
    twice for one event of one run.  [resize], [resizeBy] and
    [focusOpener] call no listener. *)
Theorem one_emission_per_transition (fuel : nat) (env : Env) (s : System) :
  reachable env s ->
  callbacks_quiet env (controller s) ->
  registry_size (controller s) <= fuel ->
  let c := controller s in
  (forall type, NoDup (listeners_of c type)) /\
  (forall w,
     capability_present env = true -> _pipWindow c = None ->
     exists c' t,
       open fuel env (resolved w) c = Some (Normal (Some w), c', t) /\
       listener_calls t =
         one_call_each c ev_open (opened_state env w) ++
         one_call_each c ev_statechange (opened_state env w)) /\
  (forall w,
     exists c' t,
       open_resume fuel env (resolved w) c = Some (Normal (Some w), c', t) /\
       listener_calls t =
         one_call_each c ev_open (opened_state env w) ++
         one_call_each c ev_statechange (opened_state env w)) /\
  (forall w,
     exists c' t,
       _handleEnter fuel env w c = Some (Normal tt, c', t) /\
       listener_calls t =
         one_call_each c ev_open (opened_state env w) ++
         one_call_each c ev_statechange (opened_state env w)) /\
  (exists c' t,
     _handlePageHide fuel env c = Some (Normal tt, c', t) /\
     listener_calls t =
       one_call_each c ev_close (closed_state env) ++
       one_call_each c ev_statechange (closed_state env)) /\
  (forall width height,
     exists t, resize width height c = Some (Normal tt, c, t) /\
               listener_calls t = []) /\
  (forall deltaWidth deltaHeight,
     exists t, resizeBy deltaWidth deltaHeight c = Some (Normal tt, c, t) /\
               listener_calls t = []) /\
  (exists t, focusOpener env c = Some (Normal tt, c, t) /\
             listener_calls t = []).
Proof.
  intros Hreach Hquiet Hfuel c. repeat apply conj.
  - intros type. by apply sets_wf_listeners_of, (reachable_sets_wf env).
  - intros w Hcap Hnone.
    destruct (open_quiet fuel env w c) as (o & t & Hrun & Hcalls); [done..|].
    eexists _, _. split; [exact Hrun|]. done.
  - intros w.
    destruct (open_resume_quiet fuel env w c) as (o & t & Hrun & Hcalls);
      [done..|].
    eexists _, _. split; [exact Hrun|]. done.
  - intros w. destruct Hquiet as (Hquiet & _).
    destruct (handleEnter_quiet fuel env w c) as (o & t & Hrun & Hcalls);
      [done..|].
    eauto.
  - destruct (handlePageHide_quiet fuel env c) as (o & t & Hrun & Hcalls);
      [done..|].
    eauto.
  - intros width height. rewrite resize_eq. eexists. split; [done|].
    by destruct (_pipWindow c).
  - intros dw dh. rewrite resizeBy_eq. eexists. split; [done|].
    by destruct (_pipWindow c).
  - rewrite focusOpener_eq. eexists. split; [done|].
    by destruct (window env).
Qed.

Lemma one_emission_per_transition_witness :
  exists s,
    deliver_all 0 browser
      [user_calls (call_on ev_open 1); user_calls (call_on ev_statechange 1);
       user_calls (call_on ev_open 2)]
      (boot browser no_options) = Some s /\
    exists c' t,
      open 2 browser (resolved 7) (controller s) =
        Some (Normal (Some 7), c', t) /\
      listener_calls t =
        [call_listener 1 ev_open (opened_state browser 7);
         call_listener 2 ev_open (opened_state browser 7);
         call_listener 1 ev_statechange (opened_state browser 7)].
Proof.
  eexists. split; [reflexivity|].
  lazymatch goal with
  | |- context [open _ _ _ (controller ?s)] =>
      destruct (one_emission_per_transition 2 browser s) as (_ & Hopen & _);
        [| | | exact (Hopen 7 eq_refl eq_refl)]
  end.
  - apply (reachable_deliver_all 0 browser
             [user_calls (call_on ev_open 1);
              user_calls (call_on ev_statechange 1);
              user_calls (call_on ev_open 2)]
             (boot browser no_options));
      [apply reachable_boot | reflexivity].
  - repeat split; intros; reflexivity.
  - vm_compute. lia.
Defined.

(** ** Listeners that unsubscribe themselves *)

Lemma only_unsubscribed_refl f c : only_unsubscribed f c c.
Proof. repeat split. intros r s Hs. by exists s. Qed.

Lemma only_unsubscribed_trans f c1 c2 c3 :
  only_unsubscribed f c1 c2 -> only_unsubscribed f c2 c3 ->
  only_unsubscribed f c1 c3.
Proof.
  intros (Hw12 & Ho12 & Hh12) (Hw23 & Ho23 & Hh23).
  repeat split; [congruence..|].
  intros r s Hs.
  destruct (Hh12 r s Hs) as (s2 & Hs2 & Hlen2 & Hsame2).
  destruct (Hh23 r s2 Hs2) as (s3 & Hs3 & Hlen3 & Hsame3).
  exists s3. repeat split; [done | congruence |].
  intros j Hj. rewrite Hsame3, Hsame2; [done..|]. by rewrite Hsame2.
Qed.

Lemma only_unsubscribed_options f o c : only_unsubscribed f c (with_options o c).
Proof. repeat split. intros r s Hs. by exists s. Qed.

Lemma run_action_unsubscribes env f a c :
  quiet_or_unsubscribes f a = true ->
  exists c' t,
    run_action env a c = Some (Normal tt, c', t) /\ only_unsubscribed f c c'.
Proof.
  intros Ha.
  assert (Hquiet : quiet a = true ->
    exists c' t,
      run_action env a c = Some (Normal tt, c', t) /\ only_unsubscribed f c c').
  { intros Hq. destruct (run_action_quiet env a c Hq) as (o & t & Hrun).
    exists (with_options o c), t. split; [done|].
    apply only_unsubscribed_options. }
  destruct a; simpl in Ha; try done; try by apply Hquiet.
  apply bool_decide_eq_true in Ha as ->. simpl.
  destruct (off_cases type f c) as (c' & Hrun & _ & Hw & Ho & _ & Hcases).
  exists c', []. split; [done|]. repeat split; [done..|].
  intros r s Hs.
  destruct Hcases as [(r0 & s0 & Hs0 & ->)| ->]; [|by exists s].
  destruct (decide (r = r0)) as [->|Hne].
  - assert (s0 = s) as -> by congruence.
    exists (set_delete s f). split.
    + apply list_lookup_insert_eq. by eapply lookup_lt_Some.
    + split; [apply set_delete_length|]. apply set_delete_lookup_ne.
  - exists s. by rewrite list_lookup_insert_ne.
Qed.

Lemma run_actions_unsubscribes env f body c :
  forallb (quiet_or_unsubscribes f) body = true ->
  exists c' t,
    run_actions env body c = Some (Normal tt, c', t) /\
    only_unsubscribed f c c' /\
    listener_calls t = [].
Proof.
  intros Hbody.
  assert (Hrun : exists c' t,
            run_actions env body c = Some (Normal tt, c', t) /\
            only_unsubscribed f c c').
  { revert c. induction body as [|a body IH]; intros c; simpl.
    - exists c, []. split; [done | apply only_unsubscribed_refl].
    - simpl in Hbody. apply andb_true_iff in Hbody as [Ha Hbody].
      destruct (run_action_unsubscribes env f a c Ha) as (c1 & t1 & H1 & R1).
      destruct (IH Hbody c1) as (c2 & t2 & H2 & R2).
      rewrite (bind_Normal _ _ _ _ _ _ H1), H2. exists c2, (t1 ++ t2).
      split; [done | by eapply only_unsubscribed_trans]. }
  destruct Hrun as (c' & t & Hrun & R). exists c', t. repeat split; try done;
    try apply R.
  eapply action_effect_no_listener_call, run_actions_trace, Hrun.
Qed.

Lemma emit_loop_unsubscribes fuel env type st r index c (entries : SetData) :
  heap c !! r = Some entries ->
  (forall j f, index <= j -> entries !! j = Some (Some f) ->
               forallb (quiet_or_unsubscribes f) (code env f) = true) ->
  (forall i j f, index <= i -> index <= j ->
                 entries !! i = Some (Some f) ->
                 entries !! j = Some (Some f) -> i = j) ->
  length entries <= index + fuel ->
  exists c' t,
    emit_loop fuel env type st r index c = Some (Normal tt, c', t) /\
    listener_calls t =
      map (fun f => call_listener f type st) (set_values (drop index entries)).
Proof.
  revert index c entries.
  induction fuel as [|fuel IH]; intros index c entries Hheap Hbody Huniq Hlen;
    rewrite emit_loop_unfold, Hheap;
    destruct (entries !! index) as [entry|] eqn:Hentry.
  - apply lookup_lt_Some in Hentry. lia.
  - exists c, []. split; [done|].
    apply lookup_ge_None in Hentry. by rewrite drop_ge.
  - rewrite (drop_S _ _ _ Hentry).
    destruct entry as [f|].
    + destruct (run_actions_unsubscribes env f (code env f) c)
        as (c1 & t1 & H1 & (_ & _ & Hh1) & Hc1); [by eapply Hbody|].
      destruct (Hh1 r entries Hheap) as (entries1 & Hheap1 & Hlen1 & Hsame1).
      assert (Hlater : forall j, index < j -> entries1 !! j = entries !! j).
      { intros j Hj. apply Hsame1. intros Hjf.
        assert (index = j) by (eapply Huniq; eauto; lia). lia. }
      assert (Hcall : bind (perform (call_listener f type st))
                           (fun _ => invoke env f) c =
                Some (Normal tt, c1, [call_listener f type st] ++ t1)).
      { unfold bind, perform, invoke. by rewrite H1. }
      destruct (IH (S index) c1 entries1) as (c2 & t2 & H2 & Hc2);
        [done | | | lia |].
      { intros j g Hj Hg. rewrite Hlater in Hg by lia.
        apply (Hbody j); [lia | done]. }
      { intros i j g Hi Hj Hgi Hgj. rewrite Hlater in Hgi, Hgj by lia.
        apply (Huniq i j g); [lia | lia | done | done]. }
      rewrite (bind_Normal _ _ _ _ _ _ Hcall), H2.
      exists c2, (([call_listener f type st] ++ t1) ++ t2). split; [done|].
      rewrite !listener_calls_app, Hc1, Hc2. simpl. do 3 f_equal.
      apply list_eq. intros i. rewrite !lookup_drop. apply Hlater. lia.
    + destruct (IH (S index) c entries) as (c2 & t2 & H2 & Hc2);
        [done | | | lia |].
      { intros j g Hj Hg. apply (Hbody j); [lia | done]. }
      { intros i j g Hi Hj Hgi Hgj.
        apply (Huniq i j g); [lia | lia | done | done]. }
      rewrite ret_bind, H2. by exists c2, t2.
  - exists c, []. split; [done|].
    apply lookup_ge_None in Hentry. by rewrite drop_ge.
Qed.

(** C5. In a pass of [_emit] over listeners that do nothing to the
    registry but unsubscribe themselves (through [off] or through the
    function [on] returned), nothing is thrown, the pass ends, and every
    listener that was registered for the event when the pass began is
    called, once and in the order of registration. *)
Theorem unsubscribing_in_callback_is_safe (fuel : nat) (env : Env)
  (type : PictureInPictureWindowEventType) (c : Controller) :
  NoDup (listeners_of c type) ->
  (forall f, f ∈ listeners_of c type ->
             forallb (quiet_or_unsubscribes f) (code env f) = true) ->
  registry_size c <= fuel ->
  exists c' t,
    _emit fuel env type c = Some (Normal tt, c', t) /\
    listener_calls t = one_call_each c type (state env c).
Proof.
  unfold one_call_each, listeners_of. intros Hnodup Hbody Hfuel.
  rewrite emit_unfold.
  destruct (_listeners c !! type) as [r|]; [|by exists c, []].
  destruct (heap c !! r) as [s|] eqn:Hs.
  - destruct (emit_loop_unsubscribes fuel env type (state env c) r 0 c s)
      as (c' & t & Hrun & Hcalls); try done.
    + intros j f _ Hf. apply Hbody, elem_of_set_values, list_elem_of_lookup.
      eauto.
    + intros i j f _ _. by apply set_values_lookup_inj.
    + apply length_le_registry_size in Hs. lia.
    + exists c', t. by rewrite drop_0 in Hcalls.
  - rewrite emit_loop_unfold, Hs. by exists c, [].
Qed.

Lemma unsubscribing_in_callback_is_safe_witness :
  exists c' t,
    _emit 3 unsubscribing ev_open three_listeners = Some (Normal tt, c', t) /\
    listener_calls t =
      [call_listener 1 ev_open (closed_state unsubscribing);
       call_listener 2 ev_open (closed_state unsubscribing);
       call_listener 3 ev_open (closed_state unsubscribing)].
Proof.
  apply (unsubscribing_in_callback_is_safe 3 unsubscribing ev_open
           three_listeners).
  - apply (bool_decide_unpack _). reflexivity.
  - intros f _. simpl. by rewrite bool_decide_true.
  - vm_compute. lia.
Defined.

(** What the pass of the witness leaves: the three entries are deleted. *)
Example unsubscribing_pass :
  _emit 3 unsubscribing ev_open three_listeners =
    Some (Normal tt,
          with_heap [[None; None; None]] three_listeners,
          [call_listener 1 ev_open (closed_state unsubscribing);
           call_listener 2 ev_open (closed_state unsubscribing);
           call_listener 3 ev_open (closed_state unsubscribing)]).
Proof. reflexivity. Qed.

(** ** [close] and the pagehide handler *)

Lemma handlePageHide_closed fuel env c r c' t :
  _handlePageHide fuel env c = Some (r, c', t) -> closed c'.
Proof.
  intros Hrun.
  assert (Hsame : _handlePageHide fuel env c =
            _handlePageHide fuel env
              (with_pipWindow None (with_isOpen false c))).
  { unfold _handlePageHide. by rewrite !write_write_bind. }
  rewrite Hsame in Hrun.
  assert (Hkeeps : keeps closed (fun e => pagehide_effect env e = true)
                         (_handlePageHide fuel env)).
  { apply keeps_handlePageHide; try done.
    - intros. by apply keeps_on_frame.
    - intros. by apply keeps_off_frame. }
  eapply Hkeeps; [|exact Hrun]. by split.
Qed.

(** C9. [close()] completes normally and returns the controller as it
    was, so [isOpen] and [pipWindow] are not changed by it; its only
    call is [close()] on the window held, and with no window held it
    makes no call; what the platform remembers of the controller is
    not changed either.  The two fields change in the pagehide handler:
    whenever that handler is over, [isOpen] is false and [pipWindow] is
    null, and with quiet callbacks and fuel for the sets it is over. *)
Theorem close_leaves_fields_to_pagehide (c : Controller) :
  close c =
    Some (Normal tt, c,
          if _pipWindow c is Some w then [window_close w] else []) /\
  (forall fuel env r c' t,
     _handlePageHide fuel env c = Some (r, c', t) ->
     _isOpen c' = false /\ _pipWindow c' = None) /\
  (forall fuel env,
     callbacks_quiet env c -> registry_size c <= fuel ->
     exists c' t,
       _handlePageHide fuel env c = Some (Normal tt, c', t) /\
       _isOpen c' = false /\ _pipWindow c' = None) /\
  (forall fuel env p,
     exists s',
       deliver fuel env (user_calls call_close)
               {| controller := c; platform := p |} = Some s' /\
       controller s' = c /\ platform s' = p).
Proof.
  repeat apply conj; cycle 3.
  - intros fuel env p. simpl. unfold run. rewrite close_eq.
    eexists. split; [reflexivity|]. split; [done|].
    simpl. by destruct (_pipWindow c).
  - apply close_eq.
  - intros fuel env r c' t Hrun. by apply (handlePageHide_closed fuel env c r c' t).
  - intros fuel env Hquiet Hfuel.
    destruct (handlePageHide_quiet fuel env c) as (o & t & Hrun & _); [done..|].
    eauto.
Qed.

Lemma close_leaves_fields_to_pagehide_witness :
  close holding_7 = Some (Normal tt, holding_7, [window_close 7]) /\
  exists c' t,
    _handlePageHide 0 browser holding_7 = Some (Normal tt, c', t) /\
    _isOpen c' = false /\ _pipWindow c' = None.
Proof.
  destruct (close_leaves_fields_to_pagehide holding_7)
    as (Hclose & _ & Hhide & _).
  split; [exact Hclose|].
  apply Hhide.
  - repeat split; intros; reflexivity.
  - vm_compute. lia.
Defined.

(** ** Windows adopted through the enter handler *)

Lemma absorb_emit_effect env p e :
  emit_effect env e = true ->
  pagehide_listeners (absorb p e) ⊆ pagehide_listeners p.
Proof.
  destruct e; simpl; try done. intros _. apply subseteq_difference_l. done.
Qed.

Lemma absorb_all_emit_effect env t p :
  Forall (fun e => emit_effect env e = true) t ->
  pagehide_listeners (absorb_all p t) ⊆ pagehide_listeners p.
Proof.
  revert p. induction t as [|e t IH]; intros p Ht; simpl; [done|].
  inversion Ht; subst.
  etrans; [by apply IH | by eapply absorb_emit_effect].
Qed.

Lemma handleEnter_trace fuel env w c r c' t :
  _handleEnter fuel env w c = Some (r, c', t) ->
  Forall (fun e => emit_effect env e = true) t.
Proof.
  intros Hrun.
  assert (Hkeeps : keeps (fun _ => True) (fun e => emit_effect env e = true)
                         (_handleEnter fuel env w)).
  { apply keeps_handleEnter; try done.
    - intros. by apply keeps_on_frame.
    - intros. by apply keeps_off_frame. }
  by destruct (Hkeeps _ _ _ _ I Hrun).
Qed.

Lemma perform_bind_prefix {B} (e : Effect) (k : unit -> Exec B) c r c' t :
  bind (perform e) k c = Some (r, c', t) -> exists t', t = e :: t'.
Proof.
  rewrite perform_bind. destruct (k tt c) as [[[r2 c2] t2]|]; [|done].
  intros [= <- <- <-]. eauto.
Qed.

Lemma try_catch_prefix {A} (m handler : Exec A) (e : Effect) c r c' t :
  (forall r1 c1 t1, m c = Some (r1, c1, t1) -> exists t', t1 = e :: t') ->
  try_catch m handler c = Some (r, c', t) -> exists t', t = e :: t'.
Proof.
  intros Hm. unfold try_catch.
  destruct (m c) as [[[[a|] c1] t1]|] eqn:Hrun; [| |done].
  - intros [= <- <- <-]. eauto.
  - destruct (Hm _ _ _ eq_refl) as [t' ->].
    destruct (handler c1) as [[[r2 c2] t2]|]; [|done].
    intros [= <- <- <-]. simpl. eauto.
Qed.

Lemma open_resume_registers fuel env w c r c' t :
  open_resume fuel env (resolved w) c = Some (r, c', t) ->
  exists t', t = addEventListener_pagehide_once w :: t'.
Proof.
  unfold open_resume. apply try_catch_prefix.
  intros r1 c1 t1. rewrite ret_bind. apply perform_bind_prefix.
Qed.

(** C10. The enter handler never registers a pagehide observer and
    never calls [onOpen]: all it calls are listeners, and what they
    cause.  With quiet listeners it sets [pipWindow] and [isOpen] and
    calls the listeners of 'open', then those of 'statechange'.  So a
    window that had no pagehide observer before it was adopted has none
    after, and when the platform closes it no code of the controller
    runs: the state stays as it is.  [open()], for its part, registers
    the observer on the window it obtains before anything else. *)
Theorem adopted_window_is_not_observed (fuel : nat) (env : Env) (w : Window) :
  (forall c r c' t,
     _handleEnter fuel env w c = Some (r, c', t) ->
     Forall (fun e => emit_effect env e = true) t /\
     (forall w', addEventListener_pagehide_once w' ∉ t) /\
     (forall f w', call_onOpen f w' ∉ t)) /\
  (forall c,
     listeners_quiet env c -> registry_size c <= fuel ->
     exists o t,
       _handleEnter fuel env w c =
         Some (Normal tt,
               with_options o (with_isOpen true (with_pipWindow (Some w) c)),
               t) /\
       listener_calls t =
         one_call_each c ev_open (opened_state env w) ++
         one_call_each c ev_statechange (opened_state env w)) /\
  (forall s s',
     w ∉ pagehide_listeners (platform s) ->
     deliver fuel env (enter_fires w) s = Some s' ->
     (w ∉ pagehide_listeners (platform s')) /\
     (forall fuel', deliver fuel' env (pagehide_fires w) s' = Some s')) /\
  (forall c r c' t,
     open_resume fuel env (resolved w) c = Some (r, c', t) ->
     exists t', t = addEventListener_pagehide_once w :: t').
Proof.
  repeat apply conj.
  - intros c r c' t Hrun.
    pose proof (handleEnter_trace _ _ _ _ _ _ _ Hrun) as Ht.
    split; [done|]. rewrite Forall_forall in Ht.
    split; intros; intros Hin; by apply Ht in Hin.
  - intros c. apply handleEnter_quiet.
  - intros s s' Hnot Hstep.
    assert (Hnot' : w ∉ pagehide_listeners (platform s')).
    { simpl in Hstep. destruct (enter_listener (platform s));
        [|by injection Hstep as <-].
      unfold run in Hstep.
      destruct (_handleEnter fuel env w (controller s))
        as [[[r c'] t]|] eqn:Hrun; [|done].
      injection Hstep as <-. simpl.
      intros Hin. apply Hnot.
      eapply absorb_all_emit_effect; [|exact Hin].
      by eapply handleEnter_trace. }
    split; [done|]. intros fuel'. simpl. by rewrite decide_False.
  - intros c r c' t. apply open_resume_registers.
Qed.

Lemma adopted_window_is_not_observed_witness :
  exists s',
    deliver 0 browser (enter_fires 7) (boot browser no_options) = Some s' /\
    _isOpen (controller s') = true /\
    (7 ∉ pagehide_listeners (platform s')) /\
    (forall fuel', deliver fuel' browser (pagehide_fires 7) s' = Some s').
Proof.
  eexists. split; [reflexivity|]. split; [reflexivity|].
  refine (proj1 (proj2 (proj2 (adopted_window_is_not_observed 0 browser 7)))
            (boot browser no_options) _ _ eq_refl).
  apply (bool_decide_unpack _). reflexivity.
Defined.

(** An adopted window closed by the platform leaves the controller
    open; a window obtained by [open()] does not. *)
Example adopted_then_closed :
  observe (deliver_all 0 browser [enter_fires 7; pagehide_fires 7]
             (boot browser no_options)) = Some (true, Some 7).
Proof. reflexivity. Qed.

Example opened_then_closed :
  observe (deliver_all 0 browser
             [user_calls call_open; request_settles (resolved 7);
              pagehide_fires 7]
             (boot browser no_options)) = Some (false, None).
Proof. reflexivity. Qed.

(* ===================================================================== *)
(** * Further properties                                                  *)
(* ===================================================================== *)

(** ** The style replicator is not idempotent *)

Lemma copyDocumentStylesToWindow_from_empty document head :
  copyDocumentStylesToWindow document head =
    head ++ copyDocumentStylesToWindow document [].
Proof.
  unfold copyDocumentStylesToWindow. revert head.
  induction (styleSheets document) as [|s sheets IH]; intros head; simpl.
  - by rewrite app_nil_r.
  - destruct (copy_sheet_replicated s) as (els & _ & Hcopy).
    rewrite (IH (copy_sheet head s)), (IH (copy_sheet [] s)), !Hcopy.
    by rewrite app_assoc.
Qed.

(** X1. The replicator does not look at what the target head already
    holds: the elements it appends are the same for every head, and a
    second call on the same window appends all of them a second time,
    after the first copies. *)
Theorem replicating_twice_duplicates (document : Document)
  (head : list Element) :
  copyDocumentStylesToWindow document head =
    head ++ copyDocumentStylesToWindow document [] /\
  copyDocumentStylesToWindow document
    (copyDocumentStylesToWindow document head) =
    head ++ copyDocumentStylesToWindow document []
         ++ copyDocumentStylesToWindow document [].
Proof.
  split; [apply copyDocumentStylesToWindow_from_empty|].
  rewrite (copyDocumentStylesToWindow_from_empty document
             (copyDocumentStylesToWindow document head)).
  rewrite (copyDocumentStylesToWindow_from_empty document head).
  by rewrite app_assoc.
Qed.

(** ** Options *)

Lemma spread_spread o first second :
  spread (spread o first) second = spread o (literal_over first second).
Proof.
  destruct first, second. unfold spread, literal_over. simpl.
  f_equal;
    match goal with
    | |- context [spread_key _ ?l] => by destruct l
    end.
Qed.

Lemma spread_no_options o : spread o no_options = o.
Proof. by destruct o. Qed.

(** X2. [updateOptions] touches nothing but the options and calls
    nothing; two updates in a row are one update with the keys of both,
    the later value winning; an update with no key changes nothing. *)
Theorem updateOptions_composes (first second : OptionsLiteral)
  (c : Controller) :
  (exists o, updateOptions first c = Some (Normal tt, with_options o c, [])) /\
  bind (updateOptions first) (fun _ => updateOptions second) c =
    updateOptions (literal_over first second) c /\
  updateOptions no_options c = Some (Normal tt, c, []).
Proof.
  repeat apply conj.
  - rewrite updateOptions_eq. eauto.
  - rewrite (bind_Normal _ _ _ _ _ _ (updateOptions_eq first c)).
    rewrite !updateOptions_eq. simpl. by rewrite spread_spread.
  - rewrite updateOptions_eq, spread_no_options. by rewrite with_options_same.
Qed.

(** X3. The request of [open()] is built from the options as they are
    when it is called: after [updateOptions(p)] on a controller that
    holds no window, [open()] issues one request in which each of
    width, height and disallowReturnToOpener is the value of [p] where
    [p] has the key, even if that value is [undefined], and the earlier
    value where it has not; width and height are left out of the request
    exactly when they are [undefined]. *)
Theorem open_requests_latest_options (env : Env) (p : OptionsLiteral)
  (c : Controller) :
  capability_present env = true ->
  _pipWindow c = None ->
  bind (updateOptions p) (fun _ => open_begin env) c =
    Some (Normal awaiting, with_options (spread (_options c) p) c,
          [requestWindow
             {| req_disallowReturnToOpener :=
                  spread_key (opt_disallowReturnToOpener (_options c))
                             (lit_disallowReturnToOpener p);
                req_width := spread_key (opt_width (_options c)) (lit_width p);
                req_height :=
                  spread_key (opt_height (_options c)) (lit_height p) |}]).
Proof.
  intros Hcap Hnone.
  rewrite (bind_Normal _ _ _ _ _ _ (updateOptions_eq p c)).
  rewrite open_begin_eq, Hcap. simpl. by rewrite Hnone.
Qed.

Lemma open_requests_latest_options_witness :
  bind (updateOptions
          {| lit_width := Some (Some 500%Z); lit_height := None;
             lit_disallowReturnToOpener := Some None; lit_copyStyles := None;
             lit_onOpen := None; lit_onClose := None |})
       (fun _ => open_begin browser) fresh =
    Some (Normal awaiting,
          with_options
            (spread (_options fresh)
               {| lit_width := Some (Some 500%Z); lit_height := None;
                  lit_disallowReturnToOpener := Some None;
                  lit_copyStyles := None;
                  lit_onOpen := None; lit_onClose := None |}) fresh,
          [requestWindow
             {| req_disallowReturnToOpener := None;
                req_width := Some 500%Z;
                req_height := None |}]).
Proof.
  apply (open_requests_latest_options browser
           {| lit_width := Some (Some 500%Z); lit_height := None;
              lit_disallowReturnToOpener := Some None; lit_copyStyles := None;
              lit_onOpen := None; lit_onClose := None |} fresh);
    reflexivity.
Defined.

(** ** The listener registry *)

Lemma set_delete_absent (s : SetData) f : Some f ∉ s -> set_delete s f = s.
Proof.
  induction s as [|e s IH]; simpl; [done|]. intros Hnot.
  apply not_elem_of_cons in Hnot as [Hne Hnot].
  rewrite decide_False by congruence. by rewrite IH.
Qed.

Lemma with_heap_same c : with_heap (heap c) c = c.
Proof. by destruct c. Qed.

(** X4. [off] for a listener that is not registered for the type, be
    it that nothing was ever registered for the type or that the set
    does not hold the listener, completes normally and leaves the
    controller exactly as it was. *)
Theorem off_unregistered_is_noop
  (type : PictureInPictureWindowEventType) (listener : Callback)
  (c : Controller) :
  listener ∉ listeners_of c type ->
  off type listener c = Some (Normal tt, c, []).
Proof.
  unfold listeners_of, off. intros Hnot. rewrite (read_bind _listeners).
  destruct (_listeners c !! type) as [r|]; [|done].
  rewrite (read_bind heap).
  destruct (heap c !! r) as [s|] eqn:Hs; [|done].
  rewrite set_delete_absent by (by rewrite <- elem_of_set_values).
  unfold write. by rewrite list_insert_id, with_heap_same.
Qed.

Lemma off_unregistered_is_noop_witness :
  off ev_close 2 three_listeners = Some (Normal tt, three_listeners, []) /\
  off ev_open 4 three_listeners = Some (Normal tt, three_listeners, []).
Proof.
  split.
  - apply (off_unregistered_is_noop ev_close 2 three_listeners).
    apply not_elem_of_nil.
  - apply (off_unregistered_is_noop ev_open 4 three_listeners).
    apply (bool_decide_unpack _). reflexivity.
Defined.

Lemma registry_ok_on phi type listener :
  keeps registry_ok phi (on type listener).
Proof.
  intros c r c' t [Hlt Hinj] Hrun.
  destruct (on_cases type listener c) as (c1 & Heq & _ & _ & _ & Hcases).
  rewrite Heq in Hrun. injection Hrun as _ <- <-. split; [|done].
  destruct Hcases
    as [(r0 & s & _ & _ & Hm & Hh)|[(r0 & _ & _ & ->)|(Hnone & Hm & Hh)]];
    [|done|].
  - split.
    + intros type1 r1. rewrite Hm, Hh, length_insert. apply Hlt.
    + intros type1 type2 r1. rewrite Hm. apply Hinj.
  - split.
    + intros type1 r1. rewrite Hm, Hh, length_app. simpl.
      destruct (decide (type = type1)) as [<-|Hne].
      * rewrite lookup_insert_eq. intros [= <-]. lia.
      * rewrite lookup_insert_ne by done. intros H1%Hlt. lia.
    + intros type1 type2 r1. rewrite Hm.
      destruct (decide (type = type1)) as [<-|Hne1],
               (decide (type = type2)) as [<-|Hne2]; try done.
      * rewrite lookup_insert_eq, lookup_insert_ne by done.
        intros [= <-] H2%Hlt. lia.
      * rewrite lookup_insert_eq, lookup_insert_ne by done.
        intros H1%Hlt [= <-]. lia.
      * rewrite !lookup_insert_ne by done. apply Hinj.
Qed.

Lemma registry_ok_off phi type listener :
  keeps registry_ok phi (off type listener).
Proof.
  intros c r c' t [Hlt Hinj] Hrun.
  destruct (off_cases type listener c) as (c1 & Heq & _ & _ & _ & Hm & Hcases).
  rewrite Heq in Hrun. injection Hrun as _ <- <-. split; [|done].
  destruct Hcases as [(r0 & s & _ & Hh)| ->]; [|done].
  split.
  - intros type1 r1. rewrite Hm, Hh, length_insert. apply Hlt.
  - intros type1 type2 r1. rewrite Hm. apply Hinj.
Qed.

Lemma reachable_registry_ok env s :
  reachable env s -> registry_ok (controller s).
Proof.
  apply reachable_invariant; try done;
    try (intros; apply registry_ok_on); try (intros; apply registry_ok_off);
    intros; split; intros ? *; simpl; by rewrite lookup_empty.
Qed.

Lemma set_has_values (s : SetData) f :
  set_has s f = bool_decide (f ∈ set_values s).
Proof.
  unfold set_has. apply bool_decide_ext. symmetry. apply elem_of_set_values.
Qed.

Lemma filter_others (l : list Callback) f :
  f ∉ l -> filter (fun g => g <> f) l = l.
Proof.
  induction l as [|g l IH]; [done|].
  intros [Hne Hnot]%not_elem_of_cons.
  rewrite filter_cons_True by congruence. by rewrite IH.
Qed.

Lemma set_delete_values (s : SetData) f :
  NoDup (set_values s) ->
  set_values (set_delete s f) = filter (fun g => g <> f) (set_values s).
Proof.
  induction s as [|e s IH]; simpl; [done|]. case_decide as He.
  - subst e. change (set_values (Some f :: s)) with (f :: set_values s).
    change (set_values (None :: s)) with (set_values s).
    intros [Hnot _]%NoDup_cons.
    rewrite filter_cons_False by (intros Hne; by apply Hne).
    by rewrite filter_others.
  - destruct e as [g|].
    + change (set_values (Some g :: s)) with (g :: set_values s).
      change (set_values (Some g :: set_delete s f))
        with (g :: set_values (set_delete s f)).
      intros [_ Hs]%NoDup_cons.
      rewrite filter_cons_True by congruence. by rewrite IH.
    + change (set_values (None :: s)) with (set_values s).
      change (set_values (None :: set_delete s f))
        with (set_values (set_delete s f)).
      apply IH.
Qed.

Lemma listeners_of_other_type c c' type type' r (s s' : SetData) :
  registry_ok c ->
  _listeners c !! type = Some r ->
  _listeners c' = _listeners c ->
  heap c' = <[r := s']> (heap c) ->
  type' <> type ->
  listeners_of c' type' = listeners_of c type'.
Proof.
  intros [_ Hinj] Hr Hm Hh Hne. unfold listeners_of. rewrite Hm, Hh.
  destruct (_listeners c !! type') as [r'|] eqn:Hr'; [|done].
  rewrite list_lookup_insert_ne; [done|].
  intros <-. apply Hne. by apply (Hinj type' type r).
Qed.

(** X5. On a reachable controller, [on(type, listener)] adds the
    listener at the end of the list for that type when it is not in it
    and changes nothing when it is, so that a second registration of
    the same function for the same type has no effect; the lists of the
    other types are not changed. *)
Theorem on_registers_once (env : Env) (s : System)
  (type : PictureInPictureWindowEventType) (listener : Callback) :
  reachable env s ->
  exists c',
    on type listener (controller s) = Some (Normal tt, c', []) /\
    listeners_of c' type =
      (if bool_decide (listener ∈ listeners_of (controller s) type)
       then listeners_of (controller s) type
       else listeners_of (controller s) type ++ [listener]) /\
    (forall type', type' <> type ->
       listeners_of c' type' = listeners_of (controller s) type') /\
    on type listener c' = Some (Normal tt, c', []).
Proof.
  intros Hreach.
  pose proof (reachable_registry_ok env s Hreach) as Hok.
  set (c := controller s) in *.
  assert (Hstep : forall c0, registry_ok c0 ->
    exists c',
      on type listener c0 = Some (Normal tt, c', []) /\
      listeners_of c' type =
        (if bool_decide (listener ∈ listeners_of c0 type)
         then listeners_of c0 type
         else listeners_of c0 type ++ [listener]) /\
      (forall type', type' <> type ->
         listeners_of c' type' = listeners_of c0 type')).
  { intros c0 Hok0. pose proof Hok0 as [Hlt Hinj].
    destruct (on_cases type listener c0) as (c' & Hrun & _ & _ & _ & Hcases).
    exists c'. split; [done|].
    destruct Hcases
      as [(r & s0 & Hr & Hs & Hm & Hh)|[(r & Hr & Hs & _)|(Hnone & Hm & Hh)]].
    - split.
      + unfold listeners_of. rewrite Hm, Hr, Hh, Hs.
        rewrite list_lookup_insert_eq by (by eapply lookup_lt_Some).
        by rewrite set_add_values, set_has_values.
      + intros type' Hne.
        by eapply (listeners_of_other_type c0 c' type type').
    - apply Hlt, lookup_lt_is_Some in Hr as [s0 Hs0]. congruence.
    - split.
      + unfold listeners_of. rewrite Hm, Hnone, Hh, lookup_insert_eq.
        rewrite lookup_app_r by done. by rewrite Nat.sub_diag.
      + intros type' Hne. unfold listeners_of.
        rewrite Hm, Hh, lookup_insert_ne by done.
        destruct (_listeners c0 !! type') as [r'|] eqn:Hr'; [|done].
        by rewrite lookup_app_l by (by eapply Hlt). }
  destruct (Hstep c Hok) as (c' & Hrun & Hsame & Hother).
  exists c'. repeat split; try done.
  assert (Hok' : registry_ok c').
  { eapply (registry_ok_on (fun _ => True)); eauto. }
  destruct (Hstep c' Hok') as (c'' & Hrun' & _ & _).
  rewrite Hrun'. repeat f_equal.
  destruct (on_cases type listener c')
    as (c2 & Hrun2 & Ho2 & Hw2 & Hi2 & Hcases).
  assert (c2 = c'') as -> by congruence.
  assert (Hin : listener ∈ listeners_of c' type).
  { rewrite Hsame. case_bool_decide; [done|].
    apply elem_of_app. right. by apply list_elem_of_singleton. }
  unfold listeners_of in Hin.
  destruct Hcases
    as [(r & s0 & Hr & Hs & Hm & Hh)|[(r & Hr & Hs & ->)|(Hnone & _)]];
    [|done|].
  - rewrite Hr, Hs in Hin.
    assert (Hadd : set_add s0 listener = s0).
    { unfold set_add. rewrite set_has_values. by rewrite bool_decide_true. }
    rewrite Hadd, list_insert_id in Hh by done.
    destruct c'', c'; simpl in *; congruence.
  - rewrite Hnone in Hin. by apply not_elem_of_nil in Hin.
Qed.

Lemma on_registers_once_witness :
  exists c',
    on ev_open 1 (controller (boot browser no_options)) =
      Some (Normal tt, c', []) /\
    listeners_of c' ev_open =
      (if bool_decide
            (1 ∈ listeners_of (controller (boot browser no_options)) ev_open)
       then listeners_of (controller (boot browser no_options)) ev_open
       else listeners_of (controller (boot browser no_options)) ev_open ++ [1]) /\
    (forall type', type' <> ev_open ->
       listeners_of c' type' =
         listeners_of (controller (boot browser no_options)) type') /\
    on ev_open 1 c' = Some (Normal tt, c', []).
Proof.
  apply (on_registers_once browser (boot browser no_options) ev_open 1).
  apply reachable_boot.
Defined.

(** X6. On a reachable controller, [off(type, listener)], which is
    also what the function returned by [on] does, removes the listener
    from the list of that type, keeps the others of that list in their
    order, and leaves the lists of the other types alone: a listener
    registered for several types stays registered for the others. *)
Theorem off_unregisters (env : Env) (s : System)
  (type : PictureInPictureWindowEventType) (listener : Callback) :
  reachable env s ->
  exists c',
    off type listener (controller s) = Some (Normal tt, c', []) /\
    listeners_of c' type =
      filter (fun g => g <> listener) (listeners_of (controller s) type) /\
    (forall type', type' <> type ->
       listeners_of c' type' = listeners_of (controller s) type').
Proof.
  intros Hreach.
  pose proof (reachable_registry_ok env s Hreach) as Hok.
  pose proof (reachable_sets_wf env s Hreach) as Hwf.
  set (c := controller s) in *.
  destruct (off_cases type listener c)
    as (c' & Hrun & _ & _ & _ & Hm & _).
  exists c'. split; [done|].
  unfold off in Hrun. rewrite (read_bind _listeners) in Hrun.
  destruct (_listeners c !! type) as [r|] eqn:Hr.
  - rewrite (read_bind heap) in Hrun.
    destruct (heap c !! r) as [s0|] eqn:Hs.
    + injection Hrun as <-. split.
      * unfold listeners_of. simpl. rewrite Hr, Hs.
        rewrite list_lookup_insert_eq by (by eapply lookup_lt_Some).
        apply set_delete_values.
        by apply (Forall_lookup_1 _ _ _ _ Hwf Hs).
      * intros type' Hne.
        by eapply (listeners_of_other_type c _ type type').
    + destruct Hok as [Hlt _].
      apply Hlt, lookup_lt_is_Some in Hr as [s0 Hs0]. congruence.
  - injection Hrun as <-. split; [|done].
    unfold listeners_of. by rewrite Hr.
Qed.

Lemma off_unregisters_witness :
  exists s,
    deliver_all 0 browser
      [user_calls (call_on ev_open 1); user_calls (call_on ev_statechange 1);
       user_calls (call_on ev_open 2)]
      (boot browser no_options) = Some s /\
    exists c',
      off ev_open 1 (controller s) = Some (Normal tt, c', []) /\
      listeners_of c' ev_open = [2] /\
      (forall type', type' <> ev_open ->
         listeners_of c' type' = listeners_of (controller s) type').
Proof.
  eexists. split; [reflexivity|].
  lazymatch goal with
  | |- context [off _ _ (controller ?s)] =>
      apply (off_unregisters browser s ev_open 1)
  end.
  apply (reachable_deliver_all 0 browser
           [user_calls (call_on ev_open 1);
            user_calls (call_on ev_statechange 1);
            user_calls (call_on ev_open 2)]
           (boot browser no_options));
    [apply reachable_boot | reflexivity].
Defined.

(** ** [dispose] from inside a listener *)

Lemma sets_only_lose_refl f c : sets_only_lose f c c.
Proof. intros r s Hs. by exists s. Qed.

Lemma sets_only_lose_trans f c1 c2 c3 :
  sets_only_lose f c1 c2 -> sets_only_lose f c2 c3 -> sets_only_lose f c1 c3.
Proof.
  intros Hh12 Hh23 r s Hs.
  destruct (Hh12 r s Hs) as (s2 & Hs2 & Hlen2 & Hsame2).
  destruct (Hh23 r s2 Hs2) as (s3 & Hs3 & Hlen3 & Hsame3).
  exists s3. repeat split; [done | congruence |].
  intros j Hj. rewrite Hsame3, Hsame2; [done..|]. by rewrite Hsame2.
Qed.

Lemma sets_only_lose_options f o c : sets_only_lose f c (with_options o c).
Proof. intros r s Hs. by exists s. Qed.

Lemma run_action_disposes env f a c :
  unsubscribes_or_disposes f a = true ->
  exists c' t,
    run_action env a c = Some (Normal tt, c', t) /\
    sets_only_lose f c c' /\
    (cleared c -> cleared c') /\
    (a = call_dispose -> cleared c').
Proof.
  intros Ha.
  assert (Hquiet : quiet a = true ->
    exists c' t,
      run_action env a c = Some (Normal tt, c', t) /\
      sets_only_lose f c c' /\
      (cleared c -> cleared c') /\
      (a = call_dispose -> cleared c')).
  { intros Hq. destruct (run_action_quiet env a c Hq) as (o & t & Hrun).
    exists (with_options o c), t. split; [done|].
    split; [apply sets_only_lose_options|]. split; [done|].
    intros ->. done. }
  destruct a; simpl in Ha; try done; try by apply Hquiet.
  - apply bool_decide_eq_true in Ha as ->. simpl.
    destruct (off_cases type f c) as (c' & Hrun & _ & Hw & Ho & Hm & Hcases).
    exists c', []. split; [done|]. split.
    + destruct (run_action_unsubscribes env f (call_off type f) c)
        as (c2 & t2 & Hrun2 & _ & _ & Hh); [simpl; by rewrite bool_decide_true|].
      simpl in Hrun2. assert (c2 = c') as -> by congruence. done.
    + split; [|done]. intros (Hc1 & Hc2 & Hc3). repeat split; congruence.
  - simpl. rewrite dispose_eq. eexists _, _. split; [done|].
    split; [|by split]. intros r s Hs. by exists s.
Qed.

Lemma run_actions_disposes env f body c :
  forallb (unsubscribes_or_disposes f) body = true ->
  exists c' t,
    run_actions env body c = Some (Normal tt, c', t) /\
    sets_only_lose f c c' /\
    (cleared c -> cleared c') /\
    (In call_dispose body -> cleared c') /\
    listener_calls t = [].
Proof.
  intros Hbody.
  assert (Hrun : exists c' t,
            run_actions env body c = Some (Normal tt, c', t) /\
            sets_only_lose f c c' /\
            (cleared c -> cleared c') /\
            (In call_dispose body -> cleared c')).
  { revert c. induction body as [|a body IH]; intros c; simpl.
    - exists c, []. split; [done|]. split; [apply sets_only_lose_refl|].
      by split.
    - simpl in Hbody. apply andb_true_iff in Hbody as [Ha Hbody].
      destruct (run_action_disposes env f a c Ha)
        as (c1 & t1 & H1 & R1 & K1 & D1).
      destruct (IH Hbody c1) as (c2 & t2 & H2 & R2 & K2 & D2).
      rewrite (bind_Normal _ _ _ _ _ _ H1), H2. exists c2, (t1 ++ t2).
      split; [done|]. split; [by eapply sets_only_lose_trans|].
      split; [by auto|]. intros [Heq|Hin]; auto. }
  destruct Hrun as (c' & t & Hrun & R & K & D). exists c', t.
  do 4 (split; [done|]).
  eapply action_effect_no_listener_call, run_actions_trace, Hrun.
Qed.

Lemma emit_loop_disposes fuel env type st r index c (entries : SetData) :
  heap c !! r = Some entries ->
  (forall j f, index <= j -> entries !! j = Some (Some f) ->
               forallb (unsubscribes_or_disposes f) (code env f) = true) ->
  (forall i j f, index <= i -> index <= j ->
                 entries !! i = Some (Some f) ->
                 entries !! j = Some (Some f) -> i = j) ->
  length entries <= index + fuel ->
  exists c' t,
    emit_loop fuel env type st r index c = Some (Normal tt, c', t) /\
    listener_calls t =
      map (fun f => call_listener f type st)
          (set_values (drop index entries)) /\
    (cleared c -> cleared c') /\
    ((exists j f, index <= j /\ entries !! j = Some (Some f) /\
                  In call_dispose (code env f)) -> cleared c').
Proof.
  revert index c entries.
  induction fuel as [|fuel IH]; intros index c entries Hheap Hbody Huniq Hlen;
    rewrite emit_loop_unfold, Hheap;
    destruct (entries !! index) as [entry|] eqn:Hentry.
  - apply lookup_lt_Some in Hentry. lia.
  - exists c, []. split; [done|].
    apply lookup_ge_None in Hentry. rewrite drop_ge by done.
    do 2 (split; [done|]).
    intros (j & f & Hj & Hf & _). apply lookup_lt_Some in Hf. lia.
  - rewrite (drop_S _ _ _ Hentry).
    destruct entry as [f|].
    + destruct (run_actions_disposes env f (code env f) c)
        as (c1 & t1 & H1 & Hh1 & K1 & D1 & Hc1); [by eapply Hbody|].
      destruct (Hh1 r entries Hheap) as (entries1 & Hheap1 & Hlen1 & Hsame1).
      assert (Hlater : forall j, index < j -> entries1 !! j = entries !! j).
      { intros j Hj. apply Hsame1. intros Hjf.
        assert (index = j) by (eapply Huniq; eauto; lia). lia. }
      assert (Hcall : bind (perform (call_listener f type st))
                           (fun _ => invoke env f) c =
                Some (Normal tt, c1, [call_listener f type st] ++ t1)).
      { unfold bind, perform, invoke. by rewrite H1. }
      destruct (IH (S index) c1 entries1) as (c2 & t2 & H2 & Hc2 & K2 & D2);
        [done | | | lia |].
      { intros j g Hj Hg. rewrite Hlater in Hg by lia.
        apply (Hbody j); [lia | done]. }
      { intros i j g Hi Hj Hgi Hgj. rewrite Hlater in Hgi, Hgj by lia.
        apply (Huniq i j g); [lia | lia | done | done]. }
      rewrite (bind_Normal _ _ _ _ _ _ Hcall), H2.
      exists c2, (([call_listener f type st] ++ t1) ++ t2). split; [done|].
      split; [|split; [by auto|]].
      * rewrite !listener_calls_app, Hc1, Hc2. simpl. do 3 f_equal.
        apply list_eq. intros i. rewrite !lookup_drop. apply Hlater. lia.
      * intros (j & g & Hj & Hg & Hd).
        destruct (decide (j = index)) as [->|Hne].
        -- assert (g = f) as -> by congruence. auto.
        -- apply D2. exists j, g. rewrite Hlater by lia.
           split; [lia | done].
    + destruct (IH (S index) c entries) as (c2 & t2 & H2 & Hc2 & K2 & D2);
        [done | | | lia |].
      { intros j g Hj Hg. apply (Hbody j); [lia | done]. }
      { intros i j g Hi Hj Hgi Hgj.
        apply (Huniq i j g); [lia | lia | done | done]. }
      rewrite ret_bind, H2. exists c2, t2. do 3 (split; [done|]).
      intros (j & g & Hj & Hg & Hd). apply D2. exists j, g.
      split; [|done].
      destruct (decide (j = index)) as [->|Hne]; [congruence | lia].
  - exists c, []. split; [done|].
    apply lookup_ge_None in Hentry. rewrite drop_ge by done.
    do 2 (split; [done|]).
    intros (j & f & Hj & Hf & _). apply lookup_lt_Some in Hf. lia.
Qed.

(** X7. [dispose()] called by a listener in the middle of a pass of
    [_emit] does not end the pass: when the listeners registered for the
    event at most unsubscribe themselves or dispose the controller, the
    pass completes normally and every listener registered when it began
    is called, in order, with the snapshot taken before the pass, even
    after the controller has been disposed.  If one of them disposes,
    the controller is left with an empty registry, [isOpen] false and
    [pipWindow] null. *)
Theorem dispose_in_listener_does_not_end_pass (fuel : nat) (env : Env)
  (type : PictureInPictureWindowEventType) (c : Controller) :
  NoDup (listeners_of c type) ->
  (forall f, f ∈ listeners_of c type ->
             forallb (unsubscribes_or_disposes f) (code env f) = true) ->
  registry_size c <= fuel ->
  exists c' t,
    _emit fuel env type c = Some (Normal tt, c', t) /\
    listener_calls t = one_call_each c type (state env c) /\
    ((exists f, f ∈ listeners_of c type /\ In call_dispose (code env f)) ->
     _listeners c' = ∅ /\ _isOpen c' = false /\ _pipWindow c' = None).
Proof.
  unfold one_call_each, listeners_of. intros Hnodup Hbody Hfuel.
  rewrite emit_unfold.
  destruct (_listeners c !! type) as [r|].
  - destruct (heap c !! r) as [s|] eqn:Hs.
    + destruct (emit_loop_disposes fuel env type (state env c) r 0 c s)
        as (c' & t & Hrun & Hcalls & _ & Hd); try done.
      * intros j f _ Hf. apply Hbody, elem_of_set_values, list_elem_of_lookup.
        eauto.
      * intros i j f _ _. by apply set_values_lookup_inj.
      * apply length_le_registry_size in Hs. lia.
      * exists c', t. rewrite drop_0 in Hcalls. do 2 (split; [done|]).
        intros (f & Hf & Hin). apply Hd.
        apply elem_of_set_values, list_elem_of_lookup in Hf as [j Hj].
        exists j, f. split; [lia | done].
    + rewrite emit_loop_unfold, Hs. exists c, []. do 2 (split; [done|]).
      intros (f & Hf & _). by apply not_elem_of_nil in Hf.
  - exists c, []. do 2 (split; [done|]).
    intros (f & Hf & _). by apply not_elem_of_nil in Hf.
Qed.

Lemma dispose_in_listener_does_not_end_pass_witness :
  exists c' t,
    _emit 3 disposing ev_open three_listeners_open =
      Some (Normal tt, c', t) /\
    listener_calls t =
      [call_listener 1 ev_open (opened_state disposing 7);
       call_listener 2 ev_open (opened_state disposing 7);
       call_listener 3 ev_open (opened_state disposing 7)] /\
    ((exists f, f ∈ listeners_of three_listeners_open ev_open /\
                In call_dispose (code disposing f)) ->
     _listeners c' = ∅ /\ _isOpen c' = false /\ _pipWindow c' = None).
Proof.
  apply (dispose_in_listener_does_not_end_pass 3 disposing ev_open
           three_listeners_open).
  - apply (bool_decide_unpack _). reflexivity.
  - intros f _. by destruct f as [|[|[|f]]].
  - vm_compute. lia.
Defined.

(** ** Callbacks that throw *)

Lemma bind_ext {A B} (m : Exec A) (k1 k2 : A -> Exec B) c :
  (forall a c1, k1 a c1 = k2 a c1) -> bind m k1 c = bind m k2 c.
Proof.
  intros Hk. unfold bind. destruct (m c) as [[[[a|] c1] t1]|]; [|done..].
  by rewrite Hk.
Qed.

Lemma run_actions_app env body1 body2 c :
  run_actions env (body1 ++ body2) c =
    bind (run_actions env body1) (fun _ => run_actions env body2) c.
Proof.
  revert c. induction body1 as [|a body1 IH]; intros c; simpl.
  - by rewrite ret_bind.
  - rewrite bind_assoc. apply bind_ext. intros _ c1. apply IH.
Qed.

Lemma run_actions_throws env pre post c :
  forallb quiet pre = true ->
  exists o t,
    run_actions env (pre ++ throw_error :: post) c =
      Some (Thrown, with_options o c, t) /\
    listener_calls t = [].
Proof.
  intros Hpre.
  destruct (run_actions_quiet env pre c Hpre) as (o & t & Hrun & Hcalls).
  exists o, (t ++ []). split.
  - by rewrite run_actions_app, (bind_Normal _ _ _ _ _ _ Hrun).
  - by rewrite app_nil_r.
Qed.

Lemma emit_loop_throws fuel env type st r f pre post after
  (entries : SetData) :
  code env f = pre ++ throw_error :: post ->
  forallb quiet pre = true ->
  forall index c before,
    heap c !! r = Some entries ->
    set_values (drop index entries) = before ++ f :: after ->
    (forall h, h ∈ before -> forallb quiet (code env h) = true) ->
    length entries <= index + fuel ->
    exists o t,
      emit_loop fuel env type st r index c =
        Some (Thrown, with_options o c, t) /\
      listener_calls t =
        map (fun h => call_listener h type st) (before ++ [f]).
Proof.
  intros Hcode Hpre.
  induction fuel as [|fuel IH]; intros index c before Hheap Hsplit Hquiet Hlen;
    rewrite emit_loop_unfold, Hheap;
    destruct (entries !! index) as [entry|] eqn:Hentry.
  - apply lookup_lt_Some in Hentry. lia.
  - apply lookup_ge_None in Hentry. rewrite drop_ge in Hsplit by done.
    by destruct before.
  - rewrite (drop_S _ _ _ Hentry) in Hsplit.
    destruct entry as [h|].
    + change (set_values (Some h :: drop (S index) entries))
        with (h :: set_values (drop (S index) entries)) in Hsplit.
      destruct before as [|h' before]; simpl in Hsplit;
        injection Hsplit as -> Hrest.
      * destruct (run_actions_throws env pre post c Hpre)
          as (o & t & Hrun & Hcalls).
        exists o, ([call_listener f type st] ++ t). split.
        -- unfold bind at 1. unfold bind at 1. unfold perform, invoke.
           by rewrite Hcode, Hrun.
        -- by rewrite listener_calls_app, Hcalls.
      * assert (Hh : forallb quiet (code env h') = true).
        { apply Hquiet. by left. }
        destruct (run_actions_quiet env (code env h') c Hh)
          as (o1 & t1 & H1 & Hc1).
        assert (Hcall : bind (perform (call_listener h' type st))
                             (fun _ => invoke env h') c =
                  Some (Normal tt, with_options o1 c,
                        [call_listener h' type st] ++ t1)).
        { unfold bind, perform, invoke. by rewrite H1. }
        destruct (IH (S index) (with_options o1 c) before)
          as (o2 & t2 & H2 & Hc2); [done | done | | lia |].
        { intros g Hg. apply Hquiet. by right. }
        rewrite (bind_Normal _ _ _ _ _ _ Hcall), H2.
        exists o2, (([call_listener h' type st] ++ t1) ++ t2).
        split; [done|].
        by rewrite !listener_calls_app, Hc1, Hc2.
    + change (set_values (None :: drop (S index) entries))
        with (set_values (drop (S index) entries)) in Hsplit.
      destruct (IH (S index) c before) as (o2 & t2 & H2 & Hc2);
        [done | done | done | lia |].
      rewrite ret_bind, H2. by exists o2, t2.
  - apply lookup_ge_None in Hentry. rewrite drop_ge in Hsplit by done.
    by destruct before.
Qed.

(** X8. A listener that throws ends the pass of [_emit]: the listeners
    registered before it (taken quiet) and the thrower have been called,
    those registered after it are not called, and the exception leaves
    [_emit].  Apart from the options, the controller is as it was. *)
Theorem throwing_listener_ends_pass (fuel : nat) (env : Env)
  (type : PictureInPictureWindowEventType) (c : Controller)
  (f : Callback) (before after : list Callback) (pre post : list Action) :
  listeners_of c type = before ++ f :: after ->
  code env f = pre ++ throw_error :: post ->
  forallb quiet pre = true ->
  (forall h, h ∈ before -> forallb quiet (code env h) = true) ->
  registry_size c <= fuel ->
  exists o t,
    _emit fuel env type c = Some (Thrown, with_options o c, t) /\
    listener_calls t =
      map (fun h => call_listener h type (state env c)) (before ++ [f]).
Proof.
  unfold listeners_of. intros Hsplit Hcode Hpre Hquiet Hfuel.
  rewrite emit_unfold.
  destruct (_listeners c !! type) as [r|]; [|by destruct before].
  destruct (heap c !! r) as [s|] eqn:Hs; [|by destruct before].
  apply (emit_loop_throws fuel env type (state env c) r f pre post after s
           Hcode Hpre 0 c before); try done.
  apply length_le_registry_size in Hs. lia.
Qed.

Lemma throwing_listener_ends_pass_witness :
  exists o t,
    _emit 3 throwing ev_open thrower_second =
      Some (Thrown, with_options o thrower_second, t) /\
    listener_calls t =
      [call_listener 2 ev_open (closed_state throwing);
       call_listener 1 ev_open (closed_state throwing)].
Proof.
  apply (throwing_listener_ends_pass 3 throwing ev_open thrower_second
           1 [2] [3] [] []); try reflexivity.
  intros h ->%list_elem_of_singleton. reflexivity.
Defined.

Lemma try_catch_Thrown {A} (m handler : Exec A) c c1 t1 :
  m c = Some (Thrown, c1, t1) ->
  try_catch m handler c =
    match handler c1 with
    | Some (r, c2, t2) => Some (r, c2, t1 ++ t2)
    | None => None
    end.
Proof. unfold try_catch. by intros ->. Qed.

Lemma bind_Thrown {A B} (m : Exec A) (k : A -> Exec B) c c1 t1 :
  m c = Some (Thrown, c1, t1) -> bind m k c = Some (Thrown, c1, t1).
Proof. unfold bind. by intros ->. Qed.

(** X9. When the [onOpen] callback throws, [open()] swallows the
    exception and resolves to an absent result, as if the request had
    failed, but the window was obtained: the pagehide observer is
    registered on it, the controller holds it with [isOpen] true, and no
    'open' or 'statechange' listener is called.  The last call is the
    diagnostic. *)
Theorem onOpen_throwing_leaves_window_open (fuel : nat) (env : Env)
  (w : Window) (c : Controller) (f : Callback) (pre post : list Action) :
  opt_onOpen (_options c) = Some f ->
  code env f = pre ++ throw_error :: post ->
  forallb quiet pre = true ->
  exists o t,
    open_resume fuel env (resolved w) c =
      Some (Normal None,
            with_options o (with_isOpen true (with_pipWindow (Some w) c)),
            addEventListener_pagehide_once w :: t ++ [console_error]) /\
    listener_calls t = [] /\
    In (call_onOpen f w) t.
Proof.
  intros HonOpen Hcode Hpre. unfold open_resume.
  set (c1 := with_isOpen true (with_pipWindow (Some w) c)).
  assert (Hstyles : exists t0,
    (match opt_copyStyles (_options c) with
     | Some true => perform_all (copyDocumentStylesToWindow_calls env w)
     | _ => ret tt
     end) c = Some (Normal tt, c, t0) /\ listener_calls t0 = []).
  { assert (Hcopy : listener_calls (copyDocumentStylesToWindow_calls env w) = []).
    { unfold copyDocumentStylesToWindow_calls.
      induction (copyDocumentStylesToWindow (document env) []); simpl; done. }
    destruct (opt_copyStyles (_options c)) as [[|]|]; eauto. }
  destruct Hstyles as (t0 & H0 & Hc0).
  destruct (run_actions_throws env pre post c1 Hpre) as (o & t1 & H1 & Hc1).
  assert (Hcb :
    (match opt_onOpen (_options c1) with
     | Some g => bind (perform (call_onOpen g w)) (fun _ => invoke env g)
     | None => ret tt
     end) c1 = Some (Thrown, with_options o c1, [call_onOpen f w] ++ t1)).
  { change (opt_onOpen (_options c1)) with (opt_onOpen (_options c)).
    rewrite HonOpen. unfold bind, perform, invoke. by rewrite Hcode, H1. }
  exists o, (t0 ++ [call_onOpen f w] ++ t1). split; [|split].
  - rewrite (try_catch_Thrown _ _ c (with_options o c1)
               (addEventListener_pagehide_once w
                :: t0 ++ [call_onOpen f w] ++ t1)).
    + simpl. by rewrite <- app_assoc.
    + rewrite ret_bind, perform_bind, (read_bind _options).
      rewrite (bind_Normal _ _ _ _ _ _ H0), write_write_bind.
      fold c1. rewrite (read_bind _options).
      by rewrite (bind_Thrown _ _ _ _ _ Hcb).
  - by rewrite !listener_calls_app, Hc0, Hc1.
  - apply in_or_app. right. by left.
Qed.

Lemma onOpen_throwing_leaves_window_open_witness :
  exists o t,
    open_resume 0 throwing (resolved 7) with_onOpen_1 =
      Some (Normal None,
            with_options o
              (with_isOpen true (with_pipWindow (Some 7) with_onOpen_1)),
            addEventListener_pagehide_once 7 :: t ++ [console_error]) /\
    listener_calls t = [] /\
    In (call_onOpen 1 7) t.
Proof.
  apply (onOpen_throwing_leaves_window_open 0 throwing 7 with_onOpen_1
           1 [] []); reflexivity.
Defined.

(** ** Listeners that subscribe during a pass *)

Lemma on_registered type g c r (s : SetData) :
  _listeners c !! type = Some r -> heap c !! r = Some s ->
  on type g c =
    Some (Normal tt, with_heap (<[r := set_add s g]> (heap c)) c, []).
Proof.
  intros Hr Hs. unfold on. rewrite (read_bind _listeners), Hr.
  cbv beta iota. rewrite ret_bind, (read_bind _listeners), Hr.
  cbv beta iota. by rewrite (read_bind heap), Hs.
Qed.

Lemma off_registered type g c r (s : SetData) :
  _listeners c !! type = Some r -> heap c !! r = Some s ->
  off type g c =
    Some (Normal tt, with_heap (<[r := set_delete s g]> (heap c)) c, []).
Proof.
  intros Hr Hs. unfold off. rewrite (read_bind _listeners), Hr.
  cbv beta iota. by rewrite (read_bind heap), Hs.
Qed.

Lemma quiet_is_allowed f body :
  forallb quiet body = true ->
  forallb (quiet_or_unsubscribes f) body = true.
Proof.
  induction body as [|a body IH]; simpl; [done|].
  intros [Ha Hbody]%andb_true_iff. rewrite IH by done.
  by destruct a.
Qed.

Lemma set_add_absent (s : SetData) g :
  g ∉ set_values s -> set_add s g = s ++ [Some g].
Proof.
  intros Hnot. unfold set_add. rewrite set_has_values.
  by rewrite bool_decide_false.
Qed.

Lemma emit_loop_subscribes fuel env type st r f g pre post k
  (entries : SetData) :
  code env f = pre ++ call_on type g :: post ->
  forallb quiet pre = true ->
  forallb quiet post = true ->
  forallb quiet (code env g) = true ->
  entries !! k = Some (Some f) ->
  NoDup (set_values entries) ->
  g ∉ set_values entries ->
  (forall h, h ∈ set_values entries -> h <> f ->
             forallb quiet (code env h) = true) ->
  forall index c,
    index <= k ->
    heap c !! r = Some entries ->
    _listeners c !! type = Some r ->
    length entries + 1 <= index + fuel ->
    exists c' t,
      emit_loop fuel env type st r index c = Some (Normal tt, c', t) /\
      listener_calls t =
        map (fun h => call_listener h type st)
            (set_values (drop index entries) ++ [g]).
Proof.
  intros Hcode Hpre Hpost Hg Hk Hnodup Hfresh Hquiet.
  pose proof (lookup_lt_Some _ _ _ Hk) as Hklt.
  assert (Hnodup' : NoDup (set_values (entries ++ [Some g]))).
  { rewrite set_values_app. apply NoDup_app. split; [done|].
    split; [|apply NoDup_singleton].
    intros h Hh ->%list_elem_of_singleton. done. }
  induction fuel as [|fuel IH]; intros index c Hindex Hheap Hmap Hlen;
    [lia|].
  rewrite emit_loop_unfold, Hheap.
  destruct (entries !! index) as [entry|] eqn:Hentry;
    [|apply lookup_ge_None in Hentry; lia].
  rewrite (drop_S _ _ _ Hentry).
  destruct entry as [h|].
  - destruct (decide (index = k)) as [->|Hne].
    + assert (h = f) as -> by congruence.
      destruct (run_actions_quiet env pre c Hpre) as (o1 & t1 & H1 & _).
      set (c1 := with_options o1 c) in *.
      set (c2 := with_heap (<[r := set_add entries g]> (heap c1)) c1).
      destruct (run_actions_quiet env post c2 Hpost) as (o3 & t3 & H3 & _).
      assert (Hbody : run_actions env (code env f) c =
                Some (Normal tt, with_options o3 c2, t1 ++ [] ++ t3)).
      { rewrite Hcode, run_actions_app, (bind_Normal _ _ _ _ _ _ H1).
        simpl. rewrite (bind_Normal _ _ _ tt c2 []), H3; [done|].
        by apply (on_registered type g c1 r entries). }
      assert (Hcall : bind (perform (call_listener f type st))
                           (fun _ => invoke env f) c =
                Some (Normal tt, with_options o3 c2,
                      [call_listener f type st] ++ (t1 ++ [] ++ t3))).
      { unfold bind, perform, invoke. by rewrite Hbody. }
      destruct (emit_loop_unsubscribes fuel env type st r (S k)
                  (with_options o3 c2) (entries ++ [Some g]))
        as (c' & t & Hrun & Hcalls).
      * simpl. rewrite list_lookup_insert_eq by (by eapply lookup_lt_Some).
        by rewrite set_add_absent.
      * intros j h Hj Hh. apply quiet_is_allowed.
        destruct (decide (h = g)) as [->|Hhg]; [done|].
        apply Hquiet.
        -- assert (Hin : h ∈ set_values (entries ++ [Some g])).
           { apply elem_of_set_values, list_elem_of_lookup. eauto. }
           rewrite set_values_app in Hin.
           apply elem_of_app in Hin as [Hin|Hin%list_elem_of_singleton];
             done.
        -- intros ->.
           assert (j = k); [|lia].
           apply (set_values_lookup_inj (entries ++ [Some g]) j k f);
             [done | done |]. by apply lookup_app_l_Some.
      * intros i j h _ _. by apply set_values_lookup_inj.
      * rewrite length_app. simpl. lia.
      * rewrite (bind_Normal _ _ _ _ _ _ Hcall), Hrun.
        eexists _, _. split; [done|].
        assert (Hb : listener_calls (t1 ++ [] ++ t3) = []).
        { eapply action_effect_no_listener_call, run_actions_trace, Hbody. }
        rewrite listener_calls_app,
          (listener_calls_app [call_listener f type st]), Hb, Hcalls.
        simpl. rewrite drop_app_le by lia. by rewrite set_values_app.
    + assert (Hh : forallb quiet (code env h) = true).
      { apply Hquiet.
        - apply elem_of_set_values, list_elem_of_lookup. eauto.
        - intros ->. apply Hne.
          by apply (set_values_lookup_inj entries index k f). }
      destruct (run_actions_quiet env (code env h) c Hh)
        as (o1 & t1 & H1 & Hc1).
      assert (Hcall : bind (perform (call_listener h type st))
                           (fun _ => invoke env h) c =
                Some (Normal tt, with_options o1 c,
                      [call_listener h type st] ++ t1)).
      { unfold bind, perform, invoke. by rewrite H1. }
      destruct (IH (S index) (with_options o1 c)) as (c' & t & Hrun & Hcalls);
        [lia | done | done | lia |].
      rewrite (bind_Normal _ _ _ _ _ _ Hcall), Hrun.
      eexists _, _. split; [done|].
      by rewrite !listener_calls_app, Hc1, Hcalls.
  - assert (index <> k) by congruence.
    destruct (IH (S index) c) as (c' & t & Hrun & Hcalls);
      [lia | done | done | lia |].
    rewrite ret_bind, Hrun. by exists c', t.
Qed.

(** X10. A listener subscribed during a pass of [_emit] to the event
    being emitted is called in that same pass: when one listener of the
    list subscribes a function that is not in the list yet, and the
    other callbacks are quiet, the pass calls every listener registered
    when it began and then, last, the newly subscribed one, all with the
    snapshot taken before the pass. *)
Theorem subscribed_during_pass_is_called (fuel : nat) (env : Env)
  (type : PictureInPictureWindowEventType) (c : Controller)
  (f g : Callback) (pre post : list Action) :
  NoDup (listeners_of c type) ->
  f ∈ listeners_of c type ->
  g ∉ listeners_of c type ->
  code env f = pre ++ call_on type g :: post ->
  forallb quiet pre = true ->
  forallb quiet post = true ->
  forallb quiet (code env g) = true ->
  (forall h, h ∈ listeners_of c type -> h <> f ->
             forallb quiet (code env h) = true) ->
  registry_size c < fuel ->
  exists c' t,
    _emit fuel env type c = Some (Normal tt, c', t) /\
    listener_calls t =
      one_call_each c type (state env c) ++
      [call_listener g type (state env c)].
Proof.
  unfold one_call_each, listeners_of.
  intros Hnodup Hf Hfresh Hcode Hpre Hpost Hg Hquiet Hfuel.
  rewrite emit_unfold.
  destruct (_listeners c !! type) as [r|] eqn:Hr;
    [|by apply not_elem_of_nil in Hf].
  destruct (heap c !! r) as [s|] eqn:Hs; [|by apply not_elem_of_nil in Hf].
  pose proof Hf as Hf'.
  apply elem_of_set_values, list_elem_of_lookup in Hf' as [k Hk].
  destruct (emit_loop_subscribes fuel env type (state env c) r f g pre post k s
              Hcode Hpre Hpost Hg Hk Hnodup Hfresh Hquiet 0 c)
    as (c' & t & Hrun & Hcalls); [lia | done | done | |].
  { apply length_le_registry_size in Hs. lia. }
  exists c', t. split; [done|].
  by rewrite Hcalls, drop_0, map_app.
Qed.

Lemma subscribed_during_pass_is_called_witness :
  exists c' t,
    _emit 4 subscribing ev_open three_listeners = Some (Normal tt, c', t) /\
    listener_calls t =
      [call_listener 1 ev_open (closed_state subscribing);
       call_listener 2 ev_open (closed_state subscribing);
       call_listener 3 ev_open (closed_state subscribing)] ++
      [call_listener 9 ev_open (closed_state subscribing)].
Proof.
  apply (subscribed_during_pass_is_called 4 subscribing ev_open
           three_listeners 1 9 [] []); try reflexivity.
  - apply (bool_decide_unpack _). reflexivity.
  - apply (bool_decide_unpack _). reflexivity.
  - apply (bool_decide_unpack _). reflexivity.
  - intros h _ Hne. by destruct h as [|[|h]].
  - vm_compute. lia.
Defined.

(** ** A listener that subscribes itself again *)

Lemma set_delete_only (s : SetData) f k :
  s !! k = Some (Some f) ->
  (forall j, s !! j = Some (Some f) -> j = k) ->
  set_delete s f = <[k := None]> s.
Proof.
  revert k. induction s as [|e s IH]; intros k Hk Honly; [done|].
  simpl. case_decide as He.
  - subst e. by rewrite <- (Honly 0 eq_refl).
  - destruct k as [|k]; [simpl in Hk; congruence|].
    simpl. f_equal. apply IH; [done|].
    intros j Hj. by injection (Honly (S j) Hj).
Qed.

Lemma emit_loop_resubscribes env type st r f :
  code env f = [call_off type f; call_on type f] ->
  forall fuel index c (entries : SetData) k,
    heap c !! r = Some entries ->
    _listeners c !! type = Some r ->
    index <= k ->
    entries !! k = Some (Some f) ->
    (forall j, entries !! j = Some (Some f) -> j = k) ->
    (forall j h, index <= j -> entries !! j = Some (Some h) -> h <> f ->
                 forallb quiet (code env h) = true) ->
    emit_loop fuel env type st r index c = None.
Proof.
  intros Hcode.
  induction fuel as [|fuel IH];
    intros index c entries k Hheap Hmap Hindex Hk Honly Hquiet;
    pose proof (lookup_lt_Some _ _ _ Hk) as Hklt;
    rewrite emit_loop_unfold, Hheap;
    (destruct (entries !! index) as [entry|] eqn:Hentry;
       [|apply lookup_ge_None in Hentry; lia]); [done|].
  destruct entry as [h|].
  - destruct (decide (h = f)) as [->|Hne].
    + assert (index = k) as -> by (by apply Honly).
      set (c1 := with_heap (<[r := set_delete entries f]> (heap c)) c).
      set (entries' := <[k := None]> entries ++ [Some f]).
      set (c2 := with_heap (<[r := entries']> (heap c1)) c1).
      assert (Hdel : set_delete entries f = <[k := None]> entries).
      { by apply set_delete_only. }
      assert (Hheap1 : heap c1 !! r = Some (<[k := None]> entries)).
      { simpl. rewrite list_lookup_insert_eq by (by eapply lookup_lt_Some).
        by rewrite Hdel. }
      assert (Hlen : length (<[k := None]> entries) = length entries).
      { apply length_insert. }
      assert (Hgone : f ∉ set_values (<[k := None]> entries)).
      { intros [j Hj]%elem_of_set_values%list_elem_of_lookup.
        apply list_lookup_insert_Some in Hj as [(_ & Hx & _)|(Hjk & Hj)];
          [done|].
        apply Hjk. symmetry. by apply Honly. }
      assert (Hbody : run_actions env (code env f) c =
                Some (Normal tt, c2, [] ++ [] ++ [])).
      { rewrite Hcode. simpl.
        rewrite (bind_Normal _ _ _ tt c1 [])
          by (by apply (off_registered type f c r entries)).
        rewrite (bind_Normal _ _ _ tt c2 []); [done|].
        rewrite (on_registered type f c1 r (<[k := None]> entries))
          by done.
        by rewrite set_add_absent. }
      assert (Hcall : bind (perform (call_listener f type st))
                           (fun _ => invoke env f) c =
                Some (Normal tt, c2, [call_listener f type st] ++ [])).
      { unfold bind, perform, invoke. by rewrite Hbody. }
      rewrite (bind_Normal _ _ _ _ _ _ Hcall).
      rewrite (IH (S k) c2 entries' (length entries)); [done | | done | | | |].
      * simpl. rewrite list_insert_insert_eq.
        apply list_lookup_insert_eq. by eapply lookup_lt_Some.
      * lia.
      * apply lookup_snoc_Some. right. by split.
      * intros j Hj.
        apply lookup_snoc_Some in Hj as [[_ Hj]|[-> _]]; [|done].
        exfalso. apply Hgone, elem_of_set_values, list_elem_of_lookup.
        eauto.
      * intros j h Hj Hh Hne.
        apply lookup_snoc_Some in Hh as [[_ Hh]|[_ Heq]]; [|congruence].
        apply list_lookup_insert_Some in Hh as [(_ & Hx & _)|(Hjk & Hh)];
          [done|].
        apply (Hquiet j); [lia | done | done].
    + assert (Hh : forallb quiet (code env h) = true).
      { by apply (Hquiet index). }
      assert (index <> k) by (intros ->; congruence).
      destruct (run_actions_quiet env (code env h) c Hh)
        as (o1 & t1 & H1 & Hc1).
      assert (Hcall : bind (perform (call_listener h type st))
                           (fun _ => invoke env h) c =
                Some (Normal tt, with_options o1 c,
                      [call_listener h type st] ++ t1)).
      { unfold bind, perform, invoke. by rewrite H1. }
      rewrite (bind_Normal _ _ _ _ _ _ Hcall).
      rewrite (IH (S index) (with_options o1 c) entries k); try done; [lia|].
      intros j g Hj. apply Hquiet. lia.
  - assert (index <> k) by (intros ->; congruence).
    rewrite ret_bind.
    apply (IH (S index) c entries k); try done; [lia|].
    intros j g Hj. apply Hquiet. lia.
Qed.

(** X11. A listener that, when called, unsubscribes itself and
    subscribes itself again to the event being emitted keeps the pass of
    [_emit] from ever ending: deleted from its place and added at the
    end of the set, it is reached again and again.  Whatever the fuel,
    the pass is not over. *)
Theorem resubscribing_listener_never_ends (fuel : nat) (env : Env)
  (type : PictureInPictureWindowEventType) (c : Controller) (f : Callback) :
  NoDup (listeners_of c type) ->
  f ∈ listeners_of c type ->
  code env f = [call_off type f; call_on type f] ->
  (forall h, h ∈ listeners_of c type -> h <> f ->
             forallb quiet (code env h) = true) ->
  _emit fuel env type c = None.
Proof.
  unfold listeners_of. intros Hnodup Hf Hcode Hquiet.
  rewrite emit_unfold.
  destruct (_listeners c !! type) as [r|] eqn:Hr;
    [|by apply not_elem_of_nil in Hf].
  destruct (heap c !! r) as [s|] eqn:Hs; [|by apply not_elem_of_nil in Hf].
  pose proof Hf as Hf'.
  apply elem_of_set_values, list_elem_of_lookup in Hf' as [k Hk].
  apply (emit_loop_resubscribes env type (state env c) r f Hcode fuel 0 c s k);
    try done; [lia | |].
  - intros j Hj. by apply (set_values_lookup_inj s j k f).
  - intros j h _ Hh. apply Hquiet.
    apply elem_of_set_values, list_elem_of_lookup. eauto.
Qed.

Lemma resubscribing_listener_never_ends_witness :
  _emit 1000 resubscribing ev_open three_listeners = None.
Proof.
  apply (resubscribing_listener_never_ends 1000 resubscribing ev_open
           three_listeners 1); try reflexivity.
  - apply (bool_decide_unpack _). reflexivity.
  - apply (bool_decide_unpack _). reflexivity.
  - intros h _ Hne. by destruct h as [|[|h]].
Defined.

(** ** The controller and the platform *)






(** X13. [dispose()] detaches the controller from the platform as far
    as the window it holds is concerned: on a reachable system it leaves
    the state [disposed], the enter observer is no longer registered,
    so that a window announced later is not adopted, and the pagehide
    observer is gone from the held window, so that its closure reaches
    no code of the controller.  The observers registered on other
    windows, which the controller opened earlier and no longer holds,
    stay registered. *)
Theorem dispose_detaches (fuel : nat) (env : Env) (s s' : System) :
  reachable env s ->
  deliver fuel env (user_calls call_dispose) s = Some s' ->
  controller s' = disposed (controller s) /\
  enter_listener (platform s') = false /\
  (forall fuel' w', deliver fuel' env (enter_fires w') s' = Some s') /\
  (forall w, _pipWindow (controller s) = Some w ->
     (w ∉ pagehide_listeners (platform s')) /\
     (forall fuel', deliver fuel' env (pagehide_fires w) s' = Some s')) /\
  (forall w', w' ∈ pagehide_listeners (platform s) ->
     _pipWindow (controller s) <> Some w' ->
     w' ∈ pagehide_listeners (platform s')).
Proof.
  intros Hreach Hstep. simpl in Hstep. unfold run in Hstep.
  rewrite dispose_eq in Hstep. injection Hstep as <-. simpl.
  assert (Henter : capability_present env = false ->
                   enter_listener (platform s) = false).
  { intros Hcap.
    by destruct (reachable_without_capability env Hcap s Hreach)
      as (_ & ? & _). }
  assert (Henter' :
    enter_listener
      (absorb_all (platform s)
         (match _pipWindow (controller s) with
          | Some w => [removeEventListener_pagehide w; window_close w]
          | None => []
          end ++
          (if capability_present env then [removeEventListener_enter]
           else []))) = false).
  { destruct (_pipWindow (controller s)), (capability_present env);
      simpl; auto. }
  split; [done|]. split; [done|]. split; [|split].
  - intros fuel' w'. simpl. by rewrite Henter'.
  - intros w Hw. rewrite Hw.
    assert (Hnot :
      w ∉ pagehide_listeners
            (absorb_all (platform s)
               ([removeEventListener_pagehide w; window_close w] ++
                (if capability_present env then [removeEventListener_enter]
                 else [])))).
    { destruct (capability_present env); simpl;
        intros [_ Hw']%elem_of_difference; apply Hw';
        by apply elem_of_singleton. }
    split; [done|]. intros fuel'. simpl. by rewrite decide_False.
  - intros w' Hin Hne.
    destruct (_pipWindow (controller s)) as [w|] eqn:Hw,
             (capability_present env); simpl; try done;
      apply elem_of_difference; (split; [done|]);
      intros ->%elem_of_singleton; by apply Hne.
Qed.

Lemma dispose_detaches_witness :
  controller after_dispose_of_8 = disposed (controller holding_8_observing_7) /\
  enter_listener (platform after_dispose_of_8) = false /\
  (forall fuel' w',
     deliver fuel' browser (enter_fires w') after_dispose_of_8 =
       Some after_dispose_of_8) /\
  (forall w, _pipWindow (controller holding_8_observing_7) = Some w ->
     (w ∉ pagehide_listeners (platform after_dispose_of_8)) /\
     (forall fuel',
        deliver fuel' browser (pagehide_fires w) after_dispose_of_8 =
          Some after_dispose_of_8)) /\
  (forall w', w' ∈ pagehide_listeners (platform holding_8_observing_7) ->
     _pipWindow (controller holding_8_observing_7) <> Some w' ->
     w' ∈ pagehide_listeners (platform after_dispose_of_8)).
Proof.
  apply (dispose_detaches 0 browser holding_8_observing_7 after_dispose_of_8).
  - apply (reachable_deliver_all 0 browser
             [user_calls call_open; request_settles (resolved 7);
              enter_fires 8]
             (boot browser no_options));
      [apply reachable_boot | reflexivity].
  - reflexivity.
Defined.

(** The observer left on the window 7 still runs the pagehide handler
    of the disposed controller. *)
Example disposed_controller_still_observes_7 :
  7 ∈ pagehide_listeners (platform after_dispose_of_8).
Proof. apply (bool_decide_unpack _). reflexivity. Qed.

(** X14. Where the capability is missing when the controller is built
    and stays missing, nothing ever happens: in every reachable state
    the controller holds no window, [isOpen] is false, no observer is
    registered and no request is in flight, and [open()] resolves to an
    absent result without a call.  This is so even where [isSupported]
    is true because [documentPictureInPicture] is a property of
    [window] that holds no object. *)
Theorem without_capability_nothing_opens (fuel : nat) (env : Env)
  (settlement : Settlement) (s : System) :
  capability_present env = false ->
  reachable env s ->
  _pipWindow (controller s) = None /\
  _isOpen (controller s) = false /\
  untouched (platform s) /\
  open fuel env settlement (controller s) =
    Some (Normal None, controller s, []).
Proof.
  intros Hcap Hreach.
  destruct (reachable_without_capability env Hcap s Hreach) as [Hnone Hp].
  split; [done|]. split; [|split; [done|]].
  - assert (Hinv : window_iff_open (controller s)).
    { revert Hreach. apply reachable_invariant; eauto with pip. }
    destruct (_isOpen (controller s)) eqn:Ho; [|done].
    destruct (proj2 Hinv Ho) as [w Hw]. congruence.
  - unfold open.
    assert (Hbegin : open_begin env (controller s) =
              Some (Normal (returned None), controller s, [])).
    { by rewrite open_begin_eq, Hcap. }
    by rewrite (bind_Normal _ _ _ _ _ _ Hbegin).
Qed.

Lemma without_capability_nothing_opens_witness :
  isSupported half_supported = true /\
  _pipWindow (controller half_supported_system) = None /\
  _isOpen (controller half_supported_system) = false /\
  untouched (platform half_supported_system) /\
  open 0 half_supported (resolved 7) (controller half_supported_system) =
    Some (Normal None, controller half_supported_system, []).
Proof.
  split; [reflexivity|].
  apply (without_capability_nothing_opens 0 half_supported (resolved 7)
           half_supported_system); [reflexivity|].
  apply (reachable_deliver_all 0 half_supported
           [user_calls call_open; user_calls (call_on ev_open 1)]
           (boot half_supported no_options));
    [apply reachable_boot | reflexivity].
Defined.

Lemma deliver_call_open fuel env s :
  capability_present env = true ->
  _pipWindow (controller s) = None ->
  deliver fuel env (user_calls call_open) s =
    Some {| controller := controller s;
            platform := absorb (platform s) (request_of (controller s)) |}.
Proof.
  intros Hcap Hnone. simpl. unfold run.
  assert (Hbegin : open_begin env (controller s) =
            Some (Normal awaiting, controller s, [request_of (controller s)])).
  { by rewrite open_begin_eq, Hcap, Hnone. }
  by rewrite (bind_Normal _ _ _ _ _ _ Hbegin).
Qed.

(** X15. [open()] has no guard against a request already in flight:
    as long as no request has settled, every call of [open()] on a
    controller that holds no window issues one more request and leaves
    the controller as it was, so [n] calls leave [n] more requests
    pending. *)
Theorem open_has_no_in_flight_guard (fuel : nat) (env : Env) (n : nat)
  (s : System) :
  capability_present env = true ->
  _pipWindow (controller s) = None ->
  exists s',
    deliver_all fuel env (replicate n (user_calls call_open)) s = Some s' /\
    controller s' = controller s /\
    in_flight (platform s') = in_flight (platform s) + n /\
    enter_listener (platform s') = enter_listener (platform s) /\
    pagehide_listeners (platform s') = pagehide_listeners (platform s).
Proof.
  intros Hcap. revert s. induction n as [|n IH]; intros s Hnone;
    cbn [replicate deliver_all].
  - exists s. repeat split; lia.
  - rewrite deliver_call_open by done.
    destruct (IH {| controller := controller s;
                    platform := absorb (platform s)
                                       (request_of (controller s)) |})
      as (s' & Hrun & Hc & Hf & He & Hp); [done|].
    exists s'. split; [done|]. simpl in *. repeat split; try done. lia.
Qed.

Lemma open_has_no_in_flight_guard_witness :
  exists s',
    deliver_all 0 browser (replicate 3 (user_calls call_open))
      (boot browser no_options) = Some s' /\
    controller s' = controller (boot browser no_options) /\
    in_flight (platform s') = in_flight (platform (boot browser no_options)) + 3 /\
    enter_listener (platform s') =
      enter_listener (platform (boot browser no_options)) /\
    pagehide_listeners (platform s') =
      pagehide_listeners (platform (boot browser no_options)).
Proof.
  apply (open_has_no_in_flight_guard 0 browser 3 (boot browser no_options));
    reflexivity.
Defined.


(** ** The first [open()] of a new controller *)

Lemma emit_unregistered fuel env type c :
  _listeners c !! type = None ->
  _emit fuel env type c = Some (Normal tt, c, []).
Proof. intros Hnone. by rewrite emit_unfold, Hnone. Qed.

(** X17. A controller built from an options literal, opened for the
    first time in a browser with the capability, where [onOpen], when
    given, is quiet (it neither subscribes, unsubscribes, disposes nor
    throws): the request carries the literal's width and height and its
    disallowReturnToOpener (false when the key is missing, [undefined]
    when the key holds [undefined]); once the request is resolved the
    pagehide observer is registered on the window, the styles are
    copied exactly when [copyStyles] is missing or true, the controller
    holds the window with [isOpen] true, [onOpen], when given, is
    called once with the window, no listener is called since none is
    registered, and the window is returned.  This holds for any fuel.
    What a throwing [onOpen] changes is the subject of X9. *)
Theorem first_open (fuel : nat) (env : Env) (options : OptionsLiteral)
  (w : Window) :
  capability_present env = true ->
  (forall f, literal_onOpen options = Some f ->
             forallb quiet (code env f) = true) ->
  exists o t,
    open fuel env (resolved w) (fst (constructor env options)) =
      Some (Normal (Some w),
            with_options o
              (with_isOpen true
                 (with_pipWindow (Some w) (fst (constructor env options)))),
            requestWindow
              {| req_disallowReturnToOpener :=
                   spread_key (Some false) (lit_disallowReturnToOpener options);
                 req_width := spread_key None (lit_width options);
                 req_height := spread_key None (lit_height options) |}
            :: addEventListener_pagehide_once w
            :: (if copies_styles options
                then copyDocumentStylesToWindow_calls env w else [])
            ++ match literal_onOpen options with
               | Some f => call_onOpen f w :: t
               | None => []
               end) /\
    Forall (fun e => action_effect env e = true) t.
Proof.
  intros Hcap HonOpen.
  set (c := fst (constructor env options)).
  set (c1 := with_isOpen true (with_pipWindow (Some w) c)).
  assert (Hbegin : open_begin env c =
            Some (Normal awaiting, c,
                  [requestWindow
                     {| req_disallowReturnToOpener :=
                          spread_key (Some false)
                                     (lit_disallowReturnToOpener options);
                        req_width := spread_key None (lit_width options);
                        req_height := spread_key None (lit_height options) |}])).
  { by rewrite open_begin_eq, Hcap. }
  assert (Hstyles :
    (match opt_copyStyles (_options c) with
     | Some true => perform_all (copyDocumentStylesToWindow_calls env w)
     | _ => ret tt
     end) c =
    Some (Normal tt, c,
          if copies_styles options
          then copyDocumentStylesToWindow_calls env w else [])).
  { unfold copies_styles. simpl.
    by destruct (lit_copyStyles options) as [[[|]|]|]. }
  assert (Hcb : exists o t,
    (match opt_onOpen (_options c1) with
     | Some f => bind (perform (call_onOpen f w)) (fun _ => invoke env f)
     | None => ret tt
     end) c1 =
    Some (Normal tt, with_options o c1,
          match literal_onOpen options with
          | Some f => call_onOpen f w :: t
          | None => []
          end) /\
    Forall (fun e => action_effect env e = true) t).
  { assert (Heq : opt_onOpen (_options c1) = literal_onOpen options).
    { unfold literal_onOpen. simpl. by destruct (lit_onOpen options) as [[|]|]. }
    rewrite Heq. destruct (literal_onOpen options) as [f|] eqn:Hf.
    - destruct (run_actions_quiet env (code env f) c1) as (o & t & Hrun & _);
        [by apply HonOpen|].
      exists o, t. split.
      + unfold bind, perform, invoke. by rewrite Hrun.
      + eapply run_actions_trace, Hrun.
    - exists (_options c1), []. by rewrite with_options_same. }
  destruct Hcb as (o & t & Hcb & Ht).
  exists o, t. split; [|done].
  unfold open. rewrite (bind_Normal _ _ _ _ _ _ Hbegin).
  unfold open_resume.
  erewrite try_catch_Normal; [reflexivity|].
  rewrite ret_bind, perform_bind, (read_bind _options).
  rewrite (bind_Normal _ _ _ _ _ _ Hstyles), write_write_bind.
  fold c1. rewrite (read_bind _options).
  rewrite (bind_Normal _ _ _ _ _ _ Hcb).
  rewrite (bind_Normal _ _ _ tt (with_options o c1) [])
    by (by apply emit_unregistered).
  rewrite (bind_Normal _ _ _ tt (with_options o c1) [])
    by (by apply emit_unregistered).
  simpl. by rewrite !app_nil_r.
Qed.

Lemma first_open_witness :
  exists o t,
    open 0 browser (resolved 7)
      (fst (constructor browser
              {| lit_width := Some (Some 400%Z);
                 lit_height := Some (Some 300%Z);
                 lit_disallowReturnToOpener := None;
                 lit_copyStyles := Some None;
                 lit_onOpen := Some (Some 1); lit_onClose := None |})) =
      Some (Normal (Some 7),
            with_options o
              (with_isOpen true
                 (with_pipWindow (Some 7)
                    (fst (constructor browser
                            {| lit_width := Some (Some 400%Z);
                               lit_height := Some (Some 300%Z);
                               lit_disallowReturnToOpener := None;
                               lit_copyStyles := Some None;
                               lit_onOpen := Some (Some 1);
                               lit_onClose := None |})))),
            requestWindow
              {| req_disallowReturnToOpener := Some false;
                 req_width := Some 400%Z;
                 req_height := Some 300%Z |}
            :: addEventListener_pagehide_once 7
            :: [] ++ call_onOpen 1 7 :: t) /\
    Forall (fun e => action_effect browser e = true) t.
Proof.
  apply (first_open 0 browser
           {| lit_width := Some (Some 400%Z);
              lit_height := Some (Some 300%Z);
              lit_disallowReturnToOpener := None;
              lit_copyStyles := Some None;
              lit_onOpen := Some (Some 1); lit_onClose := None |} 7).
  - reflexivity.
  - intros f _. reflexivity.
Defined.

(** ** The [open] of the Vue composable *)

(** X18. The composable's [open] pushes the current dimensions before
    it opens only when at least one of them is defined, and then it
    pushes both: on a controller that holds no window the request
    carries the current width and height, so that an undefined one
    erases the stored one; when both are undefined the options are not
    touched and the request carries the stored width and height.  On a
    controller that holds a window the held window is returned and no
    call is made, but the options have been updated all the same. *)
Theorem vue_open_pushes_dimensions (env : Env) (widthValue heightValue : option Z)
  (c : Controller) :
  capability_present env = true ->
  let pushed :=
    match widthValue, heightValue with
    | None, None => _options c
    | _, _ => spread (_options c) (dimensions widthValue heightValue)
    end in
  opt_width pushed =
    match widthValue, heightValue with
    | None, None => opt_width (_options c)
    | _, _ => widthValue
    end /\
  opt_height pushed =
    match widthValue, heightValue with
    | None, None => opt_height (_options c)
    | _, _ => heightValue
    end /\
  opt_disallowReturnToOpener pushed = opt_disallowReturnToOpener (_options c) /\
  vue_open_begin env widthValue heightValue c =
    match _pipWindow c with
    | None =>
        Some (Normal awaiting, with_options pushed c, [request_with pushed])
    | Some w =>
        Some (Normal (returned (Some w)), with_options pushed c, [])
    end.
Proof.
  intros Hcap pushed.
  split; [by destruct widthValue, heightValue|].
  split; [by destruct widthValue, heightValue|].
  split; [by destruct widthValue, heightValue|].
  unfold vue_open_begin.
  assert (Hupdate : vue_update_dimensions widthValue heightValue c =
            Some (Normal tt, with_options pushed c, [])).
  { unfold vue_update_dimensions, pushed.
    destruct widthValue, heightValue; try by rewrite updateOptions_eq.
    by rewrite with_options_same. }
  rewrite (bind_Normal _ _ _ _ _ _ Hupdate), open_begin_eq, Hcap. simpl.
  by destruct (_pipWindow c).
Qed.

Lemma vue_open_pushes_dimensions_witness :
  let pushed :=
    spread (_options fresh) (dimensions (Some 400%Z) None) in
  opt_width pushed = Some 400%Z /\
  opt_height pushed = None /\
  opt_disallowReturnToOpener pushed =
    opt_disallowReturnToOpener (_options fresh) /\
  vue_open_begin browser (Some 400%Z) None fresh =
    Some (Normal awaiting, with_options pushed fresh, [request_with pushed]).
Proof.
  apply (vue_open_pushes_dimensions browser (Some 400%Z) None fresh).
  reflexivity.
Defined.

(** ** The copy of the state the adapters keep *)

Lemma run_action_trace env a c r c' t :
  run_action env a c = Some (r, c', t) ->
  Forall (fun e => action_effect env e = true) t.
Proof.
  intros Hrun.
  assert (Hkeeps : keeps (fun _ => True)
            (fun e => action_effect env e = true) (run_action env a)).
  { apply keeps_run_action; try done.
    - intros. by apply keeps_on_frame.
    - intros. by apply keeps_off_frame. }
  by destruct (Hkeeps _ _ _ _ I Hrun).
Qed.

Lemma track_all_action_effect k env t m :
  Forall (fun e => action_effect env e = true) t -> track_all k m t = m.
Proof.
  unfold track_all. induction 1 as [|e t He _ IH]; [done|].
  simpl. rewrite <- IH at 2. f_equal. by destruct e.
Qed.

Lemma track_all_app k m t1 t2 :
  track_all k m (t1 ++ t2) = track_all k (track_all k m t1) t2.
Proof. apply fold_left_app. Qed.

Lemma wired_with_options k o c :
  wired k c ->
  opt_onOpen o = opt_onOpen (_options c) ->
  opt_onClose o = opt_onClose (_options c) ->
  wired k (with_options o c).
Proof.
  intros (H1 & H2 & H3 & H4) Ho Hc. repeat split; simpl; congruence.
Qed.

Lemma run_action_adapter env a c :
  adapter_action a = true ->
  exists r o t,
    run_action env a c = Some (r, with_options o c, t) /\
    opt_onOpen o = opt_onOpen (_options c) /\
    opt_onClose o = opt_onClose (_options c).
Proof.
  intros Ha.
  assert (Hsame : forall r t,
    run_action env a c = Some (r, c, t) ->
    exists r o t,
      run_action env a c = Some (r, with_options o c, t) /\
      opt_onOpen o = opt_onOpen (_options c) /\
      opt_onClose o = opt_onClose (_options c)).
  { intros r t Hrun. exists r, (_options c), t.
    by rewrite with_options_same. }
  destruct a; simpl in Ha; try done.
  - pose proof (open_begin_eq env c) as Hb. simpl.
    destruct (capability_present env), (_pipWindow c);
      eapply Hsame; simpl; by rewrite (bind_Normal _ _ _ _ _ _ Hb).
  - eapply Hsame. simpl. apply close_eq.
  - eapply Hsame. simpl. apply resize_eq.
  - eapply Hsame. simpl. apply resizeBy_eq.
  - eapply Hsame. simpl. apply focusOpener_eq.
  - eapply Hsame. simpl. apply copyStylesToWindow_eq.
  - simpl. rewrite updateOptions_eq. eexists _, _, _. split; [done|].
    simpl. by destruct (lit_onOpen options), (lit_onClose options).
  - by eapply Hsame.
Qed.

Lemma run_actions_adapter env body c :
  forallb adapter_action body = true ->
  exists r o t,
    run_actions env body c = Some (r, with_options o c, t) /\
    opt_onOpen o = opt_onOpen (_options c) /\
    opt_onClose o = opt_onClose (_options c) /\
    Forall (fun e => action_effect env e = true) t.
Proof.
  intros Hbody.
  assert (Hrun : exists r o t,
    run_actions env body c = Some (r, with_options o c, t) /\
    opt_onOpen o = opt_onOpen (_options c) /\
    opt_onClose o = opt_onClose (_options c)).
  { revert c. induction body as [|a body IH]; intros c; simpl.
    - exists (Normal tt), (_options c), []. by rewrite with_options_same.
    - simpl in Hbody. apply andb_true_iff in Hbody as [Ha Hbody].
      destruct (run_action_adapter env a c Ha) as (r1 & o1 & t1 & H1 & Ho1 & Hc1).
      destruct r1 as [[]|].
      + destruct (IH Hbody (with_options o1 c))
          as (r2 & o2 & t2 & H2 & Ho2 & Hc2).
        rewrite (bind_Normal _ _ _ _ _ _ H1), H2.
        exists r2, o2, (t1 ++ t2). split; [done|].
        simpl in *. split; congruence.
      + rewrite (bind_Thrown _ _ _ _ _ H1). by exists Thrown, o1, t1. }
  destruct Hrun as (r & o & t & Hrun & Ho & Hc).
  exists r, o, t. repeat split; try done.
  eapply run_actions_trace, Hrun.
Qed.

Lemma emit_wired_statechange fuel env k c :
  wired k c -> code env (wired_sync k) = [] -> 1 <= fuel ->
  _emit fuel env ev_statechange c =
    Some (Normal tt, c,
          [call_listener (wired_sync k) ev_statechange (state env c)]).
Proof.
  intros (_ & _ & Hm & Hh) Hcode Hfuel.
  destruct fuel as [|fuel]; [lia|].
  rewrite emit_unfold, Hm, lookup_singleton_eq.
  rewrite emit_loop_unfold, Hh. simpl.
  unfold invoke. rewrite Hcode. simpl.
  unfold bind at 1. unfold bind at 1. unfold perform, ret. simpl.
  rewrite emit_loop_unfold, Hh. done.
Qed.

Lemma emit_wired_other fuel env k c type :
  wired k c -> type <> ev_statechange ->
  _emit fuel env type c = Some (Normal tt, c, []).
Proof.
  intros (_ & _ & Hm & _) Hne. apply emit_unregistered.
  rewrite Hm. by apply lookup_singleton_ne.
Qed.

Lemma mirrors_with_options m o c : mirrors m c -> mirrors m (with_options o c).
Proof. done. Qed.

Lemma track_all_silent k t m :
  Forall (fun e => silent e = true) t -> track_all k m t = m.
Proof.
  unfold track_all. induction 1 as [|e t He _ IH]; [done|].
  simpl. rewrite <- IH at 2. f_equal. by destruct e.
Qed.

Lemma copy_calls_silent env w :
  Forall (fun e => silent e = true) (copyDocumentStylesToWindow_calls env w).
Proof.
  unfold copyDocumentStylesToWindow_calls.
  induction (copyDocumentStylesToWindow (document env) []); simpl; by constructor.
Qed.

Lemma wired_fields k c c' :
  wired k c ->
  _options c' = _options c -> _listeners c' = _listeners c ->
  heap c' = heap c ->
  wired k c'.
Proof.
  intros (H1 & H2 & H3 & H4) Ho Hl Hh. unfold wired.
  by rewrite Ho, Hl, Hh.
Qed.

(** The two [_emit] calls that end every handler, on a wired
    controller: the adapter's listener is called once, with the
    snapshot of the controller. *)
Lemma emit_pair_wired fuel env k c type :
  wired k c -> code env (wired_sync k) = [] -> 1 <= fuel ->
  type <> ev_statechange ->
  bind (_emit fuel env type) (fun _ => _emit fuel env ev_statechange) c =
    Some (Normal tt, c,
          [call_listener (wired_sync k) ev_statechange (state env c)]).
Proof.
  intros Hw Hcode Hfuel Hne.
  rewrite (bind_Normal _ _ _ tt c []) by (by eapply emit_wired_other).
  by rewrite (emit_wired_statechange fuel env k c Hw Hcode Hfuel).
Qed.

Lemma track_listener k m st :
  track k m (call_listener (wired_sync k) ev_statechange st) =
    {| mirror_isOpen := st_isOpen st; mirror_pipWindow := st_pipWindow st |}.
Proof. simpl. by rewrite decide_True. Qed.

(** ** The adapters' copy of the state *)

(** X19. What both adapters do when they are set up: they take the
    user's options apart with defaults, call the constructor with all
    six keys and their own two callbacks, and then
    [on('statechange', ...)].  This makes no call besides the
    registration of the enter handler and leaves a controller that is
    closed, as the adapter's copy says at first, with the adapter's two
    callbacks in its options and the adapter's listener as its only
    listener.  Its width and height are the user's, its
    disallowReturnToOpener is the user's or false and its copyStyles the
    user's or true, also when the user's key holds [undefined]: handed
    to the constructor directly, such a key would instead override the
    constructor's default with [undefined]. *)
Theorem adapter_setup_is_wired (env : Env) (k : Wiring)
  (options : OptionsLiteral) :
  exists c,
    on ev_statechange (wired_sync k) (fst (constructor env (wire k options))) =
      Some (Normal tt, c, []) /\
    wired k c /\
    mirrors {| mirror_isOpen := false; mirror_pipWindow := None |} c /\
    opt_width (_options c) = destructured (lit_width options) /\
    opt_height (_options c) = destructured (lit_height options) /\
    opt_disallowReturnToOpener (_options c) =
      Some (destructured_or false (lit_disallowReturnToOpener options)) /\
    opt_copyStyles (_options c) =
      Some (destructured_or true (lit_copyStyles options)) /\
    opt_disallowReturnToOpener (_options (fst (constructor env options))) =
      spread_key (Some false) (lit_disallowReturnToOpener options) /\
    opt_copyStyles (_options (fst (constructor env options))) =
      spread_key (Some true) (lit_copyStyles options) /\
    snd (constructor env (wire k options)) =
      if capability_present env then [addEventListener_enter] else [].
Proof.
  eexists. split; [reflexivity|]. by repeat split.
Qed.

(** X20. While a controller wired by an adapter lives, the adapter's
    copy follows it.  Whatever happens to such a controller (a method
    the adapter hands out is called, the dimensions are pushed by
    [updateOptions] as the watchers and the [open] of the vue adapter
    do, a request is resolved or rejected, the window is closed, a
    window is announced) comes to an end and leaves the controller
    wired; a copy that agreed with [isOpen] and [pipWindow] before
    agrees after, and after a request resolved, a window closed or a
    window announced the copy agrees even if it did not before.  This
    is so also when the user's [onOpen] or [onClose] throws, or calls
    methods of the adapter itself.  The end of the controller is not
    such a step: the teardown, which the react adapter also runs when
    width, height, disallowReturnToOpener or copyStyles change, is the
    subject of X21. *)
Theorem adapter_copy_follows_controller (fuel : nat) (env : Env)
  (k : Wiring) (m : Mirror) (c : Controller) (ev : Event) :
  1 <= fuel ->
  adapter_code k env ->
  adapter_event ev = true ->
  wired k c ->
  exists r c' t,
    reaction fuel env ev c = Some (r, c', t) /\
    wired k c' /\
    (mirrors m c -> mirrors (track_all k m t) c') /\
    (transition ev = true -> mirrors (track_all k m t) c').
Proof.
  intros Hfuel (Hsync & HonOpen & HonClose) Hev Hw.
  destruct ev as [a|[w|]|w|w]; simpl in Hev |- *.
  - (* a method is called *)
    destruct (run_action_adapter env a c Hev) as (r & o & t & Hrun & Ho & Hc).
    exists r, (with_options o c), t. split; [done|].
    split; [by apply wired_with_options|]. split; [|done].
    intros Hm. rewrite (track_all_action_effect k env t m); [done|].
    eapply run_action_trace, Hrun.
  - (* the request is resolved *)
    set (c1 := with_isOpen true (with_pipWindow (Some w) c)).
    set (f := wired_onOpen k).
    assert (Hw1 : wired k c1) by (by eapply wired_fields).
    assert (Hstyles : exists t0,
      (match opt_copyStyles (_options c) with
       | Some true => perform_all (copyDocumentStylesToWindow_calls env w)
       | _ => ret tt
       end) c = Some (Normal tt, c, t0) /\
      Forall (fun e => silent e = true) t0).
    { destruct (opt_copyStyles (_options c)) as [[|]|];
        eauto using copy_calls_silent. }
    destruct Hstyles as (t0 & H0 & Hs0).
    destruct (run_actions_adapter env (code env f) c1 HonOpen)
      as (r & o & t1 & H1 & Ho1 & Hc1 & Ht1).
    assert (Hw2 : wired k (with_options o c1)) by (by apply wired_with_options).
    assert (Hcb :
      (match opt_onOpen (_options c1) with
       | Some g => bind (perform (call_onOpen g w)) (fun _ => invoke env g)
       | None => ret tt
       end) c1 = Some (r, with_options o c1, [call_onOpen f w] ++ t1)).
    { change (opt_onOpen (_options c1)) with (opt_onOpen (_options c)).
      destruct Hw as (-> & _). unfold bind, perform, invoke. fold f.
      by rewrite H1. }
    assert (Htrack : forall t2,
      track_all k m (addEventListener_pagehide_once w
                     :: t0 ++ ([call_onOpen f w] ++ t1) ++ t2) =
      track_all k {| mirror_isOpen := true; mirror_pipWindow := Some w |} t2).
    { intros t2. change (addEventListener_pagehide_once w :: ?l)
        with ([addEventListener_pagehide_once w] ++ l).
      rewrite !track_all_app. f_equal.
      rewrite (track_all_silent k [addEventListener_pagehide_once w])
        by (by constructor).
      rewrite (track_all_silent k t0) by done.
      rewrite (track_all_action_effect k env t1) by done.
      unfold track_all, f. simpl. by rewrite decide_True. }
    destruct r as [[]|].
    + exists (Normal tt), (with_options o c1),
        (addEventListener_pagehide_once w
         :: t0 ++ ([call_onOpen f w] ++ t1)
            ++ [call_listener (wired_sync k) ev_statechange
                  (state env (with_options o c1))]).
      split; [|split; [done|]].
      * assert (Hres : open_resume fuel env (resolved w) c =
          Some (Normal (Some w), with_options o c1,
                addEventListener_pagehide_once w
                :: t0 ++ ([call_onOpen f w] ++ t1)
                   ++ [call_listener (wired_sync k) ev_statechange
                         (state env (with_options o c1))])).
        { unfold open_resume.
          erewrite try_catch_Normal; [reflexivity|].
          rewrite ret_bind, perform_bind, (read_bind _options).
          rewrite (bind_Normal _ _ _ _ _ _ H0), write_write_bind.
          fold c1. rewrite (read_bind _options).
          rewrite (bind_Normal _ _ _ _ _ _ Hcb).
          rewrite (bind_Normal _ _ _ tt (with_options o c1) [])
            by (by eapply emit_wired_other).
          rewrite (bind_Normal _ _ _ tt (with_options o c1)
                     [call_listener (wired_sync k) ev_statechange
                        (state env (with_options o c1))])
            by (by eapply emit_wired_statechange).
          simpl. by rewrite ?app_nil_r. }
        rewrite (bind_Normal _ _ _ _ _ _ Hres). simpl.
        by rewrite !app_nil_r.
      * split; intros _; rewrite Htrack; unfold track_all; simpl;
          by rewrite decide_True.
    + exists (Normal tt), (with_options o c1),
        (addEventListener_pagehide_once w
         :: t0 ++ ([call_onOpen f w] ++ t1) ++ [console_error]).
      split; [|split; [done|]].
      * assert (Hres : open_resume fuel env (resolved w) c =
          Some (Normal None, with_options o c1,
                addEventListener_pagehide_once w
                :: t0 ++ ([call_onOpen f w] ++ t1) ++ [console_error])).
        { unfold open_resume.
          rewrite (try_catch_Thrown _ _ c (with_options o c1)
                     (addEventListener_pagehide_once w
                      :: t0 ++ [call_onOpen f w] ++ t1)).
          - simpl. by rewrite <- !app_assoc.
          - rewrite ret_bind, perform_bind, (read_bind _options).
            rewrite (bind_Normal _ _ _ _ _ _ H0), write_write_bind.
            fold c1. rewrite (read_bind _options).
            by rewrite (bind_Thrown _ _ _ _ _ Hcb). }
        rewrite (bind_Normal _ _ _ _ _ _ Hres). simpl.
        by rewrite !app_nil_r.
      * split; intros _; by rewrite Htrack.
  - (* the request is rejected *)
    exists (Normal tt), c, [console_error].
    split; [reflexivity|]. split; [done|]. by split.
  - (* the window is closed *)
    set (c1 := with_pipWindow None (with_isOpen false c)).
    set (f := wired_onClose k).
    assert (Hw1 : wired k c1) by (by eapply wired_fields).
    destruct (run_actions_adapter env (code env f) c1 HonClose)
      as (r & o & t1 & H1 & Ho1 & Hc1 & Ht1).
    assert (Hw2 : wired k (with_options o c1)) by (by apply wired_with_options).
    assert (Hcb :
      (match opt_onClose (_options c1) with
       | Some g => bind (perform (call_onClose g)) (fun _ => invoke env g)
       | None => ret tt
       end) c1 = Some (r, with_options o c1, [call_onClose f] ++ t1)).
    { change (opt_onClose (_options c1)) with (opt_onClose (_options c)).
      destruct Hw as (_ & -> & _). unfold bind, perform, invoke. fold f.
      by rewrite H1. }
    assert (Htrack : forall t2,
      track_all k m (([call_onClose f] ++ t1) ++ t2) =
      track_all k {| mirror_isOpen := false; mirror_pipWindow := None |} t2).
    { intros t2. rewrite !track_all_app. f_equal.
      rewrite (track_all_action_effect k env t1) by done.
      unfold track_all, f. simpl. by rewrite decide_True. }
    unfold _handlePageHide. rewrite write_write_bind. fold c1.
    rewrite (read_bind _options).
    destruct r as [[]|].
    + exists (Normal tt), (with_options o c1),
        (([call_onClose f] ++ t1)
         ++ [call_listener (wired_sync k) ev_statechange
               (state env (with_options o c1))]).
      split; [|split; [done|]].
      * rewrite (bind_Normal _ _ _ _ _ _ Hcb).
        by rewrite (emit_pair_wired fuel env k (with_options o c1) ev_close).
      * split; intros _; rewrite Htrack; unfold track_all; simpl;
          by rewrite decide_True.
    + exists Thrown, (with_options o c1), ([call_onClose f] ++ t1).
      split; [|split; [done|]].
      * by rewrite (bind_Thrown _ _ _ _ _ Hcb).
      * split; intros _; rewrite <- (app_nil_r (_ ++ t1)); by rewrite Htrack.
  - (* a window is announced *)
    set (c1 := with_isOpen true (with_pipWindow (Some w) c)).
    assert (Hw1 : wired k c1) by (by eapply wired_fields).
    exists (Normal tt), c1,
      [call_listener (wired_sync k) ev_statechange (state env c1)].
    split; [|split; [done|]].
    + unfold _handleEnter. rewrite write_write_bind. fold c1.
      by rewrite (emit_pair_wired fuel env k c1 ev_open).
    + split; intros _; unfold track_all; simpl; by rewrite decide_True.
Qed.

Lemma adapter_copy_follows_controller_witness :
  exists r c' t,
    reaction 1 adapter_browser (request_settles (resolved 7))
      adapter_controller = Some (r, c', t) /\
    wired wiring_123 c' /\
    (mirrors {| mirror_isOpen := false; mirror_pipWindow := None |}
             adapter_controller ->
     mirrors
       (track_all wiring_123
          {| mirror_isOpen := false; mirror_pipWindow := None |} t) c') /\
    (transition (request_settles (resolved 7)) = true ->
     mirrors
       (track_all wiring_123
          {| mirror_isOpen := false; mirror_pipWindow := None |} t) c').
Proof.
  apply (adapter_copy_follows_controller 1 adapter_browser wiring_123
           {| mirror_isOpen := false; mirror_pipWindow := None |}
           adapter_controller (request_settles (resolved 7))).
  - lia.
  - by repeat split.
  - reflexivity.
  - by repeat split.
Defined.

(** X21. Tearing an adapter down says nothing to its copy.  On a wired
    controller that holds a window, the teardown of the react adapter
    (unsubscribe, then [dispose]) and that of the vue adapter
    ([dispose]) close the window and leave the controller closed,
    without a window and without listeners, and they call neither
    [onClose] nor any listener: the adapter's copy is not written and
    still holds the closed window, so that it no longer agrees with
    the controller. *)
Theorem teardown_leaves_copy_stale (env : Env) (k : Wiring) (m : Mirror)
  (c : Controller) (w : Window) (unsubscribes : bool) :
  wired k c ->
  mirrors m c ->
  _pipWindow c = Some w ->
  exists c' t,
    teardown env k unsubscribes c = Some (Normal tt, c', t) /\
    _isOpen c' = false /\ _pipWindow c' = None /\ _listeners c' = ∅ /\
    In (window_close w) t /\
    Forall (fun e => silent e = true) t /\
    track_all k m t = m /\
    mirror_pipWindow (track_all k m t) = Some w /\
    ~ mirrors (track_all k m t) c'.
Proof.
  intros Hw [Hmo Hmw] Hheld.
  assert (Hfirst : exists c1,
    (if unsubscribes then off ev_statechange (wired_sync k) else ret tt) c =
      Some (Normal tt, c1, []) /\ _pipWindow c1 = Some w).
  { destruct unsubscribes; [|by exists c].
    destruct (off_cases ev_statechange (wired_sync k) c)
      as (c1 & Hoff & _ & Hp1 & _).
    exists c1. split; [done|congruence]. }
  destruct Hfirst as (c1 & Hfirst & Hheld1).
  assert (Hsilent : Forall (fun e => silent e = true)
            ([removeEventListener_pagehide w; window_close w] ++
             (if capability_present env then [removeEventListener_enter]
              else []))).
  { destruct (capability_present env); by repeat constructor. }
  exists (disposed c1),
    ([removeEventListener_pagehide w; window_close w] ++
     (if capability_present env then [removeEventListener_enter] else [])).
  split.
  { unfold teardown. rewrite (bind_Normal _ _ _ _ _ _ Hfirst), dispose_eq.
    by rewrite Hheld1. }
  do 3 (split; [done|]).
  split; [simpl; by right; left|].
  split; [done|].
  rewrite (track_all_silent k _ m Hsilent).
  split; [done|]. split; [congruence|].
  intros [_ Hp]. simpl in Hp. congruence.
Qed.

Lemma teardown_leaves_copy_stale_witness :
  exists c' t,
    teardown adapter_browser wiring_123 true adapter_controller_open =
      Some (Normal tt, c', t) /\
    _isOpen c' = false /\ _pipWindow c' = None /\ _listeners c' = ∅ /\
    In (window_close 7) t /\
    Forall (fun e => silent e = true) t /\
    track_all wiring_123
      {| mirror_isOpen := true; mirror_pipWindow := Some 7 |} t =
      {| mirror_isOpen := true; mirror_pipWindow := Some 7 |} /\
    mirror_pipWindow
      (track_all wiring_123
         {| mirror_isOpen := true; mirror_pipWindow := Some 7 |} t) = Some 7 /\
    ~ mirrors
        (track_all wiring_123
           {| mirror_isOpen := true; mirror_pipWindow := Some 7 |} t) c'.
Proof.
  apply (teardown_leaves_copy_stale adapter_browser wiring_123
           {| mirror_isOpen := true; mirror_pipWindow := Some 7 |}
           adapter_controller_open 7 true).
  - by repeat split.
  - by split.
  - reflexivity.
Defined.

(** ** Who removes the pagehide observer *)

Lemma copy_calls_keep_observers env w :
  Forall (fun e => keeps_observers e = true)
         (copyDocumentStylesToWindow_calls env w).
Proof.
  unfold copyDocumentStylesToWindow_calls.
  induction (copyDocumentStylesToWindow (document env) []); simpl; by constructor.
Qed.

Lemma absorb_all_keeps_observers t p :
  Forall (fun e => keeps_observers e = true) t ->
  pagehide_listeners p ⊆ pagehide_listeners (absorb_all p t).
Proof.
  revert p. induction t as [|e t IH]; intros p Ht; simpl; [done|].
  inversion Ht as [|? ? He Ht']; subst.
  etrans; [|by apply IH].
  destruct e; simpl; try done. set_solver.
Qed.

Section only_dispose_removes.
Context (env : Env).
Hypothesis no_dispose : forall f, forallb not_dispose (code env f) = true.

Lemma observers_run_action a :
  not_dispose a = true ->
  keeps (fun _ => True) (fun e => keeps_observers e = true) (run_action env a).
Proof.
  destruct a; simpl; try done; intros _;
    unfold on, off, open_begin, close, resize, resizeBy, focusOpener,
      copyStylesToWindow, updateOptions;
    repeat keeps_step; try done.
  apply copy_calls_keep_observers.
Qed.

Lemma observers_run_actions body :
  forallb not_dispose body = true ->
  keeps (fun _ => True) (fun e => keeps_observers e = true)
        (run_actions env body).
Proof.
  induction body as [|a body IH]; simpl; intros Hbody.
  - apply keeps_ret.
  - apply andb_true_iff in Hbody as [Ha Hbody].
    apply keeps_bind; [by apply observers_run_action | intros _; by apply IH].
Qed.

Lemma observers_invoke f :
  keeps (fun _ => True) (fun e => keeps_observers e = true) (invoke env f).
Proof. apply observers_run_actions, no_dispose. Qed.

Lemma observers_emit_loop fuel type st r index :
  keeps (fun _ => True) (fun e => keeps_observers e = true)
        (emit_loop fuel env type st r index).
Proof.
  revert index. induction fuel as [|fuel IH]; intros index; simpl;
    repeat keeps_step; try done;
    first [apply IH | apply observers_invoke].
Qed.

Lemma observers_emit fuel type :
  keeps (fun _ => True) (fun e => keeps_observers e = true)
        (_emit fuel env type).
Proof. unfold _emit. repeat keeps_step. apply observers_emit_loop. Qed.

Lemma observers_handlePageHide fuel :
  keeps (fun _ => True) (fun e => keeps_observers e = true)
        (_handlePageHide fuel env).
Proof.
  unfold _handlePageHide.
  repeat keeps_step; try done;
    first [apply observers_emit | apply observers_invoke].
Qed.

Lemma observers_handleEnter fuel w :
  keeps (fun _ => True) (fun e => keeps_observers e = true)
        (_handleEnter fuel env w).
Proof.
  unfold _handleEnter. repeat keeps_step; try done; apply observers_emit.
Qed.

Lemma observers_open_resume fuel settlement :
  keeps (fun _ => True) (fun e => keeps_observers e = true)
        (open_resume fuel env settlement).
Proof.
  unfold open_resume.
  repeat keeps_step; try done;
    first [apply observers_emit | apply observers_invoke
          | apply copy_calls_keep_observers].
Qed.

Lemma run_keeps_observers {A} (m : Exec A) p c s' :
  keeps (fun _ => True) (fun e => keeps_observers e = true) m ->
  run m p c = Some s' ->
  pagehide_listeners p ⊆ pagehide_listeners (platform s').
Proof.
  intros Hm. unfold run.
  destruct (m c) as [[[r c'] t]|] eqn:Hrun; [|done].
  intros [= <-]. simpl. apply absorb_all_keeps_observers.
  by destruct (Hm _ _ _ _ I Hrun).
Qed.
End only_dispose_removes.

Lemma quiet_not_dispose env :
  (forall f, forallb quiet (code env f) = true) ->
  forall f, forallb not_dispose (code env f) = true.
Proof.
  intros Hq f. specialize (Hq f).
  induction (code env f) as [|a body IH]; [done|]. simpl in *.
  apply andb_true_iff in Hq as [Ha Hbody].
  rewrite IH by done. by destruct a.
Qed.

(** X22. Only [dispose()] makes the controller remove a pagehide
    observer.  Where no callback calls [dispose()], after any event
    other than a call of [dispose()], be it a method call, a request
    settled, a window announced, or the closure of another window,
    every window that was observed is still observed. *)
Theorem only_dispose_removes_observers (fuel : nat) (env : Env) (ev : Event)
  (s s' : System) (w : Window) :
  (forall f, forallb not_dispose (code env f) = true) ->
  ev <> user_calls call_dispose ->
  ev <> pagehide_fires w ->
  deliver fuel env ev s = Some s' ->
  w ∈ pagehide_listeners (platform s) ->
  w ∈ pagehide_listeners (platform s').
Proof.
  intros Hnd Hev1 Hev2 Hstep Hin.
  destruct ev as [a|settlement|w0|w0]; simpl in Hstep.
  - eapply run_keeps_observers in Hstep; [by apply Hstep|].
    apply observers_run_action. by destruct a.
  - destruct (in_flight (platform s)); [by injection Hstep as <-|].
    eapply run_keeps_observers in Hstep;
      [by apply Hstep | by apply observers_open_resume].
  - destruct (decide (w0 ∈ pagehide_listeners (platform s)));
      [|by injection Hstep as <-].
    eapply run_keeps_observers in Hstep;
      [|by apply observers_handlePageHide].
    apply Hstep. simpl. apply elem_of_difference. split; [done|].
    intros ->%elem_of_singleton. done.
  - destruct (enter_listener (platform s)); [|by injection Hstep as <-].
    eapply run_keeps_observers in Hstep;
      [by apply Hstep | by apply observers_handleEnter].
Qed.

Lemma only_dispose_removes_observers_witness :
  7 ∈ pagehide_listeners (platform after_close_of_8).
Proof.
  apply (only_dispose_removes_observers 0 browser (user_calls call_close)
           holding_8_observing_7 after_close_of_8 7).
  - reflexivity.
  - discriminate.
  - discriminate.
  - reflexivity.
  - apply (bool_decide_unpack _). reflexivity.
Defined.

(** X16. After its [await], [open()] does not look at whether a window
    is already held.  When a request is resolved with a window [w2]
    while the controller holds another window [w1] that it observes
    (it called [open()] twice before the first request was settled),
    the controller holds [w2] from then on; [w1] is not closed by it
    and stays observed along with [w2].  So when [w1] is closed later,
    the controller ends with [isOpen] false and [pipWindow] null while
    [w2], which it opened, is still observed.  Callbacks are taken
    quiet. *)
Theorem settled_request_replaces_held_window (fuel : nat) (env : Env)
  (w1 w2 : Window) (s : System) :
  (forall f, forallb quiet (code env f) = true) ->
  registry_size (controller s) <= fuel ->
  _pipWindow (controller s) = Some w1 ->
  w1 ∈ pagehide_listeners (platform s) ->
  w1 <> w2 ->
  0 < in_flight (platform s) ->
  exists s' s'',
    deliver fuel env (request_settles (resolved w2)) s = Some s' /\
    _pipWindow (controller s') = Some w2 /\
    _isOpen (controller s') = true /\
    w1 ∈ pagehide_listeners (platform s') /\
    w2 ∈ pagehide_listeners (platform s') /\
    deliver fuel env (pagehide_fires w1) s' = Some s'' /\
    _pipWindow (controller s'') = None /\
    _isOpen (controller s'') = false /\
    w2 ∈ pagehide_listeners (platform s'').
Proof.
  intros Hq Hfuel _ Hin Hne Hflight.
  pose proof (quiet_not_dispose env Hq) as Hnd.
  assert (Hcq : forall c, callbacks_quiet env c).
  { intros c. repeat split; intros; apply Hq. }
  destruct (in_flight (platform s)) as [|n] eqn:Hn; [lia|].
  destruct (open_resume_quiet fuel env w2 (controller s) (Hcq _) Hfuel)
    as (o & t & Hrun & _).
  set (c' := with_options o
               (with_isOpen true (with_pipWindow (Some w2) (controller s)))).
  set (p := {| enter_listener := enter_listener (platform s);
               pagehide_listeners := pagehide_listeners (platform s);
               in_flight := n |}).
  set (s' := {| controller := c';
                platform := absorb_all p
                              (addEventListener_pagehide_once w2 :: t) |}).
  assert (Hstep : deliver fuel env (request_settles (resolved w2)) s = Some s').
  { simpl. rewrite Hn. unfold run. fold p. by rewrite Hrun. }
  assert (Hsub : pagehide_listeners p ⊆ pagehide_listeners (platform s')).
  { apply absorb_all_keeps_observers.
    by destruct (observers_open_resume env Hnd fuel (resolved w2)
                   _ _ _ _ I Hrun). }
  assert (Hin2 : w2 ∈ pagehide_listeners (platform s')).
  { simpl. eapply (absorb_all_keeps_observers t).
    - destruct (observers_open_resume env Hnd fuel (resolved w2)
                  _ _ _ _ I Hrun) as [_ Ht].
      by inversion Ht.
    - simpl. set_solver. }
  assert (Hin1 : w1 ∈ pagehide_listeners (platform s')) by (by apply Hsub).
  destruct (handlePageHide_quiet fuel env c' (Hcq _)) as (o2 & t2 & Hrun2 & _);
    [done|].
  eexists s', _. split; [done|]. do 4 (split; [done|]).
  split.
  { simpl. rewrite decide_True by done. unfold run.
    change (controller s') with c'. by rewrite Hrun2. }
  do 2 (split; [done|]).
  simpl. eapply absorb_all_keeps_observers.
  - by destruct (observers_handlePageHide env Hnd fuel _ _ _ _ I Hrun2).
  - simpl. apply elem_of_difference. split; [done|].
    intros ->%elem_of_singleton. done.
Qed.

Lemma settled_request_replaces_held_window_witness :
  exists s' s'',
    deliver 0 browser (request_settles (resolved 8)) holding_7_one_pending =
      Some s' /\
    _pipWindow (controller s') = Some 8 /\
    _isOpen (controller s') = true /\
    7 ∈ pagehide_listeners (platform s') /\
    8 ∈ pagehide_listeners (platform s') /\
    deliver 0 browser (pagehide_fires 7) s' = Some s'' /\
    _pipWindow (controller s'') = None /\
    _isOpen (controller s'') = false /\
    8 ∈ pagehide_listeners (platform s'').
Proof.
  apply (settled_request_replaces_held_window 0 browser 7 8
           holding_7_one_pending).
  - intros f. reflexivity.
  - vm_compute. lia.
  - reflexivity.
  - apply (bool_decide_unpack _). reflexivity.
  - discriminate.
  - vm_compute. lia.
Defined.
